(** * Agent collaboration patterns: a shallow embedding and its properties

    The five engines of [src/patterns] (supervisor, debate, consensus,
    pipeline, swarm) are embedded as Rocq functions over explicit engine
    states.  Conventions used throughout:

    - a Python [float] is a rational ([Q]); comparisons, [min], [max] and
      clamping are exact.  The engines are given with the ideal sums,
      products and quotients first; the methods whose outcome is a choice
      that rounding can change (the weighted tally, [handle_tie],
      [select_worker], the swarm's iteration and its convergence test) are
      given again over a rounding operator, and what is stated about those
      choices is stated there, for every such operator;
    - a Python [int] is a [Z]; [range(n)] iterates [Z.to_nat n] times;
    - a [dict] whose iteration order is observable (the worker registry, the
      per-option score table, the pheromone map) is an association list in
      insertion order; a [dict] used only through lookups is a [gmap];
    - a method that mutates [self] returns the new engine state next to its
      result; a raised exception is the [Raise] branch of [result];
    - [datetime.now()] stamps are not modelled: no property below reads them. *)

From Stdlib Require Import ZArith QArith Qround Lqa Lia List String Bool.
From stdpp Require Import base option list strings gmap pretty.
Import ListNotations.

(** ** Fragments of the Python runtime *)

Inductive exn : Type :=
| ZeroDivisionError
| IndexError
| ValueError
| AttributeError
| OtherError (msg : string).

Inductive result (A : Type) : Type :=
| Ok (a : A)
| Raise (e : exn).
Arguments Ok {A} a.
Arguments Raise {A} e.

Definition rbind {A B : Type} (r : result A) (k : A -> result B) : result B :=
  match r with
  | Ok a => k a
  | Raise e => Raise e
  end.

Notation "'do' x <- r ; k" := (rbind r (fun x => k))
  (at level 10, x name, r at level 100, k at level 200).

Fixpoint rmap_list {A B : Type} (f : A -> result B) (l : list A) : result (list B) :=
  match l with
  | [] => Ok []
  | x :: l' => do y <- f x; do ys <- rmap_list f l'; Ok (y :: ys)
  end.

(** [a < b] on floats. *)
Definition Qltb (a b : Q) : bool :=
  match (a ?= b)%Q with
  | Lt => true
  | _ => false
  end.

(** The two-argument builtins [min(a, b)] and [max(a, b)]: the second
    argument is returned only when it is strictly better. *)
Definition fmin (a b : Q) : Q := if Qltb b a then b else a.
Definition fmax (a b : Q) : Q := if Qltb a b then b else a.

(** [a / b] on numbers: true division raises on a zero divisor. *)
Definition truediv (a b : Q) : result Q :=
  if Qeq_bool b 0 then Raise ZeroDivisionError else Ok (a / b)%Q.

(** [sum(xs)]: starts from [0] and adds from the left. *)
Definition py_sum (xs : list Q) : Q := fold_left Qplus xs 0%Q.

(** [max(xs, key=key)] and [min(xs, key=key)]: one pass that keeps the
    current best and replaces it only by a strictly better element, so the
    first extremal element wins; an empty argument raises [ValueError]. *)
Section Extremum.
Context {A : Type} (key : A -> Q).

Fixpoint max_from (best : A) (xs : list A) : A :=
  match xs with
  | [] => best
  | x :: xs' => max_from (if Qltb (key best) (key x) then x else best) xs'
  end.

Fixpoint min_from (best : A) (xs : list A) : A :=
  match xs with
  | [] => best
  | x :: xs' => min_from (if Qltb (key x) (key best) then x else best) xs'
  end.

Definition max_by (xs : list A) : result A :=
  match xs with
  | [] => Raise ValueError
  | x :: xs' => Ok (max_from x xs')
  end.

Definition min_by (xs : list A) : result A :=
  match xs with
  | [] => Raise ValueError
  | x :: xs' => Ok (min_from x xs')
  end.
End Extremum.

(** [range(lo, hi)]. *)
Definition py_range (lo hi : Z) : list Z := seqZ lo (hi - lo).

(** Insertion-ordered dictionaries with string keys. *)
Section OrderedDict.
Context {V : Type}.

Definition odict : Type := list (string * V).

Fixpoint dict_get (k : string) (d : odict) : option V :=
  match d with
  | [] => None
  | (k', v) :: d' => if String.eqb k k' then Some v else dict_get k d'
  end.

Definition dict_mem (k : string) (d : odict) : bool :=
  match dict_get k d with
  | Some _ => true
  | None => false
  end.

(** [d[k] = v]: an existing key keeps its place, a new key goes last. *)
Fixpoint dict_set (k : string) (v : V) (d : odict) : odict :=
  match d with
  | [] => [(k, v)]
  | (k', v') :: d' =>
      if String.eqb k k' then (k, v) :: d' else (k', v') :: dict_set k v d'
  end.

(** In-place update of the value bound to [k] (as [d[k] += c] does once
    the key is known to be present). *)
Fixpoint dict_alter (f : V -> V) (k : string) (d : odict) : odict :=
  match d with
  | [] => []
  | (k', v') :: d' =>
      if String.eqb k k' then (k', f v') :: d' else (k', v') :: dict_alter f k d'
  end.

Definition dict_keys (d : odict) : list string := map fst d.
Definition dict_values (d : odict) : list V := map snd d.
End OrderedDict.
Arguments odict V : clear implicits.

(** ** Consensus engine ([consensus_pattern.py]) *)
Module Consensus.

Inductive VotingStrategy : Type :=
| SIMPLE_MAJORITY
| WEIGHTED_CONFIDENCE
| UNANIMOUS.

(** The field [option] of the source is [choice] here ([option] is the
    name of a type). *)
Record Vote : Type := mkVote {
  agent_name : string;
  choice : string;
  confidence : Q;
  reasoning : string
}.

Record ConsensusEngine : Type := mkEngine {
  strategy : VotingStrategy;
  votes : list Vote
}.

Definition new_engine (s : VotingStrategy) : ConsensusEngine :=
  {| strategy := s; votes := [] |}.

(** The dictionaries returned by [calculate_consensus], one constructor
    per shape. *)
Inductive ConsensusResult : Type :=
| NoVotes (* {"consensus": None, "confidence": 0.0} *)
| NoConsensus (* {"consensus": None} *)
| Weighted (consensus : string) (conf : Q) (vote_breakdown : odict Q)
| Majority (consensus : string) (votes_for : Z) (total_votes : Z)
| Unanimity (consensus : option string) (unanimous : bool).

Definition clamp01 (c : Q) : Q := fmax 0 (fmin 1 c).

Definition add_vote (e : ConsensusEngine) (agent opt : string) (c : Q)
    (why : string) : ConsensusEngine :=
  let vote := {| agent_name := agent; choice := opt;
                 confidence := clamp01 c; reasoning := why |} in
  {| strategy := strategy e; votes := votes e ++ [vote] |}.

(** One turn of the tally loop of [_weighted_consensus], with the ideal
    sum; [ConsensusR.tally_step] has the rounded one. *)
Definition tally_step (st : odict Q * odict Z) (v : Vote) : odict Q * odict Z :=
  let '(scores, counts) := st in
  let '(scores, counts) :=
    if dict_mem (choice v) scores then (scores, counts)
    else (dict_set (choice v) 0%Q scores, dict_set (choice v) 0%Z counts) in
  (dict_alter (fun s => (s + confidence v)%Q) (choice v) scores,
   dict_alter (fun n => (n + 1)%Z) (choice v) counts).

Definition tally (vs : list Vote) : odict Q * odict Z :=
  fold_left tally_step vs ([], []).

(** [d[k]] for a key the loop has bound. *)
Definition score_of (d : odict Q) (k : string) : Q :=
  default 0%Q (dict_get k d).
Definition count_of (d : odict Z) (k : string) : Z :=
  default 0%Z (dict_get k d).

Definition _weighted_consensus (e : ConsensusEngine) : result ConsensusResult :=
  let '(option_scores, option_counts) := tally (votes e) in
  match option_scores with
  | [] => Ok NoConsensus
  | _ =>
      do best_option <- max_by (score_of option_scores) (dict_keys option_scores);
      let total_confidence := py_sum (dict_values option_scores) in
      do c <- truediv (score_of option_scores best_option) total_confidence;
      do breakdown <-
        rmap_list
          (fun opt =>
             do avg <- truediv (score_of option_scores opt)
                               (inject_Z (count_of option_counts opt));
             Ok (opt, avg))
          (dict_keys option_scores);
      Ok (Weighted best_option c breakdown)
  end.

Definition count_step (counts : odict Z) (v : Vote) : odict Z :=
  dict_set (choice v) (default 0%Z (dict_get (choice v) counts) + 1)%Z counts.

Definition _majority_consensus (e : ConsensusEngine) : result ConsensusResult :=
  let option_counts := fold_left count_step (votes e) [] in
  match option_counts with
  | [] => Ok NoConsensus
  | _ =>
      do best_option <-
        max_by (fun x => inject_Z (count_of option_counts x)) (dict_keys option_counts);
      Ok (Majority best_option (count_of option_counts best_option)
                   (Z.of_nat (length (votes e))))
  end.

Definition _unanimous_consensus (e : ConsensusEngine) : result ConsensusResult :=
  match votes e with
  | [] => Ok (Unanimity None false)
  | v0 :: _ =>
      let first_option := choice v0 in
      let unanimous := forallb (fun v => String.eqb (choice v) first_option) (votes e) in
      Ok (Unanimity (if unanimous then Some first_option else None) unanimous)
  end.

(** [calculate_consensus] reads the engine and leaves it as it is; the
    state is returned to make that explicit. *)
Definition calculate_consensus (e : ConsensusEngine)
    : result ConsensusResult * ConsensusEngine :=
  match votes e with
  | [] => (Ok NoVotes, e)
  | _ =>
      match strategy e with
      | WEIGHTED_CONFIDENCE => (_weighted_consensus e, e)
      | SIMPLE_MAJORITY => (_majority_consensus e, e)
      | UNANIMOUS => (_unanimous_consensus e, e)
      end
  end.

(** One turn of the collecting loop of [handle_tie]: a vote for a tied
    option adds its confidence to that option's list. *)
Definition collect_step (d : odict (list Q)) (v : Vote) : odict (list Q) :=
  if dict_mem (choice v) d then
    dict_alter (fun l => l ++ [confidence v]) (choice v) d
  else d.

End Consensus.

(** ** Debate engine ([debate_pattern.py]) *)
Module Debate.

Inductive DebatePosition : Type := PROPOSER | CRITIC.

Record Argument : Type := mkArgument {
  position : DebatePosition;
  content : string;
  confidence_score : Q;
  supporting_evidence : list string
}.

Record DebateRound : Type := mkRound {
  round_number : Z;
  proposer_argument : option Argument;
  critic_argument : option Argument;
  consensus_score : Q
}.

Record DebateOrchestrator : Type := mkDebate {
  num_rounds : Z;
  scoring_strategy : string;
  rounds : list DebateRound
}.

Definition new_debate (n : Z) (s : string) : DebateOrchestrator :=
  {| num_rounds := n; scoring_strategy := s; rounds := [] |}.

(** The dictionary returned by [run_debate]; [round_list] is its
    ["rounds"] entry, a list of (round, consensus) pairs. *)
Record DebateResult : Type := mkResult {
  topic : string;
  total_rounds : Z;
  avg_consensus_score : Q;
  proposer_final_confidence : Q;
  critic_final_confidence : Q;
  consensus_reached : bool;
  round_list : list (Z * Q)
}.

Definition _calculate_consensus (strat : string) (proposer_arg critic_arg : Argument) : Q :=
  if String.eqb strat "entropy_reduction" then
    fmin (confidence_score proposer_arg) (confidence_score critic_arg)
  else if String.eqb strat "agreement_measure" then
    ((confidence_score proposer_arg + confidence_score critic_arg) / 2)%Q
  else (1 # 2)%Q.

Definition proposer_confidence (round_num : Z) : Q :=
  ((8 # 10) + inject_Z round_num * (5 # 100))%Q.
Definition critic_confidence (round_num : Z) : Q :=
  ((7 # 10) + inject_Z round_num * (4 # 100))%Q.

(** The body of the [for] loop of [run_debate] up to the append. *)
Definition make_round (strat proposer_position : string) (round_num : Z) : DebateRound :=
  let proposer_arg :=
    {| position := PROPOSER;
       content := "Round " +:+ pretty round_num +:+ ": " +:+ proposer_position;
       confidence_score := proposer_confidence round_num;
       supporting_evidence := [] |} in
  let critic_arg :=
    {| position := CRITIC;
       content := "Round " +:+ pretty round_num +:+ ": Counter-argument";
       confidence_score := critic_confidence round_num;
       supporting_evidence := [] |} in
  {| round_number := round_num;
     proposer_argument := Some proposer_arg;
     critic_argument := Some critic_arg;
     consensus_score := _calculate_consensus strat proposer_arg critic_arg |}.

Definition arg_confidence (a : option Argument) : result Q :=
  match a with
  | Some x => Ok (confidence_score x)
  | None => Raise AttributeError
  end.

Definition _generate_consensus (d : DebateOrchestrator) : result DebateResult :=
  do avg_consensus <-
    truediv (py_sum (map consensus_score (rounds d)))
            (inject_Z (Z.of_nat (length (rounds d))));
  do final_round <-
    match last (rounds d) with
    | Some r => Ok r
    | None => Raise IndexError
    end;
  do pc <- arg_confidence (proposer_argument final_round);
  do cc <- arg_confidence (critic_argument final_round);
  Ok {| topic := "Debate topic";
        total_rounds := Z.of_nat (length (rounds d));
        avg_consensus_score := avg_consensus;
        proposer_final_confidence := pc;
        critic_final_confidence := cc;
        consensus_reached := Qltb (75 # 100) avg_consensus;
        round_list := map (fun r => (round_number r, consensus_score r)) (rounds d) |}.

Definition run_debate (d : DebateOrchestrator) (topic_ proposer_position : string)
    : result DebateResult * DebateOrchestrator :=
  let rs :=
    fold_left
      (fun acc round_num =>
         acc ++ [make_round (scoring_strategy d) proposer_position round_num])
      (py_range 1 (num_rounds d + 1)) [] in
  let d' := {| num_rounds := num_rounds d;
               scoring_strategy := scoring_strategy d;
               rounds := rs |} in
  (_generate_consensus d', d').


End Debate.

(** ** Pipeline orchestrator ([pipeline_pattern.py]) *)
Module Pipeline.
Section WithValue.
Context {Value : Type}.

Record SchemaValidation : Type := mkSchema {
  required_fields : list string;
  optional_fields : option (list string)
}.

Definition validate (s : SchemaValidation) (data : gmap string Value) : bool :=
  forallb (fun field => bool_decide (is_Some (data !! field))) (required_fields s).

(** A stage is its name, its two schemas and its [execute] method, a
    transform that yields new data or [None]. *)
Record PipelineStage : Type := mkStage {
  name : string;
  input_schema : SchemaValidation;
  output_schema : SchemaValidation;
  stage_execute : gmap string Value -> option (gmap string Value)
}.

(** An entry of [execution_history]: {"stage": name, "data": result}. *)
Record PipelineOrchestrator : Type := mkPipeline {
  pipeline_name : string;
  stages : list PipelineStage;
  execution_history : list (string * gmap string Value)
}.

Definition new_pipeline (n : string) : PipelineOrchestrator :=
  {| pipeline_name := n; stages := []; execution_history := [] |}.

Definition add_stage (p : PipelineOrchestrator) (stage : PipelineStage)
    : PipelineOrchestrator :=
  {| pipeline_name := pipeline_name p;
     stages := stages p ++ [stage];
     execution_history := execution_history p |}.

Definition skipped (skip_stages : list string) (stage : PipelineStage) : bool :=
  existsb (String.eqb (name stage)) skip_stages.

(** The [for] loop of [execute]: the remaining stages, the current data
    and the history so far. *)
Fixpoint run_stages (todo : list PipelineStage) (skip_stages : list string)
    (current_data : gmap string Value) (history : list (string * gmap string Value))
    : option (gmap string Value) * list (string * gmap string Value) :=
  match todo with
  | [] => (Some current_data, history)
  | stage :: todo' =>
      if skipped skip_stages stage then
        run_stages todo' skip_stages current_data history
      else if negb (validate (input_schema stage) current_data) then
        (None, history)
      else
        match stage_execute stage current_data with
        | None => (None, history)
        | Some result =>
            if negb (validate (output_schema stage) result) then (None, history)
            else run_stages todo' skip_stages result (history ++ [(name stage, result)])
        end
  end.

Definition execute (p : PipelineOrchestrator) (initial_data : gmap string Value)
    (skip_stages : option (list string))
    : option (gmap string Value) * PipelineOrchestrator :=
  let skip := default [] skip_stages in
  let '(out, history) := run_stages (stages p) skip initial_data (execution_history p) in
  (out, {| pipeline_name := pipeline_name p;
           stages := stages p;
           execution_history := history |}).

Definition get_execution_trace (p : PipelineOrchestrator)
    : list (string * gmap string Value) :=
  execution_history p.

(** A non-skipped stage that validates its input, executes and validates
    its output on [data], giving [out]. *)
Definition stage_passes (stage : PipelineStage) (data out : gmap string Value) : Prop :=
  validate (input_schema stage) data = true /\
  stage_execute stage data = Some out /\
  validate (output_schema stage) out = true.

(** [passes skip pre data out entries]: every non-skipped stage of [pre]
    passes in turn, taking [data] to [out] and yielding the trace entries
    [entries], one per executed stage, in execution order. *)
Inductive passes (skip : list string)
    : list PipelineStage -> gmap string Value -> gmap string Value ->
      list (string * gmap string Value) -> Prop :=
| passes_nil data : passes skip [] data data []
| passes_skip stage pre data out entries :
    skipped skip stage = true ->
    passes skip pre data out entries ->
    passes skip (stage :: pre) data out entries
| passes_run stage pre data mid out entries :
    skipped skip stage = false ->
    stage_passes stage data mid ->
    passes skip pre mid out entries ->
    passes skip (stage :: pre) data out ((name stage, mid) :: entries).

End WithValue.
Arguments SchemaValidation : clear implicits.
Arguments PipelineStage : clear implicits.
Arguments PipelineOrchestrator : clear implicits.
End Pipeline.

(** ** Supervisor and workers ([supervisor_pattern.py]) *)
Module Supervisor.
Section WithValue.
Context {Value : Type}.

Inductive Status : Type := pending | running | completed | failed.

#[global] Instance Status_eq_dec : EqDecision Status.
Proof. solve_decision. Defined.

(** [result] of the source is [task_result] here; a Python [None] is
    [None]. *)
Record Task : Type := mkTask {
  task_id : string;
  description : string;
  assigned_to : option string;
  status : Status;
  task_result : option Value
}.

Record WorkerAgent : Type := mkWorker {
  name : string;
  expertise : option string;
  completed_tasks : Z;
  failed_tasks : Z
}.

Definition new_worker (n : string) (e : option string) : WorkerAgent :=
  {| name := n; expertise := e; completed_tasks := 0; failed_tasks := 0 |}.

(** [failed / max(1, completed + failed)]; the divisor is at least 1, so
    the division never raises.  This is the ideal quotient;
    [SupervisorR.get_load] has the rounded one. *)
Definition get_load (w : WorkerAgent) : Q :=
  (inject_Z (failed_tasks w) /
   inject_Z (Z.max 1 (completed_tasks w + failed_tasks w)))%Q.

Record SupervisorAgent : Type := mkSupervisor {
  supervisor_name : string;
  workers : odict WorkerAgent;
  tasks : gmap string Task;
  max_retries : Z;
  timeout : Q
}.

Definition new_supervisor (n : string) (retries : Z) (t : Q) : SupervisorAgent :=
  {| supervisor_name := n; workers := []; tasks := ∅;
     max_retries := retries; timeout := t |}.

Definition set_workers (s : SupervisorAgent) (ws : odict WorkerAgent) : SupervisorAgent :=
  {| supervisor_name := supervisor_name s; workers := ws; tasks := tasks s;
     max_retries := max_retries s; timeout := timeout s |}.

Definition set_tasks (s : SupervisorAgent) (ts : gmap string Task) : SupervisorAgent :=
  {| supervisor_name := supervisor_name s; workers := workers s; tasks := ts;
     max_retries := max_retries s; timeout := timeout s |}.

Definition register_worker (s : SupervisorAgent) (w : WorkerAgent) : SupervisorAgent :=
  set_workers s (dict_set (name w) w (workers s)).

(** Truth value of an [Optional[str]] argument: [None] and the empty
    string are false. *)
Definition truthy (e : option string) : bool :=
  match e with
  | Some s => negb (String.eqb s "")
  | None => false
  end.

(** The candidate list of [select_worker], each worker with the registry
    key it is stored under. *)
Definition candidates (s : SupervisorAgent) (e : option string)
    : list (string * WorkerAgent) :=
  if truthy e then
    List.filter (fun kw => bool_decide (expertise (snd kw) = e)) (workers s)
  else workers s.

(** [select_worker] as a registry entry: the selected object together
    with its key, through which later mutations of it are seen. *)
Definition select_entry (s : SupervisorAgent) (e : option string)
    : result (option (string * WorkerAgent)) :=
  match candidates s e with
  | [] => Ok None
  | cs => do kw <- min_by (fun kw => get_load (snd kw)) cs; Ok (Some kw)
  end.

Definition select_worker (s : SupervisorAgent) (e : option string)
    : result (option WorkerAgent) :=
  do r <- select_entry s e; Ok (snd <$> r).

(** What one awaited [worker.execute(task)] does within the deadline. *)
Inductive Outcome : Type :=
| Returns (r : option Value)
| TimesOut
| Throws (e : exn).

Definition set_status (st : Status) (t : Task) : Task :=
  {| task_id := task_id t; description := description t;
     assigned_to := assigned_to t; status := st; task_result := task_result t |}.

Definition set_result (r : option Value) (t : Task) : Task :=
  {| task_id := task_id t; description := description t;
     assigned_to := assigned_to t; status := status t; task_result := r |}.

Definition bump_completed (w : WorkerAgent) : WorkerAgent :=
  {| name := name w; expertise := expertise w;
     completed_tasks := completed_tasks w + 1; failed_tasks := failed_tasks w |}.

Definition bump_failed (w : WorkerAgent) : WorkerAgent :=
  {| name := name w; expertise := expertise w;
     completed_tasks := completed_tasks w; failed_tasks := failed_tasks w + 1 |}.

(** The retry loop of [delegate_task] from attempt number [attempt] on,
    with [fuel] attempts left.  [key] is the registry key of the selected
    worker, [tid] the id of the task, [behaviour] the outcome of each
    attempt, [slept] the backoff delays passed to [asyncio.sleep]. *)
Fixpoint attempts (fuel : nat) (attempt : Z) (behaviour : Z -> Outcome)
    (key tid : string) (s : SupervisorAgent) (slept : list Z)
    : result (option Value) * SupervisorAgent * list Z :=
  match fuel with
  | O => (Ok None, s, slept)
  | S fuel' =>
      let s := set_tasks s (alter (set_status running) tid (tasks s)) in
      match behaviour attempt with
      | Returns r =>
          let s := set_tasks s
                     (alter (fun t => set_result r (set_status completed t)) tid (tasks s)) in
          let s := set_workers s (dict_alter bump_completed key (workers s)) in
          (Ok r, s, slept)
      | TimesOut =>
          let s := set_tasks s (alter (set_status failed) tid (tasks s)) in
          let s := set_workers s (dict_alter bump_failed key (workers s)) in
          let slept :=
            if (attempt <? max_retries s - 1)%Z then slept ++ [(2 ^ attempt)%Z]
            else slept in
          attempts fuel' (attempt + 1)%Z behaviour key tid s slept
      | Throws e => (Raise e, s, slept)
      end
  end.

Definition delegate_task (s : SupervisorAgent) (task_description : string)
    (e : option string) (behaviour : Z -> Outcome)
    : result (option Value) * SupervisorAgent * list Z :=
  match select_entry s e with
  | Raise x => (Raise x, s, [])
  | Ok None => (Ok None, s, [])
  | Ok (Some (key, worker)) =>
      let task :=
        {| task_id := "task_" +:+ pretty (Z.of_nat (size (tasks s)));
           description := task_description;
           assigned_to := Some (name worker);
           status := pending;
           task_result := None |} in
      let s := set_tasks s (<[task_id task := task]> (tasks s)) in
      attempts (Z.to_nat (max_retries s)) 0 behaviour key (task_id task) s []
  end.

(** The dictionary returned by [get_status]. *)
Record StatusReport : Type := mkReport {
  supervisor : string;
  total_workers : Z;
  total_tasks : Z;
  completed_count : Z;
  failed_count : Z;
  success_rate : Q
}.

Definition count_status (st : Status) (ts : gmap string Task) : Z :=
  Z.of_nat (length (List.filter
                      (fun kt => bool_decide (status (snd kt) = st))
                      (map_to_list ts))).

(** [get_status] reads the supervisor and leaves it as it is. *)
Definition get_status (s : SupervisorAgent) : StatusReport * SupervisorAgent :=
  let completed_n := count_status completed (tasks s) in
  let failed_n := count_status failed (tasks s) in
  ({| supervisor := supervisor_name s;
      total_workers := Z.of_nat (length (workers s));
      total_tasks := Z.of_nat (size (tasks s));
      completed_count := completed_n;
      failed_count := failed_n;
      success_rate :=
        (inject_Z completed_n / inject_Z (Z.max 1 (Z.of_nat (size (tasks s)))))%Q |},
   s).

End WithValue.
Arguments Task : clear implicits.
Arguments SupervisorAgent : clear implicits.
Arguments Outcome : clear implicits.
End Supervisor.

(** ** Swarm engine ([swarm_pattern.py]) *)
Module Swarm.

Record Pheromone : Type := mkPheromone {
  location : string;
  value : Q;
  age : Z
}.

Record SwarmAgent : Type := mkAgent {
  agent_id : string;
  position : string;
  local_pheromones : odict Q;
  visited_locations : gset string
}.

Definition new_agent (id initial_position : string) : SwarmAgent :=
  {| agent_id := id; position := initial_position;
     local_pheromones := []; visited_locations := {[initial_position]} |}.

Definition sense_pheromones (a : SwarmAgent) (environment : odict Q) : SwarmAgent :=
  {| agent_id := agent_id a; position := position a;
     local_pheromones := environment; visited_locations := visited_locations a |}.

Definition decide_next_location (a : SwarmAgent) : result string :=
  match local_pheromones a with
  | [] => Ok (position a)
  | _ =>
      max_by (fun loc => default 0%Q (dict_get loc (local_pheromones a)))
             (dict_keys (local_pheromones a))
  end.

Definition move (a : SwarmAgent) (new_position : string) : SwarmAgent :=
  {| agent_id := agent_id a; position := new_position;
     local_pheromones := local_pheromones a;
     visited_locations := visited_locations a ∪ {[new_position]} |}.

Record SwarmIntelligence : Type := mkSwarm {
  agents : list SwarmAgent;
  environment_pheromones : odict Pheromone;
  decay_rate : Q;
  timestep : Z
}.

Definition new_swarm (num_agents : Z) (decay : Q) : SwarmIntelligence :=
  {| agents := map (fun i => new_agent ("agent_" +:+ pretty i) "origin")
                   (py_range 0 num_agents);
     environment_pheromones := [];
     decay_rate := decay;
     timestep := 0 |}.

Definition set_value (v : Q) (p : Pheromone) : Pheromone :=
  {| location := location p; value := v; age := age p |}.

(** [deposit_pheromone] on the pheromone map. *)
Definition deposit (env : odict Pheromone) (loc : string) (v : Q) : odict Pheromone :=
  if dict_mem loc env then
    dict_alter (fun p => set_value (fmin 1 (value p + v)) p) loc env
  else
    dict_set loc {| location := loc; value := v; age := 0 |} env.

Definition deposit_pheromone (s : SwarmIntelligence) (loc : string) (v : Q)
    : SwarmIntelligence :=
  {| agents := agents s;
     environment_pheromones := deposit (environment_pheromones s) loc v;
     decay_rate := decay_rate s; timestep := timestep s |}.

Definition evaporate (decay : Q) (env : odict Pheromone) : odict Pheromone :=
  map (fun kp =>
         (fst kp,
          {| location := location (snd kp);
             value := (value (snd kp) * (1 - decay))%Q;
             age := age (snd kp) + 1 |}))
      env.

Definition evaporate_pheromones (s : SwarmIntelligence) : SwarmIntelligence :=
  {| agents := agents s;
     environment_pheromones := evaporate (decay_rate s) (environment_pheromones s);
     decay_rate := decay_rate s; timestep := timestep s |}.

(** The [for agent in self.agents] loop of [update_agent_positions]. *)
Fixpoint update_agents (pheromone_map : odict Q) (todo : list SwarmAgent)
    (env : odict Pheromone) : result (list SwarmAgent * odict Pheromone) :=
  match todo with
  | [] => Ok ([], env)
  | agent :: todo' =>
      let agent := sense_pheromones agent pheromone_map in
      do next_location <- decide_next_location agent;
      let agent := move agent next_location in
      let env := deposit env next_location (1 # 10)%Q in
      do rest <- update_agents pheromone_map todo' env;
      Ok (agent :: fst rest, snd rest)
  end.

Definition update_agent_positions (s : SwarmIntelligence) : result SwarmIntelligence :=
  let pheromone_map :=
    map (fun kp => (fst kp, value (snd kp))) (environment_pheromones s) in
  do r <- update_agents pheromone_map (agents s) (environment_pheromones s);
  Ok {| agents := fst r; environment_pheromones := snd r;
        decay_rate := decay_rate s; timestep := timestep s |}.

(** [len(set(all_positions))]. *)
Definition unique_positions (s : SwarmIntelligence) : Z :=
  Z.of_nat (size (list_to_set (map position (agents s)) : gset string)).

Record IterationStats : Type := mkStats {
  stat_timestep : Z;
  unique_locations : Z;
  convergence_ratio : Q;
  avg_pheromone : Q
}.

Definition run_iteration (s : SwarmIntelligence)
    : result (IterationStats * SwarmIntelligence) :=
  do s <- update_agent_positions s;
  let s := evaporate_pheromones s in
  let s := {| agents := agents s; environment_pheromones := environment_pheromones s;
              decay_rate := decay_rate s; timestep := timestep s + 1 |} in
  do ratio <- truediv (inject_Z (unique_positions s))
                      (inject_Z (Z.of_nat (length (agents s))));
  Ok ({| stat_timestep := timestep s;
         unique_locations := unique_positions s;
         convergence_ratio := (1 - ratio)%Q;
         avg_pheromone :=
           (py_sum (map (fun kp => value (snd kp)) (environment_pheromones s)) /
            inject_Z (Z.max 1 (Z.of_nat (length (environment_pheromones s)))))%Q |},
      s).

(** The measure and the bound [1 - threshold] are the ideal ones here;
    [SwarmR.is_converged] has the rounded ones. *)
Definition is_converged (s : SwarmIntelligence) (threshold : Q) : bool :=
  let convergence :=
    (inject_Z (unique_positions s - 1) /
     inject_Z (Z.max 1 (Z.of_nat (length (agents s)) - 1)))%Q in
  Qle_bool convergence (1 - threshold).

(** The loop of [swarm_optimization] with [fuel] iterations left. *)
Fixpoint optimize_loop (fuel : nat) (s : SwarmIntelligence) : result SwarmIntelligence :=
  match fuel with
  | O => Ok s
  | S fuel' =>
      if is_converged s (8 # 10) then Ok s
      else do r <- run_iteration s; optimize_loop fuel' (snd r)
  end.

(** [swarm_optimization]: the answer (or the exception) and the swarm as
    the loop left it; an exception inside an iteration leaves no swarm to
    report. *)
Definition swarm_optimization (s : SwarmIntelligence) (max_iterations : Z)
    : result (string * SwarmIntelligence) :=
  do s <- optimize_loop (Z.to_nat max_iterations) s;
  match agents s with
  | a :: _ => Ok (position a, s)
  | [] => Raise IndexError
  end.


End Swarm.

(** ** The engines over rounded arithmetic

    The definitions above compute with exact rationals.  Where the outcome
    of a method is a choice (which option wins, which worker is selected,
    whether the swarm counts as converged), rounding matters: two sums that
    differ exactly can be the same double.  The definitions below are the
    same methods with every float operation followed by a rounding
    operator.  A double is then a rational in the image of the operator,
    comparisons are the exact ones, and a literal such as [0.8] is the
    rounded [8 # 10].  The operator is a parameter: all that is assumed of it
    is that it is monotone and leaves 0 and 1 alone, as rounding to the
    nearest double does; infinities and NaN are outside this model.  The
    builtin [sum] is a parameter as well, since how it adds floats (from the
    left with a rounding at each step, or with a compensated sum) differs
    between interpreter versions: all that is assumed of it is that a list
    of zeros sums to zero.  The identity with the exact sum is such an
    arithmetic and gives back the exact definitions. *)

Record Rounding : Type := mkRounding {
  rnd : Q -> Q;
  rnd_mono : forall a b : Q, (a <= b)%Q -> (rnd a <= rnd b)%Q;
  rnd_zero : (rnd 0 == 0)%Q;
  rnd_one : (rnd 1 == 1)%Q;
  fsum : list Q -> Q;
  fsum_zeros : forall xs : list Q, Forall (fun x => (x == 0)%Q) xs -> (fsum xs == 0)%Q
}.

(** No rounding at all. *)
Definition exact : Rounding.
Proof.
  refine {| rnd := fun q => q; fsum := py_sum |}.
  - intros a b H. exact H.
  - reflexivity.
  - reflexivity.
  - intros xs H. unfold py_sum.
    assert (forall acc : Q, (acc == 0)%Q -> (fold_left Qplus xs acc == 0)%Q) as G.
    { induction H as [ | x xs Hx _ IH]; intros acc Hacc; simpl; [exact Hacc | ].
      apply IH. rewrite Hacc, Hx. reflexivity. }
    apply G. reflexivity.
Defined.

(** A coarse arithmetic for examples: every result is rounded up to the
    next multiple of 1/16, and [sum] adds from the left. *)
Definition up16 (q : Q) : Q := (inject_Z (Qceiling (q * 16)) / 16)%Q.

Definition sum16 (xs : list Q) : Q :=
  fold_left (fun acc x => up16 (acc + x)) xs 0%Q.

Definition sixteenths : Rounding.
Proof.
  assert (forall a b : Q, (a <= b)%Q -> (up16 a <= up16 b)%Q) as Hmono.
  { intros a b H. unfold up16, Qdiv. apply Qmult_le_compat_r; [ | discriminate].
    rewrite <- Zle_Qle. apply Qceiling_resp_le.
    apply Qmult_le_compat_r; [exact H | discriminate]. }
  refine {| rnd := up16; fsum := sum16 |}.
  - exact Hmono.
  - reflexivity.
  - reflexivity.
  - intros xs H. unfold sum16.
    assert (forall acc : Q, (acc == 0)%Q ->
              (fold_left (fun acc x => up16 (acc + x)) xs acc == 0)%Q) as G.
    { induction H as [ | x xs Hx _ IH]; intros acc Hacc; simpl; [exact Hacc | ].
      assert (up16 0 == 0)%Q as Hzero by reflexivity.
      apply IH. apply Qle_antisym.
      - apply (Qle_trans _ (up16 0)); [ | rewrite Hzero; apply Qle_refl].
        apply Hmono. rewrite Hacc, Hx. apply Qle_refl.
      - apply (Qle_trans _ (up16 0)); [rewrite Hzero; apply Qle_refl | ].
        apply Hmono. rewrite Hacc, Hx. apply Qle_refl. }
    apply G. reflexivity.
Defined.

(** [a / b] with a float result: raises on a zero divisor, else rounds the
    quotient (also for two integers, whose true division is correctly
    rounded). *)
Definition fl_div (R : Rounding) (a b : Q) : result Q :=
  if Qeq_bool b 0 then Raise ZeroDivisionError else Ok (rnd R (a / b)%Q).

Module ConsensusR.
Import Consensus.

(** One turn of the tally loop: [option_scores[opt] += confidence]. *)
Definition tally_step (R : Rounding) (st : odict Q * odict Z) (v : Vote)
    : odict Q * odict Z :=
  let '(scores, counts) := st in
  let '(scores, counts) :=
    if dict_mem (choice v) scores then (scores, counts)
    else (dict_set (choice v) 0%Q scores, dict_set (choice v) 0%Z counts) in
  (dict_alter (fun s => rnd R (s + confidence v)%Q) (choice v) scores,
   dict_alter (fun n => (n + 1)%Z) (choice v) counts).

Definition tally (R : Rounding) (vs : list Vote) : odict Q * odict Z :=
  fold_left (tally_step R) vs ([], []).

Definition _weighted_consensus (R : Rounding) (e : ConsensusEngine)
    : result ConsensusResult :=
  let '(option_scores, option_counts) := tally R (votes e) in
  match option_scores with
  | [] => Ok NoConsensus
  | _ =>
      do best_option <- max_by (score_of option_scores) (dict_keys option_scores);
      let total_confidence := fsum R (dict_values option_scores) in
      do c <- fl_div R (score_of option_scores best_option) total_confidence;
      do breakdown <-
        rmap_list
          (fun opt =>
             do avg <- fl_div R (score_of option_scores opt)
                               (inject_Z (count_of option_counts opt));
             Ok (opt, avg))
          (dict_keys option_scores);
      Ok (Weighted best_option c breakdown)
  end.

(** The strategies that count or compare options use no float
    arithmetic and are the ones of [Consensus]. *)
Definition calculate_consensus (R : Rounding) (e : ConsensusEngine)
    : result ConsensusResult * ConsensusEngine :=
  match votes e with
  | [] => (Ok NoVotes, e)
  | _ =>
      match strategy e with
      | WEIGHTED_CONFIDENCE => (_weighted_consensus R e, e)
      | SIMPLE_MAJORITY => (_majority_consensus e, e)
      | UNANIMOUS => (_unanimous_consensus e, e)
      end
  end.

(** [sum(l) / max(1, len(l))] for the list bound to [opt]. *)
Definition mean_of (R : Rounding) (d : odict (list Q)) (opt : string) : Q :=
  let l := default [] (dict_get opt d) in
  rnd R (fsum R l / inject_Z (Z.max 1 (Z.of_nat (length l))))%Q.

Definition handle_tie (R : Rounding) (e : ConsensusEngine) (tied_options : list string)
    : result string :=
  let option_confidences :=
    fold_left collect_step (votes e)
              (fold_left (fun d opt => dict_set opt [] d) tied_options []) in
  max_by (mean_of R option_confidences) tied_options.

End ConsensusR.

Module SupervisorR.
Import Supervisor.
Section WithValue.
Context {Value : Type}.

(** [failed / max(1, completed + failed)], an integer division with a
    float result. *)
Definition get_load (R : Rounding) (w : WorkerAgent) : Q :=
  rnd R (inject_Z (failed_tasks w) /
         inject_Z (Z.max 1 (completed_tasks w + failed_tasks w)))%Q.

Definition select_entry (R : Rounding) (s : SupervisorAgent Value) (e : option string)
    : result (option (string * WorkerAgent)) :=
  match candidates s e with
  | [] => Ok None
  | cs => do kw <- min_by (fun kw => get_load R (snd kw)) cs; Ok (Some kw)
  end.

Definition select_worker (R : Rounding) (s : SupervisorAgent Value) (e : option string)
    : result (option WorkerAgent) :=
  do r <- select_entry R s e; Ok (snd <$> r).

End WithValue.
End SupervisorR.

Module SwarmR.
Import Swarm.

(** [deposit_pheromone] on the pheromone map. *)
Definition deposit (R : Rounding) (env : odict Pheromone) (loc : string) (v : Q)
    : odict Pheromone :=
  if dict_mem loc env then
    dict_alter (fun p => set_value (fmin 1 (rnd R (value p + v))) p) loc env
  else
    dict_set loc {| location := loc; value := v; age := 0 |} env.

Definition deposit_pheromone (R : Rounding) (s : SwarmIntelligence) (loc : string)
    (v : Q) : SwarmIntelligence :=
  {| agents := agents s;
     environment_pheromones := deposit R (environment_pheromones s) loc v;
     decay_rate := decay_rate s; timestep := timestep s |}.

Definition evaporate (R : Rounding) (decay : Q) (env : odict Pheromone)
    : odict Pheromone :=
  map (fun kp =>
         (fst kp,
          {| location := location (snd kp);
             value := rnd R (value (snd kp) * rnd R (1 - decay))%Q;
             age := age (snd kp) + 1 |}))
      env.

Definition evaporate_pheromones (R : Rounding) (s : SwarmIntelligence)
    : SwarmIntelligence :=
  {| agents := agents s;
     environment_pheromones := evaporate R (decay_rate s) (environment_pheromones s);
     decay_rate := decay_rate s; timestep := timestep s |}.

(** The [for agent in self.agents] loop of [update_agent_positions]; the
    deposited amount is the literal [0.1]. *)
Fixpoint update_agents (R : Rounding) (pheromone_map : odict Q)
    (todo : list SwarmAgent) (env : odict Pheromone)
    : result (list SwarmAgent * odict Pheromone) :=
  match todo with
  | [] => Ok ([], env)
  | agent :: todo' =>
      let agent := sense_pheromones agent pheromone_map in
      do next_location <- decide_next_location agent;
      let agent := move agent next_location in
      let env := deposit R env next_location (rnd R (1 # 10)) in
      do rest <- update_agents R pheromone_map todo' env;
      Ok (agent :: fst rest, snd rest)
  end.

Definition update_agent_positions (R : Rounding) (s : SwarmIntelligence)
    : result SwarmIntelligence :=
  let pheromone_map :=
    map (fun kp => (fst kp, value (snd kp))) (environment_pheromones s) in
  do r <- update_agents R pheromone_map (agents s) (environment_pheromones s);
  Ok {| agents := fst r; environment_pheromones := snd r;
        decay_rate := decay_rate s; timestep := timestep s |}.

Definition run_iteration (R : Rounding) (s : SwarmIntelligence)
    : result (IterationStats * SwarmIntelligence) :=
  do s <- update_agent_positions R s;
  let s := evaporate_pheromones R s in
  let s := {| agents := agents s; environment_pheromones := environment_pheromones s;
              decay_rate := decay_rate s; timestep := timestep s + 1 |} in
  do ratio <- fl_div R (inject_Z (unique_positions s))
                       (inject_Z (Z.of_nat (length (agents s))));
  Ok ({| stat_timestep := timestep s;
         unique_locations := unique_positions s;
         convergence_ratio := rnd R (1 - ratio)%Q;
         avg_pheromone :=
           rnd R (fsum R (map (fun kp => value (snd kp)) (environment_pheromones s)) /
                  inject_Z (Z.max 1 (Z.of_nat (length (environment_pheromones s)))))%Q |},
      s).

Definition is_converged (R : Rounding) (s : SwarmIntelligence) (threshold : Q) : bool :=
  let convergence :=
    rnd R (inject_Z (unique_positions s - 1) /
           inject_Z (Z.max 1 (Z.of_nat (length (agents s)) - 1)))%Q in
  Qle_bool convergence (rnd R (1 - threshold)).

(** The loop of [swarm_optimization] with [fuel] iterations left; the
    threshold is the default of [is_converged], the literal [0.8]. *)
Fixpoint optimize_loop (R : Rounding) (fuel : nat) (s : SwarmIntelligence)
    : result SwarmIntelligence :=
  match fuel with
  | O => Ok s
  | S fuel' =>
      if is_converged R s (rnd R (8 # 10)) then Ok s
      else do r <- run_iteration R s; optimize_loop R fuel' (snd r)
  end.

Definition swarm_optimization (R : Rounding) (s : SwarmIntelligence)
    (max_iterations : Z) : result (string * SwarmIntelligence) :=
  do s <- optimize_loop R (Z.to_nat max_iterations) s;
  match agents s with
  | a :: _ => Ok (position a, s)
  | [] => Raise IndexError
  end.

End SwarmR.

(** ** Vocabulary of the statements *)

Definition in_unit (q : Q) : Prop := (0 <= q <= 1)%Q.

Module ConsensusSpec.
Import Consensus.

(** An engine driven by a sequence of [add_vote] calls. *)
Definition cast_votes (e : ConsensusEngine) (calls : list (string * string * Q * string))
    : ConsensusEngine :=
  fold_left (fun e '(agent, opt, c, why) => add_vote e agent opt c why) calls e.

(** The options of a vote log, each once, in order of first appearance. *)
Definition options_of (vs : list Vote) : list string :=
  fold_left
    (fun acc v => if existsb (String.eqb (choice v)) acc then acc else acc ++ [choice v])
    vs [].

Definition votes_for_option (opt : string) (vs : list Vote) : list Vote :=
  List.filter (fun v => String.eqb opt (choice v)) vs.

(** Summed confidence and number of the votes for [opt]. *)
Definition sum_conf (vs : list Vote) (opt : string) : Q :=
  py_sum (map confidence (votes_for_option opt vs)).

Definition vote_count (vs : list Vote) (opt : string) : Z :=
  Z.of_nat (length (votes_for_option opt vs)).

(** Summed confidence over all options. *)
Definition total_conf (vs : list Vote) : Q :=
  py_sum (map (sum_conf vs) (options_of vs)).

(** The vote log of the example: (A, 0.9), (A, 0.8), (B, 0.6). *)
Definition example_engine : ConsensusEngine :=
  cast_votes (new_engine WEIGHTED_CONFIDENCE)
    [("Agent1", "A", 9 # 10, ""); ("Agent2", "A", 8 # 10, "");
     ("Agent3", "B", 6 # 10, "")]%Q.
(** Vote logs used to instantiate the statements. *)
Definition majority_example : ConsensusEngine :=
  cast_votes (new_engine SIMPLE_MAJORITY)
    [("a", "X", 1 # 10, ""); ("b", "Y", 9 # 10, ""); ("c", "X", 2 # 10, "")]%Q.

Definition zero_example : ConsensusEngine :=
  cast_votes (new_engine WEIGHTED_CONFIDENCE)
    [("a", "X", 0, ""); ("b", "Y", - (1 # 2), "")]%Q.

(** One vote, of confidence 0.0. *)
Definition zero_vote_engine : ConsensusEngine :=
  cast_votes (new_engine WEIGHTED_CONFIDENCE) [("Agent1", "A", 0, "")]%Q.

(** The score the tally loop computes for [opt]: it starts from 0.0 and
    adds the confidences of the votes for [opt] in order, rounding after
    each addition. *)
Definition computed_sum (R : Rounding) (vs : list Vote) (opt : string) : Q :=
  fold_left (fun acc c => rnd R (acc + c)%Q)
            (map confidence (votes_for_option opt vs)) 0%Q.

(** The total the weighted strategy divides by, as computed. *)
Definition computed_total (R : Rounding) (vs : list Vote) : Q :=
  fsum R (map (computed_sum R vs) (options_of vs)).

(** Two options whose mean confidences, 31/32 and 1, are a sixteenth
    apart at most. *)
Definition close_means : ConsensusEngine :=
  cast_votes (new_engine SIMPLE_MAJORITY)
    [("a", "A", 1, ""); ("b", "A", 15 # 16, ""); ("c", "B", 1, "")]%Q.

(** The mean confidence [handle_tie] computes for [opt]: the builtin sum of
    the confidences of its votes over their number, or over 1 when it has
    none. *)
Definition computed_mean (R : Rounding) (vs : list Vote) (opt : string) : Q :=
  rnd R (fsum R (map confidence (votes_for_option opt vs)) /
         inject_Z (Z.max 1 (vote_count vs opt)))%Q.
End ConsensusSpec.

Module SwarmSpec.
Import Swarm.

(** [k] calls of [run_iteration] in a row. *)
Fixpoint iterate (k : nat) (s : SwarmIntelligence) : result SwarmIntelligence :=
  match k with
  | O => Ok s
  | S k' => do r <- run_iteration s; iterate k' (snd r)
  end.


(** [k] deposits of [v] at [loc] in a row, with no evaporation between. *)
Fixpoint deposit_times (k : nat) (env : odict Pheromone) (loc : string) (v : Q)
    : odict Pheromone :=
  match k with
  | O => env
  | S k' => deposit (deposit_times k' env loc v) loc v
  end.

(** The pheromone value the map holds for [loc], 0 when it has none. *)
Definition pheromone_at (env : odict Pheromone) (loc : string) : Q :=
  default 0%Q (value <$> dict_get loc env).

(** Where an agent heads for, given the snapshot of the map taken at the
    start of the iteration: with an empty snapshot it stays, else it goes to
    the first location of maximal value. *)
Definition target (env : odict Pheromone) (a : SwarmAgent) : string :=
  match dict_keys env with
  | [] => position a
  | loc :: locs => max_from (pheromone_at env) loc locs
  end.






(** Two agents standing on different locations, and no pheromone yet. *)
Definition scattered_swarm : SwarmIntelligence :=
  {| agents := [new_agent "agent_0" "a"; new_agent "agent_1" "b"];
     environment_pheromones := [];
     decay_rate := 1 # 10;
     timestep := 0 |}.

(** Six agents on two locations: the convergence measure is 1/5, the
    bound [1 - 0.8] itself when computed exactly. *)
Definition six_on_two : SwarmIntelligence :=
  {| agents := [new_agent "agent_0" "a"; new_agent "agent_1" "a";
                new_agent "agent_2" "a"; new_agent "agent_3" "b";
                new_agent "agent_4" "b"; new_agent "agent_5" "b"];
     environment_pheromones := [];
     decay_rate := 1 # 10;
     timestep := 0 |}.
End SwarmSpec.

Module PipelineSpec.
Import Pipeline.
Section WithValue.
Context {Value : Type}.

(** The ways a stage can stop the run on data [mid]: its input schema
    rejects [mid], or it executes to [None], or its output schema rejects
    what it produced. *)
Definition stage_aborts (stage : PipelineStage Value) (mid : gmap string Value) : Prop :=
  validate (input_schema stage) mid = false \/
  (validate (input_schema stage) mid = true /\ stage_execute stage mid = None) \/
  (exists out, validate (input_schema stage) mid = true /\
               stage_execute stage mid = Some out /\
               validate (output_schema stage) out = false).
End WithValue.
End PipelineSpec.

Module PipelineExamples.
Import Pipeline.

Definition needs (fields : list string) : SchemaValidation :=
  {| required_fields := fields; optional_fields := None |}.

(** Adds the field "y". *)
Definition load_stage : PipelineStage Z :=
  {| name := "load"; input_schema := needs ["x"]; output_schema := needs ["y"];
     stage_execute := fun d => Some (<["y" := 1%Z]> d) |}.

(** Promises the field "z" and does not produce it. *)
Definition check_stage : PipelineStage Z :=
  {| name := "check"; input_schema := needs ["y"]; output_schema := needs ["z"];
     stage_execute := fun d => Some d |}.

Definition store_stage : PipelineStage Z :=
  {| name := "store"; input_schema := needs ["z"]; output_schema := needs ["z"];
     stage_execute := fun d => Some d |}.

Definition example_pipeline : PipelineOrchestrator Z :=
  add_stage (add_stage (add_stage (new_pipeline "Pipeline") load_stage) check_stage)
            store_stage.

Definition example_payload : gmap string Z := {[ "x" := 0%Z ]}.
End PipelineExamples.

Module SupervisorSpec.
Import Supervisor.
Section WithValue.
Context {Value : Type}.

(** The workers [select_worker] chooses among: all of them when the
    tag is [None] or the empty string, else those whose expertise is the
    tag, in registry order. *)
Definition eligible (s : SupervisorAgent Value) (e : option string)
    : list WorkerAgent :=
  match e with
  | Some tag =>
      if String.eqb tag "" then dict_values (workers s)
      else List.filter (fun w => bool_decide (expertise w = Some tag))
                       (dict_values (workers s))
  | None => dict_values (workers s)
  end.

(** The registry is a dictionary: no key occurs twice. *)
Definition registry_wf (s : SupervisorAgent Value) : Prop :=
  List.NoDup (dict_keys (workers s)).

(** The task registry holds exactly the ids [task_0 .. task_(n-1)], [n]
    being its size. *)
Definition tasks_wf (s : SupervisorAgent Value) : Prop :=
  forall key : string,
    is_Some (tasks s !! key) <->
    exists i : Z, (0 <= i < Z.of_nat (size (tasks s)))%Z /\
                  key = "task_" +:+ pretty i.

(** The supervisor as [delegate_task] leaves it. *)
Definition after_delegation (s : SupervisorAgent Value) (task_description : string)
    (e : option string) (behaviour : Z -> Outcome Value) : SupervisorAgent Value :=
  snd (fst (delegate_task s task_description e behaviour)).
End WithValue.

(** A worker that times out once and then answers, and one that times out
    once and then breaks. *)
Definition flaky : Z -> Outcome Z :=
  fun attempt => if (attempt =? 0)%Z then TimesOut else Returns (Some 42%Z).


(** One registered worker, expert in "python". *)
Definition example_supervisor : SupervisorAgent Z :=
  register_worker (new_supervisor "ProductionSupervisor" 3 30)
                  (new_worker "w1" (Some "python")).

(** Four registered workers with a history: "w1" failed one task of two,
    "w2" and "w3" never failed, all three expert in "python"; "w4" is
    expert in "rust". *)
Definition team_supervisor : SupervisorAgent Z :=
  register_worker
    (register_worker
       (register_worker
          (register_worker (new_supervisor "ProductionSupervisor" 3 30)
             {| name := "w1"; expertise := Some "python";
                completed_tasks := 1; failed_tasks := 1 |})
          {| name := "w2"; expertise := Some "python";
             completed_tasks := 3; failed_tasks := 0 |})
       {| name := "w3"; expertise := Some "python";
          completed_tasks := 0; failed_tasks := 0 |})
    {| name := "w4"; expertise := Some "rust";
       completed_tasks := 2; failed_tasks := 0 |}.

(** Two workers whose loads, 3/8 and 1/3, are a sixteenth apart at most. *)
Definition close_loads : SupervisorAgent Z :=
  register_worker
    (register_worker (new_supervisor "ProductionSupervisor" 3 30)
       {| name := "w1"; expertise := None; completed_tasks := 5; failed_tasks := 3 |})
    {| name := "w2"; expertise := None; completed_tasks := 2; failed_tasks := 1 |}.
End SupervisorSpec.

(** * Properties *)

(** ** Comparison, clamping and extremum lemmas *)

Lemma Qltb_true (a b : Q) : Qltb a b = true <-> (a < b)%Q.
Proof.
  unfold Qltb. rewrite Qlt_alt.
  destruct (a ?= b)%Q; split; intros H; try reflexivity; discriminate H.
Qed.

Lemma Qltb_false (a b : Q) : Qltb a b = false <-> (b <= a)%Q.
Proof.
  split; intros H.
  - destruct (Qlt_le_dec a b) as [L | L]; [ | exact L].
    apply Qltb_true in L. congruence.
  - destruct (Qltb a b) eqn:E; [ | reflexivity].
    apply Qltb_true in E. lra.
Qed.

Ltac case_Qltb :=
  match goal with
  | |- context [Qltb ?a ?b] =>
      let E := fresh "E" in
      destruct (Qltb a b) eqn:E;
      [apply Qltb_true in E | apply Qltb_false in E]
  end.

Lemma fmin_le_l (a b : Q) : (fmin a b <= a)%Q.
Proof. unfold fmin. case_Qltb; lra. Qed.


Lemma fmax_ge_l (a b : Q) : (a <= fmax a b)%Q.
Proof. unfold fmax. case_Qltb; lra. Qed.

Lemma fmax_lub (a b c : Q) : (a <= c)%Q -> (b <= c)%Q -> (fmax a b <= c)%Q.
Proof. unfold fmax. case_Qltb; lra. Qed.

Lemma truediv_ok (a b : Q) : ~ (b == 0)%Q -> truediv a b = Ok (a / b)%Q.
Proof.
  intros H. unfold truediv.
  destruct (Qeq_bool b 0) eqn:E; [ | reflexivity].
  apply Qeq_bool_eq in E. contradiction.
Qed.

Lemma truediv_zero (a b : Q) : (b == 0)%Q -> truediv a b = Raise ZeroDivisionError.
Proof.
  intros H. unfold truediv. apply Qeq_eq_bool in H. rewrite H. reflexivity.
Qed.

Section ExtremumFacts.
Context {A : Type} (key : A -> Q).

(** The pass either keeps the initial best, which then bounds the whole
    list, or settles on a later element that strictly beats everything
    before it and is matched at most by what follows. *)
Lemma max_from_first (xs : list A) : forall best,
  (max_from key best xs = best /\
   Forall (fun x => (key x <= key best)%Q) xs) \/
  (exists pre post,
      xs = pre ++ max_from key best xs :: post /\
      (key best < key (max_from key best xs))%Q /\
      Forall (fun x => (key x < key (max_from key best xs))%Q) pre /\
      Forall (fun x => (key x <= key (max_from key best xs))%Q) post).
Proof.
  induction xs as [ | x xs IH]; intros best; simpl.
  - left. split; [reflexivity | constructor].
  - destruct (Qltb (key best) (key x)) eqn:E.
    + apply Qltb_true in E. right.
      destruct (IH x) as [[Hb Hall] | (pre & post & Hx & Hlt & Hpre & Hpost)].
      * exists [], xs. rewrite Hb. simpl. repeat split; auto.
      * exists (x :: pre), post. repeat split.
        -- simpl. f_equal. exact Hx.
        -- lra.
        -- constructor; assumption.
        -- assumption.
    + apply Qltb_false in E.
      destruct (IH best) as [[Hb Hall] | (pre & post & Hx & Hlt & Hpre & Hpost)].
      * left. split; [exact Hb | constructor; assumption].
      * right. exists (x :: pre), post. repeat split.
        -- simpl. f_equal. exact Hx.
        -- assumption.
        -- constructor; [lra | assumption].
        -- assumption.
Qed.

(** [max_by] returns the first element of maximal key. *)
Lemma max_by_first (xs : list A) (b : A) :
  max_by key xs = Ok b ->
  exists pre post,
    xs = pre ++ b :: post /\
    Forall (fun x => (key x < key b)%Q) pre /\
    Forall (fun x => (key x <= key b)%Q) post.
Proof.
  destruct xs as [ | x xs]; simpl; intros H; [discriminate | ].
  injection H as <-.
  destruct (max_from_first xs x) as [[Hb Hall] | (pre & post & Hx & Hlt & Hpre & Hpost)].
  - exists [], xs. rewrite Hb. simpl. repeat split; auto.
  - exists (x :: pre), post. repeat split.
    + simpl. f_equal. exact Hx.
    + constructor; assumption.
    + assumption.
Qed.

Lemma max_by_nonempty (x : A) (xs : list A) :
  max_by key (x :: xs) = Ok (max_from key x xs).
Proof. reflexivity. Qed.
End ExtremumFacts.

(** [min] is [max] for the opposite key. *)
Lemma min_from_opp {A : Type} (key : A -> Q) (xs : list A) : forall best,
  min_from key best xs = max_from (fun x => (- key x)%Q) best xs.
Proof.
  induction xs as [ | x xs IH]; intros best; simpl; [reflexivity | ].
  assert (Qltb (key x) (key best) = Qltb (- key best) (- key x)) as ->.
  { destruct (Qltb (- key best) (- key x)) eqn:E.
    - apply Qltb_true in E. apply Qltb_true. lra.
    - apply Qltb_false in E. apply Qltb_false. lra. }
  apply IH.
Qed.

(** [min_by] returns the first element of minimal key. *)
Lemma min_by_first {A : Type} (key : A -> Q) (xs : list A) (b : A) :
  min_by key xs = Ok b ->
  exists pre post,
    xs = pre ++ b :: post /\
    Forall (fun x => (key b < key x)%Q) pre /\
    Forall (fun x => (key b <= key x)%Q) post.
Proof.
  intros H.
  assert (max_by (fun x => (- key x)%Q) xs = Ok b) as Hm.
  { destruct xs as [ | x xs]; simpl in *; [discriminate | ].
    rewrite <- min_from_opp. exact H. }
  apply max_by_first in Hm as (pre & post & Hx & Hpre & Hpost).
  exists pre, post. repeat split; [exact Hx | | ].
  - eapply Forall_impl; [exact Hpre | ]. simpl. intros a Ha. lra.
  - eapply Forall_impl; [exact Hpost | ]. simpl. intros a Ha. lra.
Qed.

(** ** Ordered dictionaries *)

Section OrderedDictFacts.
Context {V : Type}.
Implicit Types (d : odict V) (k : string).

Lemma dict_get_alter_eq f k d :
  dict_get k (dict_alter f k d) = f <$> dict_get k d.
Proof.
  induction d as [ | [k' v'] d IH]; simpl; [reflexivity | ].
  destruct (String.eqb k k') eqn:E; simpl; rewrite E; [reflexivity | exact IH].
Qed.

Lemma dict_get_alter_ne f k k' d :
  k <> k' -> dict_get k' (dict_alter f k d) = dict_get k' d.
Proof.
  intros Hne. induction d as [ | [k0 v0] d IH]; simpl; [reflexivity | ].
  destruct (String.eqb k k0) eqn:E; simpl.
  - apply String.eqb_eq in E. subst k0.
    destruct (String.eqb k' k) eqn:E2; [ | reflexivity].
    apply String.eqb_eq in E2. congruence.
  - rewrite IH. reflexivity.
Qed.

Lemma dict_get_set_eq k v d : dict_get k (dict_set k v d) = Some v.
Proof.
  induction d as [ | [k' v'] d IH]; simpl.
  - rewrite String.eqb_refl. reflexivity.
  - destruct (String.eqb k k') eqn:E; simpl.
    + rewrite String.eqb_refl. reflexivity.
    + rewrite E. exact IH.
Qed.

Lemma dict_keys_alter f k d : dict_keys (dict_alter f k d) = dict_keys d.
Proof.
  induction d as [ | [k' v'] d IH]; simpl; [reflexivity | ].
  destruct (String.eqb k k'); simpl; [reflexivity | ].
  f_equal. exact IH.
Qed.

Lemma dict_set_fresh k v d : dict_mem k d = false -> dict_set k v d = d ++ [(k, v)].
Proof.
  unfold dict_mem. induction d as [ | [k' v'] d IH]; simpl; [reflexivity | ].
  destruct (String.eqb k k') eqn:E; [discriminate | ].
  intros H. f_equal. apply IH. exact H.
Qed.

Lemma dict_mem_keys k d : dict_mem k d = existsb (String.eqb k) (dict_keys d).
Proof.
  unfold dict_mem. induction d as [ | [k' v'] d IH]; simpl; [reflexivity | ].
  destruct (String.eqb k k'); simpl; [reflexivity | exact IH].
Qed.


End OrderedDictFacts.

Lemma fold_left_snoc_map {A B : Type} (f : A -> B) (xs : list A) : forall acc,
  fold_left (fun acc x => acc ++ [f x]) xs acc = acc ++ map f xs.
Proof.
  induction xs as [ | x xs IH]; intros acc; simpl.
  - rewrite app_nil_r. reflexivity.
  - rewrite IH, <- app_assoc. reflexivity.
Qed.

(** ** Consensus: stored confidences *)

Section ConsensusClamp.
Import Consensus ConsensusSpec.

Lemma clamp01_in_unit (c : Q) : in_unit (clamp01 c).
Proof.
  unfold in_unit, clamp01. split.
  - apply fmax_ge_l.
  - apply fmax_lub; [lra | apply fmin_le_l].
Qed.

Lemma add_vote_in_unit e agent opt c why :
  Forall (fun v => in_unit (confidence v)) (votes e) ->
  Forall (fun v => in_unit (confidence v)) (votes (add_vote e agent opt c why)).
Proof.
  intros H. unfold add_vote. simpl. apply Forall_app. split; [exact H | ].
  repeat constructor; simpl; apply clamp01_in_unit.
Qed.

Lemma cast_votes_in_unit calls : forall e,
  Forall (fun v => in_unit (confidence v)) (votes e) ->
  Forall (fun v => in_unit (confidence v)) (votes (cast_votes e calls)).
Proof.
  induction calls as [ | [[[agent opt] c] why] calls IH]; intros e He; simpl.
  - exact He.
  - apply IH. apply add_vote_in_unit. exact He.
Qed.
End ConsensusClamp.

(** ** Swarm: stored pheromone values *)

Section SwarmValues.
Import Swarm SwarmSpec.

Lemma deposit_existing env loc v p :
  dict_get loc env = Some p ->
  dict_get loc (deposit env loc v) = Some (set_value (fmin 1 (value p + v)) p).
Proof.
  intros H. unfold deposit, dict_mem. rewrite H.
  rewrite dict_get_alter_eq, H. reflexivity.
Qed.

Lemma deposit_fresh env loc v :
  dict_get loc env = None ->
  dict_get loc (deposit env loc v) = Some {| location := loc; value := v; age := 0 |}.
Proof.
  intros H. unfold deposit, dict_mem. rewrite H. apply dict_get_set_eq.
Qed.







End SwarmValues.

(** ** Debate: rounds and stored confidences *)

Section DebateRounds.
Import Debate.

Lemma run_debate_rounds d topic_ pos :
  rounds (snd (run_debate d topic_ pos)) =
  map (make_round (scoring_strategy d) pos) (py_range 1 (num_rounds d + 1)).
Proof.
  unfold run_debate. simpl. rewrite fold_left_snoc_map. reflexivity.
Qed.



End DebateRounds.

(** ** The clamping law *)

Section ClampingLaw.
Import Consensus ConsensusSpec Debate Swarm SwarmSpec.








(** The first deposit at a location stores the value as given, with no
    cap, while every later deposit there is capped at 1. *)
Lemma first_deposit_unclamped :
  dict_get "x" (deposit [] "x" (5 # 1)) =
  Some {| location := "x"; value := 5 # 1; age := 0 |}.
Proof. reflexivity. Qed.
End ClampingLaw.

(** ** Consensus: the weighted tally *)

Section MapDict.
Context {V : Type}.

Lemma existsb_eqb_In (k : string) (l : list string) :
  existsb (String.eqb k) l = true <-> In k l.
Proof.
  rewrite existsb_exists. split.
  - intros (x & Hx & E). apply String.eqb_eq in E. subst. exact Hx.
  - intros H. exists k. split; [exact H | apply String.eqb_refl].
Qed.

Lemma existsb_eqb_notin (k : string) (l : list string) :
  existsb (String.eqb k) l = false <-> ~ In k l.
Proof.
  rewrite <- existsb_eqb_In. destruct (existsb (String.eqb k) l); split; intros H;
    try reflexivity; try discriminate; try (intros C; discriminate C).
  exfalso. apply H. reflexivity.
Qed.

Lemma dict_keys_tabulate (g : string -> V) (l : list string) :
  dict_keys (map (fun o => (o, g o)) l) = l.
Proof.
  unfold dict_keys. rewrite map_map. simpl. apply map_id.
Qed.

Lemma dict_values_tabulate (g : string -> V) (l : list string) :
  dict_values (map (fun o => (o, g o)) l) = map g l.
Proof.
  unfold dict_values. rewrite map_map. reflexivity.
Qed.

Lemma dict_get_tabulate (g : string -> V) (l : list string) (k : string) :
  In k l -> dict_get k (map (fun o => (o, g o)) l) = Some (g k).
Proof.
  induction l as [ | o l IH]; simpl; [intros [] | ].
  intros H. destruct (String.eqb k o) eqn:E.
  - apply String.eqb_eq in E. subst. reflexivity.
  - apply IH. destruct H as [-> | H]; [ | exact H].
    rewrite String.eqb_refl in E. discriminate.
Qed.

Lemma dict_alter_absent (f : V -> V) (k : string) (d : odict V) :
  ~ In k (dict_keys d) -> dict_alter f k d = d.
Proof.
  induction d as [ | [k' v'] d IH]; simpl; [reflexivity | ].
  intros H. destruct (String.eqb k k') eqn:E.
  - apply String.eqb_eq in E. subst. exfalso. apply H. left. reflexivity.
  - f_equal. apply IH. intros C. apply H. right. exact C.
Qed.

Lemma dict_alter_snoc (f : V -> V) (k : string) (v : V) (d : odict V) :
  ~ In k (dict_keys d) -> dict_alter f k (d ++ [(k, v)]) = d ++ [(k, f v)].
Proof.
  induction d as [ | [k' v'] d IH]; simpl.
  - rewrite String.eqb_refl. reflexivity.
  - intros H. destruct (String.eqb k k') eqn:E.
    + apply String.eqb_eq in E. subst. exfalso. apply H. left. reflexivity.
    + f_equal. apply IH. intros C. apply H. right. exact C.
Qed.

(** Altering one key of a table given by a function on distinct keys. *)
Lemma dict_alter_tabulate (f : V -> V) (g : string -> V) (k : string) (l : list string) :
  List.NoDup l ->
  dict_alter f k (map (fun o => (o, g o)) l) =
  map (fun o => (o, if String.eqb k o then f (g o) else g o)) l.
Proof.
  induction 1 as [ | o l Hnotin Hnd IH]; simpl; [reflexivity | ].
  destruct (String.eqb k o) eqn:E.
  - apply String.eqb_eq in E. subst o. f_equal.
    apply map_ext_in. intros o Ho.
    destruct (String.eqb k o) eqn:E; [ | reflexivity].
    apply String.eqb_eq in E. subst. contradiction.
  - f_equal. exact IH.
Qed.
End MapDict.

Lemma py_sum_snoc (xs : list Q) (c : Q) : py_sum (xs ++ [c]) = (py_sum xs + c)%Q.
Proof. unfold py_sum. rewrite fold_left_app. reflexivity. Qed.

Lemma rmap_list_ok {A B : Type} (f : A -> result B) (g : A -> B) (l : list A) :
  (forall x, In x l -> f x = Ok (g x)) -> rmap_list f l = Ok (map g l).
Proof.
  induction l as [ | x l IH]; simpl; intros H; [reflexivity | ].
  rewrite (H x (or_introl eq_refl)). simpl.
  rewrite IH; [reflexivity | ]. intros y Hy. apply H. right. exact Hy.
Qed.

Section WeightedTally.
Import Consensus ConsensusSpec.

Lemma options_of_snoc vs v :
  options_of (vs ++ [v]) =
  if existsb (String.eqb (choice v)) (options_of vs) then options_of vs
  else options_of vs ++ [choice v].
Proof. unfold options_of. rewrite fold_left_app. reflexivity. Qed.

Lemma options_of_NoDup vs : List.NoDup (options_of vs).
Proof.
  induction vs as [ | v vs IH] using rev_ind; [constructor | ].
  rewrite options_of_snoc.
  destruct (existsb (String.eqb (choice v)) (options_of vs)) eqn:E; [exact IH | ].
  apply existsb_eqb_notin in E.
  apply NoDup_ListNoDup, NoDup_app. repeat split.
  - apply NoDup_ListNoDup. exact IH.
  - intros x Hx Hx'. apply list_elem_of_In in Hx.
    apply list_elem_of_singleton in Hx'. subst. contradiction.
  - apply NoDup_singleton.
Qed.

Lemma options_of_In vs o :
  In o (options_of vs) <-> exists v, In v vs /\ choice v = o.
Proof.
  induction vs as [ | v vs IH] using rev_ind.
  - simpl. split; [intros [] | intros (v & [] & _)].
  - rewrite options_of_snoc.
    destruct (existsb (String.eqb (choice v)) (options_of vs)) eqn:E.
    + apply existsb_eqb_In in E. rewrite IH. split.
      * intros (w & Hw & Hc). exists w. split; [ | exact Hc].
        apply in_or_app. left. exact Hw.
      * intros (w & Hw & Hc). apply in_app_or in Hw as [Hw | [<- | []]].
        -- exists w. auto.
        -- apply IH. subst o. exact E.
    + rewrite in_app_iff, IH. simpl. split.
      * intros [(w & Hw & Hc) | [<- | []]].
        -- exists w. split; [apply in_or_app; left; exact Hw | exact Hc].
        -- exists v. split; [apply in_or_app; right; left; reflexivity | reflexivity].
      * intros (w & Hw & Hc). apply in_app_or in Hw as [Hw | [<- | []]].
        -- left. exists w. auto.
        -- right. left. exact Hc.
Qed.

Lemma votes_for_option_snoc vs v o :
  votes_for_option o (vs ++ [v]) =
  if String.eqb o (choice v) then votes_for_option o vs ++ [v]
  else votes_for_option o vs.
Proof.
  unfold votes_for_option. rewrite List.filter_app. simpl.
  destruct (String.eqb o (choice v)); [reflexivity | apply app_nil_r].
Qed.

Lemma votes_for_option_absent vs o :
  ~ In o (options_of vs) -> votes_for_option o vs = [].
Proof.
  intros H. unfold votes_for_option.
  destruct (List.filter (fun v => String.eqb o (choice v)) vs) as [ | w ws] eqn:E;
    [reflexivity | ].
  exfalso. apply H. apply options_of_In.
  assert (In w (List.filter (fun v => String.eqb o (choice v)) vs)) as Hw
    by (rewrite E; left; reflexivity).
  apply List.filter_In in Hw as [Hw Hc]. apply String.eqb_eq in Hc.
  exists w. auto.
Qed.

Lemma sum_conf_snoc vs v o :
  sum_conf (vs ++ [v]) o =
  if String.eqb (choice v) o then (sum_conf vs o + confidence v)%Q else sum_conf vs o.
Proof.
  unfold sum_conf. rewrite votes_for_option_snoc, String.eqb_sym.
  destruct (String.eqb (choice v) o); [ | reflexivity].
  rewrite map_app. simpl. apply py_sum_snoc.
Qed.

Lemma vote_count_snoc vs v o :
  vote_count (vs ++ [v]) o =
  if String.eqb (choice v) o then (vote_count vs o + 1)%Z else vote_count vs o.
Proof.
  unfold vote_count. rewrite votes_for_option_snoc, String.eqb_sym.
  destruct (String.eqb (choice v) o); [ | reflexivity].
  rewrite length_app. simpl. lia.
Qed.

(** The two tables the loop builds hold, for each option in order of
    first appearance, its summed confidence and its number of votes. *)
Lemma tally_tables vs :
  tally vs =
  (map (fun o => (o, sum_conf vs o)) (options_of vs),
   map (fun o => (o, vote_count vs o)) (options_of vs)).
Proof.
  induction vs as [ | v vs IH] using rev_ind; [reflexivity | ].
  unfold tally in *. rewrite fold_left_app. simpl. rewrite IH.
  unfold tally_step. rewrite dict_mem_keys, dict_keys_tabulate, options_of_snoc.
  pose proof (options_of_NoDup vs) as Hnd.
  destruct (existsb (String.eqb (choice v)) (options_of vs)) eqn:E.
  - rewrite !dict_alter_tabulate by exact Hnd. f_equal.
    + apply map_ext. intros o. rewrite sum_conf_snoc. reflexivity.
    + apply map_ext. intros o. rewrite vote_count_snoc. reflexivity.
  - apply existsb_eqb_notin in E.
    assert (forall (V : Type) (g : string -> V),
               dict_mem (choice v) (map (fun o => (o, g o)) (options_of vs)) = false)
      as Hfresh.
    { intros V g. rewrite dict_mem_keys, dict_keys_tabulate.
      apply existsb_eqb_notin. exact E. }
    rewrite !dict_set_fresh by apply Hfresh.
    rewrite !dict_alter_snoc by (rewrite dict_keys_tabulate; exact E).
    rewrite !map_app. simpl.
    rewrite sum_conf_snoc, vote_count_snoc, String.eqb_refl.
    unfold sum_conf at 3, vote_count at 3.
    rewrite (votes_for_option_absent vs (choice v) E). simpl.
    f_equal; f_equal; apply map_ext_in; intros o Ho.
    + rewrite sum_conf_snoc.
      destruct (String.eqb (choice v) o) eqn:Eo; [ | reflexivity].
      apply String.eqb_eq in Eo. subst. contradiction.
    + rewrite vote_count_snoc.
      destruct (String.eqb (choice v) o) eqn:Eo; [ | reflexivity].
      apply String.eqb_eq in Eo. subst. contradiction.
Qed.

Lemma vote_count_pos vs o : In o (options_of vs) -> (1 <= vote_count vs o)%Z.
Proof.
  intros H. apply options_of_In in H as (v & Hv & Hc).
  unfold vote_count, votes_for_option.
  assert (In v (List.filter (fun v => String.eqb o (choice v)) vs)) as Hin.
  { apply List.filter_In. split; [exact Hv | ]. subst. apply String.eqb_refl. }
  destruct (List.filter (fun v => String.eqb o (choice v)) vs); [destruct Hin | ].
  simpl length. lia.
Qed.

Lemma options_of_nonempty vs : vs <> [] -> options_of vs <> [].
Proof.
  destruct vs as [ | v vs]; [contradiction | ]. intros _ H.
  assert (In (choice v) (options_of (v :: vs))) as Hin.
  { apply options_of_In. exists v. split; [left | ]; reflexivity. }
  rewrite H in Hin. destruct Hin.
Qed.
End WeightedTally.

(** ** Rounded arithmetic *)

Lemma rnd_proper (R : Rounding) (a b : Q) : (a == b)%Q -> (rnd R a == rnd R b)%Q.
Proof. intros H. apply Qle_antisym; apply rnd_mono; rewrite H; apply Qle_refl. Qed.

Lemma rnd_nonneg (R : Rounding) (a : Q) : (0 <= a)%Q -> (0 <= rnd R a)%Q.
Proof. intros H. rewrite <- (rnd_zero R). apply rnd_mono. exact H. Qed.

Lemma rnd_le_one (R : Rounding) (a : Q) : (a <= 1)%Q -> (rnd R a <= 1)%Q.
Proof. intros H. rewrite <- (rnd_one R). apply rnd_mono. exact H. Qed.

Lemma fl_div_ok (R : Rounding) (a b : Q) :
  ~ (b == 0)%Q -> fl_div R a b = Ok (rnd R (a / b)%Q).
Proof.
  intros H. unfold fl_div. destruct (Qeq_bool b 0) eqn:E; [ | reflexivity].
  apply Qeq_bool_iff in E. contradiction.
Qed.

Lemma fl_div_zero (R : Rounding) (a b : Q) :
  (b == 0)%Q -> fl_div R a b = Raise ZeroDivisionError.
Proof.
  intros H. unfold fl_div. apply Qeq_bool_iff in H. rewrite H. reflexivity.
Qed.

Section ExactArithmetic.
Import Consensus ConsensusSpec Supervisor SupervisorSpec Swarm SwarmSpec.

(** With the identity for rounding the rounded engines are the exact
    ones. *)
Lemma exact_calculate_consensus (e : ConsensusEngine) :
  ConsensusR.calculate_consensus exact e = calculate_consensus e.
Proof. reflexivity. Qed.

Lemma exact_select_worker {Value : Type} (s : SupervisorAgent Value) (e : option string) :
  SupervisorR.select_worker exact s e = select_worker s e.
Proof. reflexivity. Qed.

Lemma exact_is_converged (s : SwarmIntelligence) (t : Q) :
  SwarmR.is_converged exact s t = is_converged s t.
Proof. reflexivity. Qed.

Lemma exact_update_agents (pheromone_map : odict Q) (todo : list SwarmAgent) :
  forall env : odict Pheromone,
    SwarmR.update_agents exact pheromone_map todo env =
    update_agents pheromone_map todo env.
Proof.
  induction todo as [ | a todo IH]; intros env; [reflexivity | ].
  cbn [SwarmR.update_agents update_agents].
  destruct (decide_next_location (sense_pheromones a pheromone_map)) as [loc | err];
    [ | reflexivity].
  cbn [rbind]. rewrite IH. reflexivity.
Qed.

Lemma exact_run_iteration (s : SwarmIntelligence) :
  SwarmR.run_iteration exact s = run_iteration s.
Proof.
  unfold SwarmR.run_iteration, run_iteration, SwarmR.update_agent_positions,
    update_agent_positions.
  rewrite exact_update_agents. reflexivity.
Qed.

Lemma exact_swarm_optimization (s : SwarmIntelligence) (n : Z) :
  SwarmR.swarm_optimization exact s n = swarm_optimization s n.
Proof.
  unfold SwarmR.swarm_optimization, swarm_optimization.
  assert (forall fuel s0, SwarmR.optimize_loop exact fuel s0 = optimize_loop fuel s0)
    as Hloop.
  { induction fuel as [ | fuel IH]; intros s0; [reflexivity | ].
    cbn [SwarmR.optimize_loop optimize_loop].
    change (rnd exact (8 # 10)) with (8 # 10)%Q. rewrite exact_is_converged.
    destruct (is_converged s0 (8 # 10)); [reflexivity | ].
    rewrite exact_run_iteration.
    destruct (run_iteration s0) as [r | err]; [ | reflexivity].
    cbn [rbind]. apply IH. }
  rewrite Hloop. reflexivity.
Qed.

(** The arithmetic decides the outcome: in sixteenths the two means, the
    two loads, and the measure and its bound compare otherwise than they do
    exactly. *)
Lemma rounding_decides_the_tie :
  ConsensusR.handle_tie exact close_means ["A"; "B"] = Ok "B" /\
  ConsensusR.handle_tie sixteenths close_means ["A"; "B"] = Ok "A".
Proof. split; vm_compute; reflexivity. Qed.

Lemma rounding_decides_the_worker :
  (exists w, SupervisorR.select_worker exact close_loads None = Ok (Some w) /\
             name w = "w2") /\
  (exists w, SupervisorR.select_worker sixteenths close_loads None = Ok (Some w) /\
             name w = "w1").
Proof. split; eexists; split; vm_compute; reflexivity. Qed.

Lemma rounding_decides_convergence :
  SwarmR.is_converged exact six_on_two (rnd exact (8 # 10)) = true /\
  SwarmR.is_converged sixteenths six_on_two (rnd sixteenths (8 # 10)) = false /\
  (exists s', SwarmR.swarm_optimization exact six_on_two 100 = Ok ("a", s') /\
              timestep s' = 0%Z) /\
  (exists s', SwarmR.swarm_optimization sixteenths six_on_two 100 = Ok ("a", s') /\
              timestep s' = 2%Z).
Proof.
  split; [vm_compute; reflexivity | ]. split; [vm_compute; reflexivity | ].
  split; eexists; (split; [vm_compute; reflexivity | reflexivity]).
Qed.
End ExactArithmetic.

(** ** Consensus: the weighted tally over rounded additions *)

Section WeightedRounded.
Import Consensus ConsensusSpec.
Variable R : Rounding.

Lemma computed_sum_snoc vs v o :
  computed_sum R (vs ++ [v]) o =
  if String.eqb (choice v) o then rnd R (computed_sum R vs o + confidence v)%Q
  else computed_sum R vs o.
Proof.
  unfold computed_sum. rewrite votes_for_option_snoc, String.eqb_sym.
  destruct (String.eqb (choice v) o); [ | reflexivity].
  rewrite map_app, fold_left_app. reflexivity.
Qed.

(** The tables of the tally loop over rounded additions. *)
Lemma tally_tables_rounded vs :
  ConsensusR.tally R vs =
  (map (fun o => (o, computed_sum R vs o)) (options_of vs),
   map (fun o => (o, vote_count vs o)) (options_of vs)).
Proof.
  induction vs as [ | v vs IH] using rev_ind; [reflexivity | ].
  unfold ConsensusR.tally in *. rewrite fold_left_app. simpl. rewrite IH.
  unfold ConsensusR.tally_step.
  rewrite dict_mem_keys, dict_keys_tabulate, options_of_snoc.
  pose proof (options_of_NoDup vs) as Hnd.
  destruct (existsb (String.eqb (choice v)) (options_of vs)) eqn:E.
  - rewrite !dict_alter_tabulate by exact Hnd. f_equal.
    + apply map_ext. intros o. rewrite computed_sum_snoc. reflexivity.
    + apply map_ext. intros o. rewrite vote_count_snoc. reflexivity.
  - apply existsb_eqb_notin in E.
    assert (forall (V : Type) (g : string -> V),
               dict_mem (choice v) (map (fun o => (o, g o)) (options_of vs)) = false)
      as Hfresh.
    { intros V g. rewrite dict_mem_keys, dict_keys_tabulate.
      apply existsb_eqb_notin. exact E. }
    assert (computed_sum R vs (choice v) = 0%Q) as Hs0.
    { unfold computed_sum. rewrite (votes_for_option_absent vs (choice v) E).
      reflexivity. }
    assert (vote_count vs (choice v) = 0%Z) as Hc0.
    { unfold vote_count. rewrite (votes_for_option_absent vs (choice v) E).
      reflexivity. }
    rewrite !dict_set_fresh by apply Hfresh.
    rewrite !dict_alter_snoc by (rewrite dict_keys_tabulate; exact E).
    rewrite !map_app. simpl.
    rewrite computed_sum_snoc, vote_count_snoc, String.eqb_refl, Hs0, Hc0.
    f_equal; f_equal; apply map_ext_in; intros o Ho.
    + rewrite computed_sum_snoc.
      destruct (String.eqb (choice v) o) eqn:Eo; [ | reflexivity].
      apply String.eqb_eq in Eo. subst. contradiction.
    + rewrite vote_count_snoc.
      destruct (String.eqb (choice v) o) eqn:Eo; [ | reflexivity].
      apply String.eqb_eq in Eo. subst. contradiction.
Qed.

(** The weighted strategy over rounded arithmetic, on every non-empty vote
    log: the winner is the first option of maximal computed sum; when the
    computed total is not zero the reported confidence is the rounded
    quotient of the winner's sum by the total and the breakdown holds each
    option's rounded average; when the computed total is zero the division
    raises. *)
Lemma weighted_consensus_rounded (e : ConsensusEngine) :
  votes e <> [] ->
  exists best pre post,
    options_of (votes e) = pre ++ best :: post /\
    Forall (fun o => (computed_sum R (votes e) o < computed_sum R (votes e) best)%Q) pre /\
    Forall (fun o => (computed_sum R (votes e) o <= computed_sum R (votes e) best)%Q) post /\
    (~ (computed_total R (votes e) == 0)%Q ->
     ConsensusR._weighted_consensus R e =
       Ok (Weighted best
             (rnd R (computed_sum R (votes e) best / computed_total R (votes e)))%Q
             (map (fun o => (o, rnd R (computed_sum R (votes e) o /
                                       inject_Z (vote_count (votes e) o))%Q))
                  (options_of (votes e))))) /\
    ((computed_total R (votes e) == 0)%Q ->
     ConsensusR._weighted_consensus R e = Raise ZeroDivisionError).
Proof.
  intros Hne. unfold ConsensusR._weighted_consensus. rewrite tally_tables_rounded.
  cbv iota.
  pose proof (options_of_nonempty _ Hne) as Hopts.
  destruct (map (fun o => (o, computed_sum R (votes e) o)) (options_of (votes e)))
    as [ | kv tl] eqn:Etab.
  { destruct (options_of (votes e)); [contradiction | discriminate]. }
  cbv iota. rewrite <- Etab. clear Etab kv tl.
  set (vs := votes e) in *. set (opts := options_of vs) in *.
  assert (forall o, In o opts ->
            score_of (map (fun o => (o, computed_sum R vs o)) opts) o = computed_sum R vs o)
    as Hscore.
  { intros o Ho. unfold score_of. rewrite dict_get_tabulate by exact Ho. reflexivity. }
  assert (forall o, In o opts ->
            count_of (map (fun o => (o, vote_count vs o)) opts) o = vote_count vs o)
    as Hcount.
  { intros o Ho. unfold count_of. rewrite dict_get_tabulate by exact Ho. reflexivity. }
  rewrite dict_keys_tabulate, dict_values_tabulate.
  destruct opts as [ | o0 rest] eqn:Eopts; [contradiction | ].
  rewrite max_by_nonempty. rewrite <- Eopts in *.
  set (keyf := score_of (map (fun o => (o, computed_sum R vs o)) opts)) in *.
  assert (max_by keyf opts = Ok (max_from keyf o0 rest)) as Hmax
    by (rewrite Eopts; reflexivity).
  set (best := max_from keyf o0 rest) in *.
  apply max_by_first in Hmax as (pre & post & Hsplit & Hpre & Hpost).
  assert (In best opts) as Hbest.
  { rewrite Hsplit. apply in_or_app. right. left. reflexivity. }
  exists best, pre, post. simpl rbind.
  rewrite (Hscore best Hbest).
  change (fsum R (map (computed_sum R vs) opts)) with (computed_total R vs).
  split; [exact Hsplit | ]. split; [ | split; [ | split]].
  - apply Forall_forall. intros o Ho.
    rewrite Forall_forall in Hpre. specialize (Hpre o Ho).
    rewrite <- (Hscore o), <- (Hscore best Hbest); [exact Hpre | ].
    rewrite Hsplit. apply in_or_app. left. apply list_elem_of_In. exact Ho.
  - apply Forall_forall. intros o Ho.
    rewrite Forall_forall in Hpost. specialize (Hpost o Ho).
    rewrite <- (Hscore o), <- (Hscore best Hbest); [exact Hpost | ].
    rewrite Hsplit. apply in_or_app. right. right. apply list_elem_of_In. exact Ho.
  - intros Htot. rewrite fl_div_ok by exact Htot. simpl rbind.
    rewrite (rmap_list_ok _
               (fun o => (o, rnd R (computed_sum R vs o / inject_Z (vote_count vs o))%Q))).
    + reflexivity.
    + intros o Ho. rewrite (Hscore o Ho), (Hcount o Ho).
      rewrite fl_div_ok; [reflexivity | ].
      pose proof (vote_count_pos vs o Ho) as Hpos. intros Hz.
      assert (inject_Z 1 <= inject_Z (vote_count vs o))%Q as H1
        by (rewrite <- Zle_Qle; exact Hpos).
      change (inject_Z 1) with 1%Q in H1. rewrite Hz in H1. lra.
  - intros Htot. rewrite fl_div_zero by exact Htot. reflexivity.
Qed.
End WeightedRounded.

(** ** Consensus: the strategies *)

Section ConsensusStrategies.
Import Consensus ConsensusSpec.

Lemma weighted_consensus_result (e : ConsensusEngine) :
  votes e <> [] ->
  ~ (total_conf (votes e) == 0)%Q ->
  exists best pre post,
    _weighted_consensus e =
      Ok (Weighted best
            (sum_conf (votes e) best / total_conf (votes e))%Q
            (map (fun o => (o, (sum_conf (votes e) o /
                                inject_Z (vote_count (votes e) o))%Q))
                 (options_of (votes e)))) /\
    options_of (votes e) = pre ++ best :: post /\
    Forall (fun o => (sum_conf (votes e) o < sum_conf (votes e) best)%Q) pre /\
    Forall (fun o => (sum_conf (votes e) o <= sum_conf (votes e) best)%Q) post.
Proof.
  intros Hne Htot. unfold _weighted_consensus. rewrite tally_tables. cbv iota.
  pose proof (options_of_nonempty _ Hne) as Hopts.
  destruct (map (fun o => (o, sum_conf (votes e) o)) (options_of (votes e)))
    as [ | kv tl] eqn:Etab.
  { destruct (options_of (votes e)); [contradiction | discriminate]. }
  cbv iota. rewrite <- Etab. clear Etab kv tl.
  set (vs := votes e) in *. set (opts := options_of vs) in *.
  assert (forall o, In o opts ->
            score_of (map (fun o => (o, sum_conf vs o)) opts) o = sum_conf vs o)
    as Hscore.
  { intros o Ho. unfold score_of. rewrite dict_get_tabulate by exact Ho. reflexivity. }
  assert (forall o, In o opts ->
            count_of (map (fun o => (o, vote_count vs o)) opts) o = vote_count vs o)
    as Hcount.
  { intros o Ho. unfold count_of. rewrite dict_get_tabulate by exact Ho. reflexivity. }
  rewrite dict_keys_tabulate, dict_values_tabulate.
  destruct opts as [ | o0 rest] eqn:Eopts; [contradiction | ].
  rewrite max_by_nonempty. rewrite <- Eopts in *.
  set (keyf := score_of (map (fun o => (o, sum_conf vs o)) opts)) in *.
  assert (max_by keyf opts = Ok (max_from keyf o0 rest)) as Hmax
    by (rewrite Eopts; reflexivity).
  set (best := max_from keyf o0 rest) in *.
  apply max_by_first in Hmax as (pre & post & Hsplit & Hpre & Hpost).
  assert (In best opts) as Hbest.
  { rewrite Hsplit. apply in_or_app. right. left. reflexivity. }
  exists best, pre, post. simpl rbind.
  rewrite (Hscore best Hbest).
  change (py_sum (map (sum_conf vs) opts)) with (total_conf vs).
  rewrite truediv_ok by exact Htot. simpl rbind.
  rewrite (rmap_list_ok _
             (fun o => (o, (sum_conf vs o / inject_Z (vote_count vs o))%Q))).
  - simpl. repeat split; [exact Hsplit | | ].
    + apply Forall_forall. intros o Ho.
      rewrite Forall_forall in Hpre. specialize (Hpre o Ho).
      rewrite <- (Hscore o), <- (Hscore best Hbest); [exact Hpre | ].
      rewrite Hsplit. apply in_or_app. left. apply list_elem_of_In. exact Ho.
    + apply Forall_forall. intros o Ho.
      rewrite Forall_forall in Hpost. specialize (Hpost o Ho).
      rewrite <- (Hscore o), <- (Hscore best Hbest); [exact Hpost | ].
      rewrite Hsplit. apply in_or_app. right. right. apply list_elem_of_In. exact Ho.
  - intros o Ho. rewrite (Hscore o Ho), (Hcount o Ho).
    rewrite truediv_ok; [reflexivity | ].
    pose proof (vote_count_pos vs o Ho) as Hpos. intros Hz.
    assert (inject_Z 1 <= inject_Z (vote_count vs o))%Q as H1
      by (rewrite <- Zle_Qle; exact Hpos).
    change (inject_Z 1) with 1%Q in H1. rewrite Hz in H1. lra.
Qed.

(** C4.  The weighted strategy divides the winner's summed confidence by
    the total summed confidence without a guard.  On the vote log holding
    the single vote (A, 0.0), which is not empty, the total is zero whatever
    the rounding, and [calculate_consensus] raises [ZeroDivisionError]
    where the claim has it report the winner A and a confidence. *)
Theorem weighted_confidence_zero_total (R : Rounding) :
  votes zero_vote_engine <> [] /\
  strategy zero_vote_engine = WEIGHTED_CONFIDENCE /\
  options_of (votes zero_vote_engine) = ["A"] /\
  fst (ConsensusR.calculate_consensus R zero_vote_engine) = Raise ZeroDivisionError.
Proof.
  split; [discriminate | ]. split; [reflexivity | ]. split; [reflexivity | ].
  change (ConsensusR._weighted_consensus R zero_vote_engine = Raise ZeroDivisionError).
  destruct (weighted_consensus_rounded R zero_vote_engine)
    as (best & pre & post & _ & _ & _ & _ & Hzero); [discriminate | ].
  apply Hzero. unfold computed_total. apply fsum_zeros.
  repeat constructor.
  change (rnd R (0 + 0) == 0)%Q.
  eapply Qeq_trans; [ | apply (rnd_zero R)]. apply rnd_proper. reflexivity.
Qed.

(** The votes (A,0.9), (A,0.8), (B,0.6).  In every arithmetic the sum
    computed for A is at least the one computed for B, so A, the first
    option, wins; the confidence is the computed quotient of A's sum by the
    total.  With the ideal sums it is (0.9+0.8)/(0.9+0.8+0.6), and the
    breakdown is A: 0.85, B: 0.6. *)
Lemma weighted_example (R : Rounding) :
  (computed_sum R (votes example_engine) "B" <=
   computed_sum R (votes example_engine) "A")%Q /\
  (~ (computed_total R (votes example_engine) == 0)%Q ->
   exists breakdown,
     fst (ConsensusR.calculate_consensus R example_engine) =
       Ok (Weighted "A"
             (rnd R (computed_sum R (votes example_engine) "A" /
                     computed_total R (votes example_engine)))%Q
             breakdown) /\
     map fst breakdown = ["A"; "B"]) /\
  (exists c avg_a avg_b,
      fst (ConsensusR.calculate_consensus exact example_engine) =
        Ok (Weighted "A" c [("A", avg_a); ("B", avg_b)]) /\
      (c == ((9 # 10) + (8 # 10)) / ((9 # 10) + (8 # 10) + (6 # 10)))%Q /\
      (avg_a == ((9 # 10) + (8 # 10)) / 2)%Q /\
      (avg_b == 6 # 10)%Q).
Proof.
  assert (computed_sum R (votes example_engine) "B" <=
          computed_sum R (votes example_engine) "A")%Q as Hle.
  { change (rnd R (0 + clamp01 (6 # 10)) <=
            rnd R (rnd R (0 + clamp01 (9 # 10)) + clamp01 (8 # 10)))%Q.
    apply rnd_mono.
    assert (0 <= rnd R (0 + clamp01 (9 # 10)))%Q as H0.
    { apply rnd_nonneg. vm_compute. discriminate. }
    change (clamp01 (6 # 10)) with (6 # 10)%Q.
    change (clamp01 (8 # 10)) with (8 # 10)%Q. lra. }
  split; [exact Hle | ]. split.
  - intros Htot.
    destruct (weighted_consensus_rounded R example_engine)
      as (best & pre & post & Hsplit & Hpre & _ & Hok & _); [discriminate | ].
    change (options_of (votes example_engine)) with ["A"; "B"] in *.
    assert (best = "A") as ->.
    { destruct pre as [ | o pre]; [injection Hsplit as <- _; reflexivity | ].
      injection Hsplit as <- Hrest.
      destruct pre as [ | o' pre]; [ | destruct pre; discriminate Hrest].
      injection Hrest as <- _.
      apply Forall_inv in Hpre. exfalso. exact (Qlt_not_le _ _ Hpre Hle). }
    eexists. split.
    + change (fst (ConsensusR.calculate_consensus R example_engine))
        with (ConsensusR._weighted_consensus R example_engine).
      apply Hok. exact Htot.
    + reflexivity.
  - eexists _, _, _. split; [vm_compute; reflexivity | ].
    repeat split; reflexivity.
Qed.

(** With every confidence at zero the total is zero and the division
    raises. *)
Lemma weighted_zero_total_raises :
  fst (calculate_consensus
         (cast_votes (new_engine WEIGHTED_CONFIDENCE) [("Agent1", "A", 0%Q, "")])) =
  Raise ZeroDivisionError.
Proof. reflexivity. Qed.

(** C5.  Under [unanimous] with a non-empty vote log, the result has
    [unanimous] true exactly when every vote chose the first vote's option;
    the consensus is then that option, and is absent otherwise, so one
    differing vote gives unanimous false and no consensus. *)
Theorem unanimous_consensus (e : ConsensusEngine) (v0 : Vote) (rest : list Vote) :
  strategy e = UNANIMOUS ->
  votes e = v0 :: rest ->
  exists c u,
    fst (calculate_consensus e) = Ok (Unanimity c u) /\
    (u = true <-> Forall (fun v => choice v = choice v0) (votes e)) /\
    (u = true -> c = Some (choice v0)) /\
    (Exists (fun v => choice v <> choice v0) (votes e) -> u = false /\ c = None).
Proof.
  intros Hs Hv. unfold calculate_consensus, _unanimous_consensus. rewrite Hs, Hv.
  simpl fst.
  set (u := forallb (fun v => String.eqb (choice v) (choice v0)) (v0 :: rest)).
  assert (u = true <-> Forall (fun v => choice v = choice v0) (v0 :: rest)) as Hu.
  { unfold u. rewrite forallb_forall, Forall_forall. split; intros H v Hin.
    - apply String.eqb_eq, H, list_elem_of_In. exact Hin.
    - apply String.eqb_eq, H, list_elem_of_In. exact Hin. }
  exists (if u then Some (choice v0) else None), u.
  split; [reflexivity | ]. split; [exact Hu | ]. split.
  - intros ->. reflexivity.
  - intros Hex. destruct u; [ | split; reflexivity].
    exfalso. apply Exists_exists in Hex as (v & Hin & Hne).
    apply Hne. pose proof (proj1 Hu eq_refl) as Hall.
    rewrite Forall_forall in Hall. apply Hall. exact Hin.
Qed.

Lemma unanimous_consensus_witness :
  exists c u,
    fst (calculate_consensus
           (cast_votes (new_engine UNANIMOUS)
              [("Agent1", "X", 9 # 10, ""); ("Agent2", "Y", 8 # 10, "")]%Q)) =
      Ok (Unanimity c u) /\
    (u = true <->
     Forall (fun v => choice v = "X")
       (votes (cast_votes (new_engine UNANIMOUS)
                 [("Agent1", "X", 9 # 10, ""); ("Agent2", "Y", 8 # 10, "")]%Q))) /\
    (u = true -> c = Some "X") /\
    (Exists (fun v => choice v <> "X")
       (votes (cast_votes (new_engine UNANIMOUS)
                 [("Agent1", "X", 9 # 10, ""); ("Agent2", "Y", 8 # 10, "")]%Q)) ->
     u = false /\ c = None).
Proof.
  apply (unanimous_consensus
           (cast_votes (new_engine UNANIMOUS)
              [("Agent1", "X", 9 # 10, ""); ("Agent2", "Y", 8 # 10, "")]%Q)
           {| agent_name := "Agent1"; choice := "X";
              confidence := clamp01 (9 # 10); reasoning := "" |}
           [{| agent_name := "Agent2"; choice := "Y";
               confidence := clamp01 (8 # 10); reasoning := "" |}]).
  - reflexivity.
  - reflexivity.
Defined.
End ConsensusStrategies.

(** ** Debate: the reported result *)

Section DebateResult.
Import Debate.

Lemma last_map_nonempty {A B : Type} (f : A -> B) (l : list A) :
  l <> [] -> exists x, In x l /\ last (map f l) = Some (f x).
Proof.
  intros H. destruct (exists_last H) as (l' & x & ->).
  exists x. split; [apply in_or_app; right; left; reflexivity | ].
  rewrite map_app. simpl. apply last_snoc.
Qed.

Lemma py_range_from_one (n : Z) : py_range 1 (n + 1) = seqZ 1 n.
Proof. unfold py_range. f_equal. lia. Qed.

(** C7.  For [num_rounds = R >= 1], [run_debate] returns a result whose
    round list has exactly R entries, numbered 1..R in order, whose
    [avg_consensus_score] is the sum of those entries' consensus scores
    divided by R, and whose [consensus_reached] is true exactly when that
    mean exceeds 0.75. *)
Theorem run_debate_result (d : DebateOrchestrator) (topic_ pos : string) :
  (1 <= num_rounds d)%Z ->
  exists res,
    fst (run_debate d topic_ pos) = Ok res /\
    Z.of_nat (length (round_list res)) = num_rounds d /\
    total_rounds res = num_rounds d /\
    map fst (round_list res) = seqZ 1 (num_rounds d) /\
    avg_consensus_score res =
      (py_sum (map snd (round_list res)) / inject_Z (num_rounds d))%Q /\
    (consensus_reached res = true <-> (75 # 100 < avg_consensus_score res)%Q).
Proof.
  intros HR.
  pose proof (run_debate_rounds d topic_ pos) as Hrounds.
  rewrite py_range_from_one in Hrounds.
  unfold run_debate in *. simpl in Hrounds. simpl fst. unfold _generate_consensus.
  simpl rounds. rewrite Hrounds.
  set (mk := make_round (scoring_strategy d) pos).
  assert (Z.of_nat (length (map mk (seqZ 1 (num_rounds d)))) = num_rounds d) as Hlen.
  { rewrite length_map, length_seqZ. lia. }
  rewrite Hlen.
  rewrite truediv_ok.
  2:{ intros Hz.
      assert (inject_Z 1 <= inject_Z (num_rounds d))%Q as H1
        by (rewrite <- Zle_Qle; exact HR).
      change (inject_Z 1) with 1%Q in H1. rewrite Hz in H1. lra. }
  simpl rbind.
  destruct (last_map_nonempty mk (seqZ 1 (num_rounds d))) as (x & _ & ->).
  { intros H. apply (f_equal length) in H. rewrite length_seqZ in H.
    simpl in H. lia. }
  simpl. eexists. split; [reflexivity | ]. simpl.
  rewrite !length_map, length_seqZ, !map_map. simpl.
  repeat split; try apply Qltb_true.
  - lia.
  - apply map_id.
Qed.

Lemma run_debate_result_witness :
  exists res,
    fst (run_debate (new_debate 3 "entropy_reduction") "Test topic" "Test position")
      = Ok res /\
    Z.of_nat (length (round_list res)) = 3%Z /\
    total_rounds res = 3%Z /\
    map fst (round_list res) = seqZ 1 3 /\
    avg_consensus_score res = (py_sum (map snd (round_list res)) / inject_Z 3)%Q /\
    (consensus_reached res = true <-> (75 # 100 < avg_consensus_score res)%Q).
Proof.
  apply (run_debate_result (new_debate 3 "entropy_reduction")
           "Test topic" "Test position").
  simpl. lia.
Defined.

(** With no round to average, the mean divides by zero. *)
Lemma run_debate_zero_rounds :
  fst (run_debate (new_debate 0 "entropy_reduction") "t" "p") =
  Raise ZeroDivisionError.
Proof. reflexivity. Qed.
End DebateResult.

(** ** Pipeline *)

Section PipelineRuns.
Import Pipeline.
Context {Value : Type}.
Implicit Types (p : PipelineOrchestrator Value) (stage : PipelineStage Value).
Implicit Types (data : gmap string Value) (skip : list string).

(** A prefix of stages that all pass is run through, and the loop goes
    on from its output with its entries appended to the history. *)
Lemma run_stages_passes skip pre data out entries :
  passes skip pre data out entries ->
  forall rest history,
    run_stages (pre ++ rest) skip data history =
    run_stages rest skip out (history ++ entries).
Proof.
  induction 1 as [data | stage pre data out entries Hskip _ IH
                 | stage pre data mid out entries Hskip (Hin & Hex & Hout) _ IH];
    intros rest history; simpl.
  - rewrite app_nil_r. reflexivity.
  - rewrite Hskip. apply IH.
  - rewrite Hskip, Hin, Hex, Hout. simpl. rewrite IH, <- app_assoc. reflexivity.
Qed.

Lemma passes_names skip pre data out entries :
  passes skip pre data out entries ->
  map fst entries = map name (List.filter (fun s => negb (skipped skip s)) pre).
Proof.
  induction 1 as [ | stage pre data out entries Hskip _ IH
                 | stage pre data mid out entries Hskip _ _ IH]; simpl.
  - reflexivity.
  - rewrite Hskip. simpl. exact IH.
  - rewrite Hskip. simpl. f_equal. exact IH.
Qed.

(** C2.  When the stages before [stage] pass (those not skipped), and
    [stage], not skipped, validates its input and executes but its output
    fails the output schema, [execute] returns [None]; the trace is the
    previous history followed by one entry for each stage that passed, in
    execution order, their names being those of the non-skipped stages
    before [stage]; on an orchestrator with an empty history and distinct
    stage names, neither [stage] nor any later stage is named in the
    trace. *)
Theorem output_validation_failure p data (skip_stages : option (list string))
    pre stage post mid entries out :
  stages p = pre ++ stage :: post ->
  passes (default [] skip_stages) pre data mid entries ->
  skipped (default [] skip_stages) stage = false ->
  validate (input_schema stage) mid = true ->
  stage_execute stage mid = Some out ->
  validate (output_schema stage) out = false ->
  fst (execute p data skip_stages) = None /\
  get_execution_trace (snd (execute p data skip_stages)) =
    execution_history p ++ entries /\
  map fst entries =
    map name (List.filter (fun s => negb (skipped (default [] skip_stages) s)) pre) /\
  (execution_history p = [] ->
   List.NoDup (map name (stages p)) ->
   forall later, In later (stage :: post) ->
     ~ In (name later)
          (map fst (get_execution_trace (snd (execute p data skip_stages))))).
Proof.
  intros Hst Hpre Hskip Hin Hex Hout.
  assert (run_stages (stages p) (default [] skip_stages) data (execution_history p) =
          (None, execution_history p ++ entries)) as Hrun.
  { rewrite Hst, (run_stages_passes _ _ _ _ _ Hpre). simpl.
    rewrite Hskip, Hin, Hex, Hout. reflexivity. }
  pose proof (passes_names _ _ _ _ _ Hpre) as Hnames.
  unfold execute, get_execution_trace. rewrite Hrun. simpl.
  repeat split; [exact Hnames | ].
  intros Hempty Hnd later Hlater Hc.
  rewrite Hempty in Hc. simpl in Hc. rewrite Hnames in Hc.
  apply in_map_iff in Hc as (early & Hname & Hearly).
  apply List.filter_In in Hearly as [Hearly _].
  rewrite Hst, map_app in Hnd.
  apply NoDup_ListNoDup, NoDup_app in Hnd as (_ & Hdisj & _).
  apply (Hdisj (name early)).
  - apply list_elem_of_In, in_map. exact Hearly.
  - rewrite Hname. apply list_elem_of_In, in_map. exact Hlater.
Qed.

(** C6 (as the code has it).  With an empty stage list [execute] returns
    the input payload itself, for every payload and skip list, and leaves
    the orchestrator, trace included, as it was. *)
Theorem execute_no_stages p data (skip_stages : option (list string)) :
  stages p = [] ->
  execute p data skip_stages = (Some data, p).
Proof.
  intros H. unfold execute. rewrite H. simpl. destruct p; simpl in *.
  subst. reflexivity.
Qed.
End PipelineRuns.

Section PipelineWitnesses.
Import Pipeline PipelineExamples.

Lemma output_validation_failure_witness :
  fst (execute example_pipeline example_payload None) = None /\
  get_execution_trace (snd (execute example_pipeline example_payload None)) =
    [("load", <["y" := 1%Z]> example_payload)] /\
  (forall later, In later [check_stage; store_stage] ->
     ~ In (name later)
          (map fst (get_execution_trace
                      (snd (execute example_pipeline example_payload None))))).
Proof.
  destruct (output_validation_failure example_pipeline example_payload None
              [load_stage] check_stage [store_stage]
              (<["y" := 1%Z]> example_payload)
              [("load", <["y" := 1%Z]> example_payload)]
              (<["y" := 1%Z]> example_payload))
    as (Hnone & Htrace & _ & Hlater).
  - reflexivity.
  - apply (passes_run (default [] None) load_stage [] example_payload
             (<["y" := 1%Z]> example_payload) (<["y" := 1%Z]> example_payload) []).
    + reflexivity.
    + repeat split; vm_compute; reflexivity.
    + apply passes_nil.
  - reflexivity.
  - vm_compute. reflexivity.
  - reflexivity.
  - vm_compute. reflexivity.
  - split; [exact Hnone | ]. split; [exact Htrace | ].
    apply Hlater; [reflexivity | ].
    repeat constructor; simpl; intuition discriminate.
Defined.

Lemma execute_no_stages_witness :
  execute (new_pipeline "Pipeline") example_payload None =
  (Some example_payload, new_pipeline "Pipeline").
Proof.
  apply (execute_no_stages (new_pipeline "Pipeline") example_payload None).
  reflexivity.
Defined.

(** C6 as stated fails: a pipeline without stages answers with the
    payload it was given, not with [None]. *)
Lemma empty_pipeline_returns_input :
  stages (new_pipeline (Value := Z) "Pipeline") = [] /\
  fst (execute (new_pipeline "Pipeline") example_payload None) <> None.
Proof.
  split; [reflexivity | ].
  unfold execute. simpl. discriminate.
Qed.
End PipelineWitnesses.

(** ** Supervisor: worker selection *)

Section SupervisorSelection.
Import Supervisor SupervisorSpec.
Context {Value : Type}.
Implicit Types (s : SupervisorAgent Value) (e : option string) (w : WorkerAgent).

Lemma candidates_eligible s e : map snd (candidates s e) = eligible s e.
Proof.
  unfold candidates, eligible, truthy. destruct e as [tag | ]; [ | reflexivity].
  destruct (String.eqb tag ""); simpl; [reflexivity | ].
  unfold dict_values. induction (workers s) as [ | [k w] l IH]; simpl; [reflexivity | ].
  destruct (bool_decide (expertise w = Some tag)); simpl; rewrite IH; reflexivity.
Qed.


Lemma select_entry_none s e : candidates s e = [] -> select_entry s e = Ok None.
Proof. unfold select_entry. intros ->. reflexivity. Qed.



Lemma select_entry_rounded_none (R : Rounding) s e :
  candidates s e = [] -> SupervisorR.select_entry R s e = Ok None.
Proof. unfold SupervisorR.select_entry. intros ->. reflexivity. Qed.

Lemma select_entry_rounded_some (R : Rounding) s e :
  candidates s e <> [] ->
  exists pre kw post,
    SupervisorR.select_entry R s e = Ok (Some kw) /\
    candidates s e = pre ++ kw :: post /\
    Forall (fun c => (SupervisorR.get_load R (snd kw) <
                      SupervisorR.get_load R (snd c))%Q) pre /\
    Forall (fun c => (SupervisorR.get_load R (snd kw) <=
                      SupervisorR.get_load R (snd c))%Q) post.
Proof.
  intros Hne. unfold SupervisorR.select_entry.
  destruct (candidates s e) as [ | c cs] eqn:E; [contradiction | ].
  set (key := fun kw : string * WorkerAgent => SupervisorR.get_load R (snd kw)).
  assert (min_by key (c :: cs) = Ok (min_from key c cs)) as Hmin by reflexivity.
  rewrite Hmin. simpl rbind.
  apply min_by_first in Hmin as (pre & post & Hsplit & Hpre & Hpost).
  exists pre, (min_from key c cs), post. auto.
Qed.

(** The computed load follows the order of the exact one. *)
Lemma get_load_rounded_mono (R : Rounding) w w' :
  (get_load w <= get_load w')%Q ->
  (SupervisorR.get_load R w <= SupervisorR.get_load R w')%Q.
Proof. intros H. apply rnd_mono. exact H. Qed.

(** C8 (as the code has it).  [select_worker] chooses among the eligible
    workers: all registered workers when no tag or the empty tag is given,
    else those whose expertise equals the tag.  With none eligible it
    returns [None], in particular for a non-empty tag that no worker has;
    otherwise it returns the first worker of minimal computed load, the
    float quotient [failed / max(1, completed + failed)], in registry
    order: every eligible worker before it has a strictly greater computed
    load, every one after it a computed load at least as great, and no
    eligible worker has a smaller exact quotient unless the two computed
    loads are the same float.  This holds whatever the rounding of the
    quotient. *)
Theorem select_worker_min_load (R : Rounding) s e :
  (eligible s e = [] -> SupervisorR.select_worker R s e = Ok None) /\
  (eligible s e <> [] ->
   exists pre w post,
     SupervisorR.select_worker R s e = Ok (Some w) /\
     eligible s e = pre ++ w :: post /\
     Forall (fun c => (SupervisorR.get_load R w < SupervisorR.get_load R c)%Q) pre /\
     Forall (fun c => (SupervisorR.get_load R w <= SupervisorR.get_load R c)%Q) post /\
     Forall (fun c => (get_load w <= get_load c)%Q \/
                      (SupervisorR.get_load R w == SupervisorR.get_load R c)%Q)
            (eligible s e)) /\
  (forall w, SupervisorR.get_load R w =
     rnd R (inject_Z (failed_tasks w) /
            inject_Z (Z.max 1 (completed_tasks w + failed_tasks w)))%Q) /\
  (forall tag,
      e = Some tag -> tag <> "" ->
      Forall (fun kw => expertise (snd kw) <> Some tag) (workers s) ->
      SupervisorR.select_worker R s e = Ok None).
Proof.
  assert (eligible s e = [] -> SupervisorR.select_worker R s e = Ok None) as Hnone.
  { intros H. unfold SupervisorR.select_worker.
    rewrite select_entry_rounded_none; [reflexivity | ].
    rewrite <- candidates_eligible in H.
    destruct (candidates s e); [reflexivity | discriminate]. }
  split; [exact Hnone | ]. split; [ | split; [reflexivity | ]].
  - intros Hne.
    destruct (select_entry_rounded_some R s e)
      as (pre & kw & post & Hsel & Hsplit & Hpre & Hpost).
    { intros H. apply Hne. rewrite <- candidates_eligible, H. reflexivity. }
    exists (map snd pre), (snd kw), (map snd post).
    unfold SupervisorR.select_worker. rewrite Hsel. simpl. split; [reflexivity | ].
    assert (eligible s e = map snd pre ++ snd kw :: map snd post) as Hel.
    { rewrite <- candidates_eligible, Hsplit, map_app. reflexivity. }
    split; [exact Hel | ].
    assert (Forall (fun c => (SupervisorR.get_load R (snd kw) <
                              SupervisorR.get_load R c)%Q) (map snd pre)) as Hpre'
      by (apply Forall_map; exact Hpre).
    assert (Forall (fun c => (SupervisorR.get_load R (snd kw) <=
                              SupervisorR.get_load R c)%Q) (map snd post)) as Hpost'
      by (apply Forall_map; exact Hpost).
    split; [exact Hpre' | ]. split; [exact Hpost' | ].
    assert (Forall (fun c => (SupervisorR.get_load R (snd kw) <=
                              SupervisorR.get_load R c)%Q) (eligible s e)) as Hall.
    { rewrite Hel. apply Forall_app. split; [ | constructor].
      - eapply Forall_impl; [exact Hpre' | ]. intros c Hc. apply Qlt_le_weak. exact Hc.
      - apply Qle_refl.
      - exact Hpost'. }
    eapply Forall_impl; [exact Hall | ]. intros c Hc. simpl in Hc.
    destruct (Qlt_le_dec (get_load c) (get_load (snd kw))) as [Hlt | Hle].
    + right. apply Qle_antisym; [exact Hc | ].
      apply get_load_rounded_mono. apply Qlt_le_weak. exact Hlt.
    + left. exact Hle.
  - intros tag -> Htag Hall. apply Hnone. unfold eligible.
    apply String.eqb_neq in Htag. rewrite Htag.
    induction Hall as [ | [k w] l Hw Hl IH]; simpl; [reflexivity | ].
    simpl in Hw. rewrite bool_decide_eq_false_2 by exact Hw. exact IH.
Qed.


Lemma dict_keys_set_In (d : odict WorkerAgent) k w k' :
  In k' (dict_keys (dict_set k w d)) -> k' = k \/ In k' (dict_keys d).
Proof.
  induction d as [ | [k0 w0] d IH]; simpl.
  - intros [<- | []]. left. reflexivity.
  - destruct (String.eqb k k0); simpl.
    + intros [<- | H]; [left; reflexivity | right; right; exact H].
    + intros [<- | H]; [right; left; reflexivity | ].
      destruct (IH H) as [-> | H']; [left; reflexivity | right; right; exact H'].
Qed.

Lemma register_worker_wf s w : registry_wf s -> registry_wf (register_worker s w).
Proof.
  unfold registry_wf, register_worker. simpl.
  generalize (workers s) as d. intros d.
  induction d as [ | [k' w'] d IH]; simpl; intros Hnd.
  - repeat constructor. intros [].
  - apply List.NoDup_cons_iff in Hnd as [Hnotin Hnd].
    destruct (String.eqb (name w) k') eqn:E; simpl.
    + apply String.eqb_eq in E. subst k'. constructor; assumption.
    + constructor; [ | apply IH; exact Hnd].
      intros Hin. apply dict_keys_set_In in Hin as [-> | Hin]; [ | contradiction].
      rewrite String.eqb_refl in E. discriminate.
Qed.
End SupervisorSelection.

Section SupervisorSelectionWitnesses.
Import Supervisor SupervisorSpec.

Lemma select_worker_min_load_witness :
  SupervisorR.select_worker exact team_supervisor (Some "go") = Ok None /\
  (exists pre w post,
     SupervisorR.select_worker exact team_supervisor (Some "python") = Ok (Some w) /\
     eligible team_supervisor (Some "python") = pre ++ w :: post /\
     Forall (fun c => (SupervisorR.get_load exact w < SupervisorR.get_load exact c)%Q) pre /\
     Forall (fun c => (SupervisorR.get_load exact w <= SupervisorR.get_load exact c)%Q)
            post /\
     Forall (fun c => (get_load w <= get_load c)%Q \/
                      (SupervisorR.get_load exact w == SupervisorR.get_load exact c)%Q)
            (eligible team_supervisor (Some "python"))) /\
  length (eligible team_supervisor (Some "python")) = 3%nat /\
  SupervisorR.select_worker exact team_supervisor (Some "python") =
    Ok (Some {| name := "w2"; expertise := Some "python";
                completed_tasks := 3; failed_tasks := 0 |}) /\
  (exists pre w post,
     SupervisorR.select_worker sixteenths close_loads None = Ok (Some w) /\
     eligible close_loads None = pre ++ w :: post /\
     Forall (fun c => (SupervisorR.get_load sixteenths w <
                       SupervisorR.get_load sixteenths c)%Q) pre /\
     Forall (fun c => (SupervisorR.get_load sixteenths w <=
                       SupervisorR.get_load sixteenths c)%Q) post /\
     Forall (fun c => (get_load w <= get_load c)%Q \/
                      (SupervisorR.get_load sixteenths w ==
                       SupervisorR.get_load sixteenths c)%Q)
            (eligible close_loads None)).
Proof.
  split; [ | split; [ | split; [reflexivity | split; [reflexivity | ]]]].
  - apply (proj2 (proj2 (proj2 (select_worker_min_load exact team_supervisor (Some "go"))))
             "go" eq_refl).
    + discriminate.
    + repeat constructor; simpl; discriminate.
  - apply (proj1 (proj2 (select_worker_min_load exact team_supervisor (Some "python")))).
    vm_compute. discriminate.
  - apply (proj1 (proj2 (select_worker_min_load sixteenths close_loads None))).
    vm_compute. discriminate.
Defined.

(** C8 as stated fails for the empty tag: no registered worker has the
    expertise "", and still a worker is returned. *)
Lemma empty_tag_selects_a_worker :
  Forall (fun kw => expertise (snd kw) <> Some "") (workers team_supervisor) /\
  SupervisorR.select_worker exact team_supervisor (Some "") =
    Ok (Some {| name := "w2"; expertise := Some "python";
                completed_tasks := 3; failed_tasks := 0 |}).
Proof.
  split; [ | reflexivity].
  repeat constructor; simpl; discriminate.
Qed.
End SupervisorSelectionWitnesses.

(** ** Supervisor: delegation and status *)

Section SupervisorDelegation.
Import Supervisor SupervisorSpec.
Context {Value : Type}.
Implicit Types (s : SupervisorAgent Value) (behaviour : Z -> Outcome Value).



(** With no retry allowed the loop body never runs: the recorded task
    stays [pending]. *)
Lemma delegate_task_no_attempt s (task_description : string) (e : option string)
    behaviour key w :
  select_entry s e = Ok (Some (key, w)) ->
  (max_retries s <= 0)%Z ->
  exists s' t',
    delegate_task s task_description e behaviour = (Ok None, s', []) /\
    tasks s' !! ("task_" +:+ pretty (Z.of_nat (size (tasks s)))) = Some t' /\
    status t' = pending.
Proof.
  intros Hsel Hmax. unfold delegate_task. rewrite Hsel. simpl max_retries.
  replace (Z.to_nat (max_retries s)) with 0%nat by lia. simpl.
  eexists _, _. split; [reflexivity | ]. simpl.
  rewrite lookup_insert_eq. split; reflexivity.
Qed.
End SupervisorDelegation.

Section SupervisorDelegationWitness.
Import Supervisor SupervisorSpec.

End SupervisorDelegationWitness.

(** ** Reading the state twice *)

Section Idempotence.
Import Supervisor Consensus.

(** C9.  [get_status] on a supervisor and [calculate_consensus] on a
    consensus engine leave the engine state as it was, and a second call
    right after the first yields the same result, in every state. *)
Theorem status_and_consensus_idempotent :
  (forall (Value : Type) (s : SupervisorAgent Value),
      snd (get_status s) = s /\
      fst (get_status (snd (get_status s))) = fst (get_status s)) /\
  (forall e : ConsensusEngine,
      snd (calculate_consensus e) = e /\
      fst (calculate_consensus (snd (calculate_consensus e))) =
        fst (calculate_consensus e)).
Proof.
  split.
  - intros Value s. split; reflexivity.
  - intros e.
    assert (snd (calculate_consensus e) = e) as Hsame.
    { unfold calculate_consensus.
      destruct (votes e); [reflexivity | ]. destruct (strategy e); reflexivity. }
    split; [exact Hsame | ]. rewrite Hsame. reflexivity.
Qed.
End Idempotence.

(** ** Swarm: a fresh swarm is already converged *)

Section FreshSwarm.
Import Swarm.

Lemma new_swarm_positions (n : Z) decay :
  Forall (fun a => position a = "origin") (agents (new_swarm n decay)).
Proof.
  unfold new_swarm. simpl. apply Forall_map, Forall_forall. reflexivity.
Qed.

Lemma list_to_set_same (x : string) (l : list string) :
  l <> [] -> Forall (fun y => y = x) l -> (list_to_set l : gset string) = {[x]}.
Proof.
  intros Hne Hall. induction Hall as [ | y l -> Hl IH]; [contradiction | ].
  rewrite list_to_set_cons. destruct l as [ | z l].
  - rewrite list_to_set_nil. apply (right_id_L ∅ (∪)).
  - rewrite IH by discriminate. apply (idemp_L (∪)).
Qed.

Lemma new_swarm_unique_positions (n : Z) decay :
  (1 <= n)%Z -> unique_positions (new_swarm n decay) = 1%Z.
Proof.
  intros Hn. unfold unique_positions.
  rewrite (list_to_set_same "origin").
  - rewrite size_singleton. reflexivity.
  - unfold new_swarm, py_range. simpl. intros H. apply (f_equal length) in H.
    rewrite !length_map, length_seqZ in H. simpl in H. lia.
  - apply Forall_map. exact (new_swarm_positions n decay).
Qed.

Lemma optimize_loop_converged (fuel : nat) s :
  is_converged s (8 # 10) = true -> optimize_loop fuel s = Ok s.
Proof. intros H. destruct fuel; simpl; [ | rewrite H]; reflexivity. Qed.

(** C10.  For [num_agents >= 1] every agent of a fresh swarm is at
    "origin"; [is_converged(0.8)] holds at once, its measure being
    (1 - 1) / max(1, num_agents - 1) = 0 <= 0.2; and [swarm_optimization]
    returns "origin" for every iteration cap and leaves the swarm as it
    was built, with [timestep] 0 and an empty pheromone map. *)
Theorem fresh_swarm_converged (n : Z) (decay : Q) (max_iterations : Z) :
  (1 <= n)%Z ->
  Forall (fun a => position a = "origin") (agents (new_swarm n decay)) /\
  (inject_Z (unique_positions (new_swarm n decay) - 1) /
   inject_Z (Z.max 1 (Z.of_nat (length (agents (new_swarm n decay))) - 1)) == 0)%Q /\
  is_converged (new_swarm n decay) (8 # 10) = true /\
  exists s',
    swarm_optimization (new_swarm n decay) max_iterations = Ok ("origin", s') /\
    s' = new_swarm n decay /\
    timestep s' = 0%Z /\
    environment_pheromones s' = [].
Proof.
  intros Hn.
  pose proof (new_swarm_unique_positions n decay Hn) as Huniq.
  assert (inject_Z (unique_positions (new_swarm n decay) - 1) /
          inject_Z (Z.max 1 (Z.of_nat (length (agents (new_swarm n decay))) - 1))
          == 0)%Q as Hzero.
  { rewrite Huniq. simpl inject_Z. unfold Qdiv. apply Qmult_0_l. }
  assert (is_converged (new_swarm n decay) (8 # 10) = true) as Hconv.
  { unfold is_converged. apply Qle_bool_iff. rewrite Hzero. lra. }
  split; [apply new_swarm_positions | ]. split; [exact Hzero | ].
  split; [exact Hconv | ].
  exists (new_swarm n decay). split; [ | repeat split].
  assert (exists a rest, agents (new_swarm n decay) = a :: rest /\
                         position a = "origin") as (a & rest & E & Ha).
  { pose proof (new_swarm_positions n decay) as Hpos.
    destruct (agents (new_swarm n decay)) as [ | a rest] eqn:E.
    - exfalso. unfold new_swarm, py_range in E. simpl in E.
      apply (f_equal length) in E. rewrite length_map, length_seqZ in E.
      simpl in E. lia.
    - apply Forall_cons in Hpos as [Ha _]. eauto. }
  unfold swarm_optimization. rewrite optimize_loop_converged by exact Hconv.
  unfold rbind. rewrite E, Ha. reflexivity.
Qed.

Lemma fresh_swarm_converged_witness :
  Forall (fun a => position a = "origin") (agents (new_swarm 10 (1 # 10))) /\
  (inject_Z (unique_positions (new_swarm 10 (1 # 10)) - 1) /
   inject_Z (Z.max 1 (Z.of_nat (length (agents (new_swarm 10 (1 # 10)))) - 1)) == 0)%Q /\
  is_converged (new_swarm 10 (1 # 10)) (8 # 10) = true /\
  exists s',
    swarm_optimization (new_swarm 10 (1 # 10)) 100 = Ok ("origin", s') /\
    s' = new_swarm 10 (1 # 10) /\
    timestep s' = 0%Z /\
    environment_pheromones s' = [].
Proof.
  apply (fresh_swarm_converged 10 (1 # 10) 100). lia.
Defined.

(** Without agents there is no first agent to report. *)
Lemma swarm_optimization_no_agents :
  swarm_optimization (new_swarm 0 (1 # 10)) 100 = Raise IndexError.
Proof. reflexivity. Qed.
End FreshSwarm.

(** * Further properties of the engines *)

(** ** Sums of rationals *)

Lemma fold_left_Qplus_acc (xs : list Q) : forall a,
  (fold_left Qplus xs a == a + py_sum xs)%Q.
Proof.
  unfold py_sum. induction xs as [ | x xs IH]; intros a; simpl.
  - lra.
  - rewrite (IH (a + x)%Q), (IH (0 + x)%Q). lra.
Qed.

Lemma py_sum_cons (x : Q) (xs : list Q) : (py_sum (x :: xs) == x + py_sum xs)%Q.
Proof.
  unfold py_sum at 1. simpl. rewrite fold_left_Qplus_acc. lra.
Qed.

Lemma py_sum_nonneg (xs : list Q) :
  Forall (fun x => (0 <= x)%Q) xs -> (0 <= py_sum xs)%Q.
Proof.
  induction 1 as [ | x xs Hx _ IH]; [unfold py_sum; simpl; lra | ].
  rewrite py_sum_cons. lra.
Qed.

Lemma py_sum_ge_member (xs : list Q) (x : Q) :
  Forall (fun y => (0 <= y)%Q) xs -> In x xs -> (x <= py_sum xs)%Q.
Proof.
  induction 1 as [ | y xs Hy Hall IH]; intros Hin; [destruct Hin | ].
  rewrite py_sum_cons. pose proof (py_sum_nonneg xs Hall) as Hs.
  destruct Hin as [-> | Hin]; [lra | ]. specialize (IH Hin). lra.
Qed.

Lemma py_sum_le_length (xs : list Q) :
  Forall (fun y => (y <= 1)%Q) xs -> (py_sum xs <= inject_Z (Z.of_nat (length xs)))%Q.
Proof.
  induction 1 as [ | y xs Hy _ IH]; [apply Qle_refl | ].
  rewrite py_sum_cons. simpl length. rewrite Nat2Z.inj_succ.
  unfold Z.succ. rewrite inject_Z_plus. change (inject_Z 1) with 1%Q. lra.
Qed.

Lemma py_sum_zero (xs : list Q) :
  Forall (fun y => (0 <= y)%Q) xs ->
  ((py_sum xs == 0)%Q <-> Forall (fun y => (y == 0)%Q) xs).
Proof.
  induction 1 as [ | y xs Hy Hall IH].
  - split; [constructor | reflexivity].
  - rewrite py_sum_cons. pose proof (py_sum_nonneg xs Hall) as Hs. split.
    + intros H. constructor; [lra | ]. apply IH. lra.
    + intros H. apply Forall_cons in H as [Hy0 Hxs]. apply IH in Hxs. lra.
Qed.

(** ** Consensus: majority, ties and the range of the weighted result *)

Section MapDictSet.
Context {V : Type}.

Lemma dict_get_tabulate_absent (g : string -> V) (l : list string) (k : string) :
  ~ In k l -> dict_get k (map (fun o => (o, g o)) l) = None.
Proof.
  induction l as [ | o l IH]; simpl; [reflexivity | ].
  intros H. destruct (String.eqb k o) eqn:E.
  - apply String.eqb_eq in E. subst. exfalso. apply H. left. reflexivity.
  - apply IH. intros C. apply H. right. exact C.
Qed.

(** Rebinding a key of a table given by a function on distinct keys. *)
Lemma dict_set_tabulate (g : string -> V) (k : string) (v : V) (l : list string) :
  List.NoDup l -> In k l ->
  dict_set k v (map (fun o => (o, g o)) l) =
  map (fun o => (o, if String.eqb k o then v else g o)) l.
Proof.
  induction 1 as [ | o l Hnotin Hnd IH]; simpl; [intros [] | ].
  intros Hin. destruct (String.eqb k o) eqn:E.
  - apply String.eqb_eq in E. subst o. f_equal.
    apply map_ext_in. intros o Ho.
    destruct (String.eqb k o) eqn:E; [ | reflexivity].
    apply String.eqb_eq in E. subst. contradiction.
  - f_equal. apply IH. destruct Hin as [-> | Hin]; [ | exact Hin].
    rewrite String.eqb_refl in E. discriminate.
Qed.
End MapDictSet.

Section ConsensusMore.
Import Consensus ConsensusSpec.

(** The table of [_majority_consensus] holds, for each option in order of
    first appearance, its number of votes. *)
Lemma count_table vs :
  fold_left count_step vs [] =
  map (fun o => (o, vote_count vs o)) (options_of vs).
Proof.
  induction vs as [ | v vs IH] using rev_ind; [reflexivity | ].
  rewrite fold_left_app. simpl. rewrite IH. unfold count_step.
  rewrite options_of_snoc. pose proof (options_of_NoDup vs) as Hnd.
  destruct (existsb (String.eqb (choice v)) (options_of vs)) eqn:E.
  - apply existsb_eqb_In in E.
    rewrite dict_get_tabulate by exact E. simpl default.
    rewrite dict_set_tabulate by assumption.
    apply map_ext. intros o. rewrite vote_count_snoc.
    destruct (String.eqb (choice v) o) eqn:Eo; [ | reflexivity].
    apply String.eqb_eq in Eo. subst o. reflexivity.
  - apply existsb_eqb_notin in E.
    rewrite dict_get_tabulate_absent by exact E. simpl default.
    rewrite dict_set_fresh.
    2:{ rewrite dict_mem_keys, dict_keys_tabulate. apply existsb_eqb_notin. exact E. }
    rewrite map_app. simpl. rewrite vote_count_snoc, String.eqb_refl.
    unfold vote_count at 3. rewrite (votes_for_option_absent vs (choice v) E).
    simpl. f_equal. apply map_ext_in. intros o Ho. rewrite vote_count_snoc.
    destruct (String.eqb (choice v) o) eqn:Eo; [ | reflexivity].
    apply String.eqb_eq in Eo. subst. contradiction.
Qed.

(** Under [simple_majority] with a non-empty vote log the winner is the
    first option, in order of first appearance, with the most votes;
    [votes_for] is its number of votes and [total_votes] the length of the
    log. *)
Theorem majority_consensus_first_max (e : ConsensusEngine) :
  strategy e = SIMPLE_MAJORITY ->
  votes e <> [] ->
  exists best pre post,
    fst (calculate_consensus e) =
      Ok (Majority best (vote_count (votes e) best) (Z.of_nat (length (votes e)))) /\
    options_of (votes e) = pre ++ best :: post /\
    Forall (fun o => (vote_count (votes e) o < vote_count (votes e) best)%Z) pre /\
    Forall (fun o => (vote_count (votes e) o <= vote_count (votes e) best)%Z) post /\
    (1 <= vote_count (votes e) best <= Z.of_nat (length (votes e)))%Z.
Proof.
  intros Hs Hne. unfold calculate_consensus. rewrite Hs.
  destruct (votes e) as [ | v0 vs0] eqn:Ev; [contradiction | ]. rewrite <- Ev.
  simpl fst. unfold _majority_consensus. rewrite count_table.
  set (vs := votes e) in *. set (opts := options_of vs).
  assert (forall o, In o opts ->
            count_of (map (fun o => (o, vote_count vs o)) opts) o = vote_count vs o)
    as Hcount.
  { intros o Ho. unfold count_of. rewrite dict_get_tabulate by exact Ho. reflexivity. }
  assert (opts <> []) as Hopts.
  { apply options_of_nonempty. rewrite Ev. discriminate. }
  destruct (map (fun o => (o, vote_count vs o)) opts) as [ | kv tl] eqn:Etab.
  { destruct opts; [contradiction | discriminate]. }
  rewrite <- Etab. rewrite <- Etab in Hcount. clear Etab kv tl.
  rewrite dict_keys_tabulate.
  set (keyf := fun x => inject_Z (count_of (map (fun o => (o, vote_count vs o)) opts) x)).
  destruct (max_by keyf opts) as [best | err] eqn:Hmax.
  2:{ destruct opts; [contradiction | discriminate]. }
  apply max_by_first in Hmax as (pre & post & Hsplit & Hpre & Hpost).
  assert (In best opts) as Hbest.
  { rewrite Hsplit. apply in_or_app. right. left. reflexivity. }
  exists best, pre, post. simpl rbind. rewrite (Hcount best Hbest).
  split; [reflexivity | ]. split; [exact Hsplit | ]. split; [ | split].
  - apply Forall_forall. intros o Ho.
    rewrite Forall_forall in Hpre. specialize (Hpre o Ho). unfold keyf in Hpre.
    rewrite (Hcount best Hbest), Hcount in Hpre.
    + rewrite Zlt_Qlt. exact Hpre.
    + rewrite Hsplit. apply in_or_app. left. apply list_elem_of_In. exact Ho.
  - apply Forall_forall. intros o Ho.
    rewrite Forall_forall in Hpost. specialize (Hpost o Ho). unfold keyf in Hpost.
    rewrite (Hcount best Hbest), Hcount in Hpost.
    + rewrite Zle_Qle. exact Hpost.
    + rewrite Hsplit. apply in_or_app. right. right. apply list_elem_of_In. exact Ho.
  - split; [apply vote_count_pos; exact Hbest | ].
    unfold vote_count, votes_for_option. apply inj_le, List.filter_length_le.
Qed.

Lemma majority_consensus_first_max_witness :
  exists best pre post,
    fst (calculate_consensus majority_example) =
      Ok (Majority best (vote_count (votes majority_example) best)
                   (Z.of_nat (length (votes majority_example)))) /\
    options_of (votes majority_example) = pre ++ best :: post /\
    Forall (fun o => (vote_count (votes majority_example) o <
                      vote_count (votes majority_example) best)%Z) pre /\
    Forall (fun o => (vote_count (votes majority_example) o <=
                      vote_count (votes majority_example) best)%Z) post /\
    (1 <= vote_count (votes majority_example) best <=
     Z.of_nat (length (votes majority_example)))%Z.
Proof.
  apply (majority_consensus_first_max majority_example).
  - reflexivity.
  - discriminate.
Defined.

(** *** [handle_tie] *)

Lemma dict_get_set_other {V : Type} (k k' : string) (v : V) (d : odict V) :
  dict_get k' (dict_set k v d) =
  if String.eqb k' k then Some v else dict_get k' d.
Proof.
  induction d as [ | [k0 v0] d IH]; simpl.
  - destruct (String.eqb k' k); reflexivity.
  - destruct (String.eqb k k0) eqn:E; simpl.
    + apply String.eqb_eq in E. subst k0.
      destruct (String.eqb k' k); reflexivity.
    + destruct (String.eqb k' k0) eqn:E0; [ | exact IH].
      apply String.eqb_eq in E0. subst k0.
      rewrite String.eqb_sym, E. reflexivity.
Qed.

Lemma tie_table_init (tied : list string) (o : string) : forall d0 : odict (list Q),
  dict_get o (fold_left (fun d opt => dict_set opt [] d) tied d0) =
  if existsb (String.eqb o) tied then Some [] else dict_get o d0.
Proof.
  induction tied as [ | t tied IH]; intros d0; simpl; [reflexivity | ].
  rewrite IH, dict_get_set_other.
  destruct (String.eqb o t); simpl; [ | reflexivity].
  destruct (existsb (String.eqb o) tied); reflexivity.
Qed.

Lemma collect_step_get (d : odict (list Q)) (v : Vote) (o : string) :
  dict_get o (collect_step d v) =
  if String.eqb o (choice v) then (fun l => l ++ [confidence v]) <$> dict_get o d
  else dict_get o d.
Proof.
  unfold collect_step, dict_mem.
  destruct (String.eqb o (choice v)) eqn:E.
  - apply String.eqb_eq in E. subst o.
    destruct (dict_get (choice v) d) eqn:G.
    + rewrite dict_get_alter_eq, G. reflexivity.
    + rewrite G. reflexivity.
  - apply String.eqb_neq in E.
    destruct (dict_get (choice v) d); [ | reflexivity].
    apply dict_get_alter_ne. congruence.
Qed.

Lemma collect_get (vs : list Vote) (o : string) : forall d : odict (list Q),
  dict_get o (fold_left collect_step vs d) =
  (fun l => l ++ map confidence (votes_for_option o vs)) <$> dict_get o d.
Proof.
  induction vs as [ | v vs IH]; intros d; simpl.
  - destruct (dict_get o d); simpl; [rewrite app_nil_r | ]; reflexivity.
  - rewrite IH, collect_step_get.
    destruct (String.eqb o (choice v)); [ | reflexivity].
    destruct (dict_get o d); simpl; [ | reflexivity].
    rewrite <- app_assoc. reflexivity.
Qed.

(** [handle_tie] raises [ValueError] on an empty candidate list; otherwise
    it returns the first of the tied options whose computed mean
    confidence, the sum of the confidences of the recorded votes for that
    option over their number (0 when it has none), is maximal: every tied
    option before it has a strictly smaller computed mean, every one after
    it a computed mean that is not greater.  This holds whatever the
    rounding of the sum and of the quotient. *)
Theorem handle_tie_first_best_mean (R : Rounding) (e : ConsensusEngine)
    (tied : list string) :
  (tied = [] -> ConsensusR.handle_tie R e tied = Raise ValueError) /\
  (tied <> [] ->
   exists best pre post,
     ConsensusR.handle_tie R e tied = Ok best /\
     tied = pre ++ best :: post /\
     Forall (fun o => (computed_mean R (votes e) o < computed_mean R (votes e) best)%Q)
            pre /\
     Forall (fun o => (computed_mean R (votes e) o <= computed_mean R (votes e) best)%Q)
            post).
Proof.
  split; [intros ->; reflexivity | ]. intros Hne. unfold ConsensusR.handle_tie.
  set (d := fold_left collect_step (votes e) _).
  assert (forall o, In o tied ->
            ConsensusR.mean_of R d o = computed_mean R (votes e) o) as Hmean.
  { intros o Ho. unfold ConsensusR.mean_of, d.
    rewrite collect_get, tie_table_init.
    rewrite (proj2 (existsb_eqb_In o tied) Ho). simpl.
    unfold computed_mean, vote_count. rewrite length_map. reflexivity. }
  destruct (max_by (ConsensusR.mean_of R d) tied) as [best | err] eqn:Hmax.
  2:{ destruct tied; [contradiction | discriminate]. }
  apply max_by_first in Hmax as (pre & post & Hsplit & Hpre & Hpost).
  assert (In best tied) as Hbest.
  { rewrite Hsplit. apply in_or_app. right. left. reflexivity. }
  exists best, pre, post. split; [reflexivity | ]. split; [exact Hsplit | ]. split.
  - apply Forall_forall. intros o Ho.
    rewrite Forall_forall in Hpre. specialize (Hpre o Ho).
    rewrite <- (Hmean best Hbest), <- (Hmean o); [exact Hpre | ].
    rewrite Hsplit. apply in_or_app. left. apply list_elem_of_In. exact Ho.
  - apply Forall_forall. intros o Ho.
    rewrite Forall_forall in Hpost. specialize (Hpost o Ho).
    rewrite <- (Hmean best Hbest), <- (Hmean o); [exact Hpost | ].
    rewrite Hsplit. apply in_or_app. right. right. apply list_elem_of_In. exact Ho.
Qed.

Lemma handle_tie_first_best_mean_witness :
  ConsensusR.handle_tie exact majority_example [] = Raise ValueError /\
  (exists best pre post,
     ConsensusR.handle_tie exact majority_example ["X"; "Y"; "Z"] = Ok best /\
     ["X"; "Y"; "Z"] = pre ++ best :: post /\
     Forall (fun o => (computed_mean exact (votes majority_example) o <
                       computed_mean exact (votes majority_example) best)%Q) pre /\
     Forall (fun o => (computed_mean exact (votes majority_example) o <=
                       computed_mean exact (votes majority_example) best)%Q) post) /\
  (exists best pre post,
     ConsensusR.handle_tie sixteenths close_means ["A"; "B"] = Ok best /\
     ["A"; "B"] = pre ++ best :: post /\
     Forall (fun o => (computed_mean sixteenths (votes close_means) o <
                       computed_mean sixteenths (votes close_means) best)%Q) pre /\
     Forall (fun o => (computed_mean sixteenths (votes close_means) o <=
                       computed_mean sixteenths (votes close_means) best)%Q) post).
Proof.
  split; [ | split].
  - apply (proj1 (handle_tie_first_best_mean exact majority_example [])). reflexivity.
  - apply (proj2 (handle_tie_first_best_mean exact majority_example ["X"; "Y"; "Z"])).
    discriminate.
  - apply (proj2 (handle_tie_first_best_mean sixteenths close_means ["A"; "B"])).
    discriminate.
Defined.

(** *** The weighted result on clamped votes *)

Lemma sum_conf_nonneg vs o :
  Forall (fun v => in_unit (confidence v)) vs -> (0 <= sum_conf vs o)%Q.
Proof.
  intros H. unfold sum_conf. apply py_sum_nonneg, Forall_map.
  unfold votes_for_option. apply Forall_forall. intros v Hv.
  apply list_elem_of_In, List.filter_In in Hv as [Hv _].
  rewrite Forall_forall in H. apply H, list_elem_of_In. exact Hv.
Qed.

Lemma sum_conf_le_count vs o :
  Forall (fun v => in_unit (confidence v)) vs ->
  (sum_conf vs o <= inject_Z (vote_count vs o))%Q.
Proof.
  intros H. unfold sum_conf, vote_count.
  rewrite <- (length_map confidence). apply py_sum_le_length, Forall_map.
  unfold votes_for_option. apply Forall_forall. intros v Hv.
  apply list_elem_of_In, List.filter_In in Hv as [Hv _].
  rewrite Forall_forall in H. apply H, list_elem_of_In. exact Hv.
Qed.

Lemma total_conf_nonneg vs :
  Forall (fun v => in_unit (confidence v)) vs -> (0 <= total_conf vs)%Q.
Proof.
  intros H. unfold total_conf. apply py_sum_nonneg, Forall_map, Forall_forall.
  intros o _. apply sum_conf_nonneg. exact H.
Qed.

(** The total is zero exactly when every recorded confidence is zero. *)
Lemma total_conf_zero vs :
  Forall (fun v => in_unit (confidence v)) vs ->
  ((total_conf vs == 0)%Q <-> Forall (fun v => (confidence v == 0)%Q) vs).
Proof.
  intros H. unfold total_conf. rewrite py_sum_zero.
  2:{ apply Forall_map, Forall_forall. intros o _. apply sum_conf_nonneg. exact H. }
  rewrite Forall_map. split; intros Hall.
  - apply Forall_forall. intros v Hv. apply list_elem_of_In in Hv.
    assert (In (choice v) (options_of vs)) as Ho
      by (apply options_of_In; exists v; auto).
    rewrite Forall_forall in Hall.
    specialize (Hall (choice v) (proj2 (list_elem_of_In _ _) Ho)).
    unfold sum_conf in Hall. apply py_sum_zero in Hall.
    + rewrite Forall_map, Forall_forall in Hall. apply Hall, list_elem_of_In.
      unfold votes_for_option. apply List.filter_In. split; [exact Hv | ].
      apply String.eqb_refl.
    + apply Forall_map. unfold votes_for_option. apply Forall_forall. intros w Hw.
      apply list_elem_of_In, List.filter_In in Hw as [Hw _].
      rewrite Forall_forall in H. apply H, list_elem_of_In. exact Hw.
  - apply Forall_forall. intros o _. unfold sum_conf. apply py_sum_zero.
    + apply Forall_map. unfold votes_for_option. apply Forall_forall. intros w Hw.
      apply list_elem_of_In, List.filter_In in Hw as [Hw _].
      rewrite Forall_forall in H. apply H, list_elem_of_In. exact Hw.
    + apply Forall_map. unfold votes_for_option. apply Forall_forall. intros w Hw.
      apply list_elem_of_In, List.filter_In in Hw as [Hw _].
      rewrite Forall_forall in Hall. apply Hall, list_elem_of_In. exact Hw.
Qed.

Lemma weighted_zero_total (e : ConsensusEngine) :
  votes e <> [] ->
  (total_conf (votes e) == 0)%Q ->
  _weighted_consensus e = Raise ZeroDivisionError.
Proof.
  intros Hne Htot. unfold _weighted_consensus. rewrite tally_tables. cbv iota.
  pose proof (options_of_nonempty _ Hne) as Hopts.
  destruct (map (fun o => (o, sum_conf (votes e) o)) (options_of (votes e)))
    as [ | kv tl] eqn:Etab.
  { destruct (options_of (votes e)); [contradiction | discriminate]. }
  cbv iota. rewrite <- Etab. clear Etab kv tl.
  rewrite dict_keys_tabulate, dict_values_tabulate.
  destruct (options_of (votes e)) as [ | o0 rest] eqn:Eopts; [contradiction | ].
  rewrite max_by_nonempty. rewrite <- Eopts. simpl rbind.
  change (py_sum (map (sum_conf (votes e)) (options_of (votes e))))
    with (total_conf (votes e)).
  rewrite truediv_zero by exact Htot. reflexivity.
Qed.

(** Under [weighted_confidence], on a non-empty log of votes whose
    confidences lie in [0,1] (as [add_vote] stores them),
    [calculate_consensus] raises [ZeroDivisionError] exactly when every
    recorded confidence is zero. *)
Theorem weighted_raises_iff_all_zero (e : ConsensusEngine) :
  strategy e = WEIGHTED_CONFIDENCE ->
  votes e <> [] ->
  Forall (fun v => in_unit (confidence v)) (votes e) ->
  (fst (calculate_consensus e) = Raise ZeroDivisionError <->
   Forall (fun v => (confidence v == 0)%Q) (votes e)).
Proof.
  intros Hs Hne Hunit.
  assert (fst (calculate_consensus e) = _weighted_consensus e) as ->.
  { unfold calculate_consensus. rewrite Hs.
    destruct (votes e); [contradiction | reflexivity]. }
  rewrite <- (total_conf_zero _ Hunit). split.
  - intros Hraise.
    destruct (Qeq_dec (total_conf (votes e)) 0) as [Hz | Hnz]; [exact Hz | ].
    destruct (weighted_consensus_result e Hne Hnz) as (b & pre & post & Hres & _).
    rewrite Hres in Hraise. discriminate.
  - apply weighted_zero_total. exact Hne.
Qed.

Lemma weighted_raises_iff_all_zero_witness :
  fst (calculate_consensus zero_example) = Raise ZeroDivisionError <->
  Forall (fun v => (confidence v == 0)%Q) (votes zero_example).
Proof.
  apply (weighted_raises_iff_all_zero zero_example).
  - reflexivity.
  - discriminate.
  - apply cast_votes_in_unit. constructor.
Defined.

(** Under [weighted_confidence], on a non-empty log of votes whose
    confidences lie in [0,1] and are not all zero, the reported confidence
    lies in (0,1] and every per-option average of the breakdown lies in
    [0,1]; the breakdown lists the options in order of first appearance. *)
Theorem weighted_result_in_unit (e : ConsensusEngine) :
  strategy e = WEIGHTED_CONFIDENCE ->
  votes e <> [] ->
  Forall (fun v => in_unit (confidence v)) (votes e) ->
  ~ (total_conf (votes e) == 0)%Q ->
  exists best c breakdown,
    fst (calculate_consensus e) = Ok (Weighted best c breakdown) /\
    (0 < c <= 1)%Q /\
    Forall (fun kv => in_unit (snd kv)) breakdown /\
    map fst breakdown = options_of (votes e).
Proof.
  intros Hs Hne Hunit Hnz.
  assert (fst (calculate_consensus e) = _weighted_consensus e) as ->.
  { unfold calculate_consensus. rewrite Hs.
    destruct (votes e); [contradiction | reflexivity]. }
  destruct (weighted_consensus_result e Hne Hnz)
    as (best & pre & post & Hres & Hsplit & Hpre & Hpost).
  set (vs := votes e) in *.
  pose proof (total_conf_nonneg vs Hunit) as Htot.
  assert (0 < total_conf vs)%Q as Hpos by lra.
  assert (In best (options_of vs)) as Hbest.
  { rewrite Hsplit. apply in_or_app. right. left. reflexivity. }
  assert (sum_conf vs best <= total_conf vs)%Q as Hle.
  { unfold total_conf. apply py_sum_ge_member.
    - apply Forall_map, Forall_forall. intros o _. apply sum_conf_nonneg. exact Hunit.
    - apply in_map. exact Hbest. }
  assert (0 < sum_conf vs best)%Q as Hbpos.
  { pose proof (sum_conf_nonneg vs best Hunit) as H0.
    destruct (Qlt_le_dec 0 (sum_conf vs best)) as [Hlt | Hge]; [exact Hlt | ].
    exfalso. apply Hnz. unfold total_conf. apply py_sum_zero.
    - apply Forall_map, Forall_forall. intros o _. apply sum_conf_nonneg. exact Hunit.
    - apply Forall_map, Forall_forall. intros o Ho.
      pose proof (sum_conf_nonneg vs o Hunit) as Ho0.
      assert (sum_conf vs o <= sum_conf vs best)%Q as Hob.
      { apply list_elem_of_In in Ho. rewrite Hsplit in Ho.
        rewrite Forall_forall in Hpre, Hpost.
        apply in_app_or in Ho as [Ho | [<- | Ho]].
        - apply Qlt_le_weak, Hpre, list_elem_of_In. exact Ho.
        - apply Qle_refl.
        - apply Hpost, list_elem_of_In. exact Ho. }
      lra. }
  eexists _, _, _. split; [exact Hres | ]. split; [ | split].
  - split.
    + apply Qlt_shift_div_l; [exact Hpos | lra].
    + apply Qle_shift_div_r; [exact Hpos | lra].
  - apply Forall_map, Forall_forall. intros o Ho. apply list_elem_of_In in Ho.
    simpl. pose proof (vote_count_pos vs o Ho) as Hc.
    assert (inject_Z 1 <= inject_Z (vote_count vs o))%Q as Hc'
      by (rewrite <- Zle_Qle; exact Hc).
    change (inject_Z 1) with 1%Q in Hc'.
    pose proof (sum_conf_nonneg vs o Hunit) as H0.
    pose proof (sum_conf_le_count vs o Hunit) as H1.
    split.
    + apply Qle_shift_div_l; lra.
    + apply Qle_shift_div_r; lra.
  - rewrite map_map. simpl. apply map_id.
Qed.

Lemma weighted_result_in_unit_witness :
  exists best c breakdown,
    fst (calculate_consensus example_engine) = Ok (Weighted best c breakdown) /\
    (0 < c <= 1)%Q /\
    Forall (fun kv => in_unit (snd kv)) breakdown /\
    map fst breakdown = options_of (votes example_engine).
Proof.
  apply (weighted_result_in_unit example_engine).
  - reflexivity.
  - discriminate.
  - apply cast_votes_in_unit. constructor.
  - vm_compute. discriminate.
Defined.
End ConsensusMore.

(** ** Debate: scores, verdict and final confidences *)

Section DebateMore.
Import Debate.

Lemma Qltb_proper (c a a' : Q) : (a == a')%Q -> Qltb c a = Qltb c a'.
Proof.
  intros H. destruct (Qltb c a') eqn:E.
  - apply Qltb_true in E. apply Qltb_true. lra.
  - apply Qltb_false in E. apply Qltb_false. lra.
Qed.

Lemma py_sum_map_ext (f g : Z -> Q) (l : list Z) :
  (forall x, In x l -> (f x == g x)%Q) -> (py_sum (map f l) == py_sum (map g l))%Q.
Proof.
  induction l as [ | x l IH]; intros H; simpl; [reflexivity | ].
  assert (py_sum (map f l) == py_sum (map g l))%Q as Htl
    by (apply IH; intros y Hy; apply H; right; exact Hy).
  assert (f x == g x)%Q as Hhd by (apply H; left; reflexivity).
  rewrite !py_sum_cons, Htl, Hhd. reflexivity.
Qed.

(** Sum of an affine function of the round number over rounds 1..n. *)
Lemma py_sum_affine (a b : Q) (n : nat) :
  (py_sum (map (fun r => a + inject_Z r * b) (seqZ 1 (Z.of_nat n))) ==
   inject_Z (Z.of_nat n) * a +
   b * inject_Z (Z.of_nat n) * (inject_Z (Z.of_nat n) + 1) / 2)%Q.
Proof.
  induction n as [ | n IH].
  - simpl. unfold py_sum. simpl. field.
  - rewrite seqZ_S, map_app. simpl map. rewrite py_sum_snoc, IH.
    rewrite Nat2Z.inj_succ. unfold Z.succ. rewrite !inject_Z_plus.
    change (inject_Z 1) with 1%Q. field.
Qed.

Lemma seqZ_last (n : Z) : (1 <= n)%Z -> seqZ 1 n = seqZ 1 (n - 1) ++ [n].
Proof.
  intros H. replace n with (Z.of_nat (S (Z.to_nat (n - 1)))) at 1 by lia.
  rewrite seqZ_S. f_equal; [f_equal; lia | f_equal; lia].
Qed.

(** The result of [run_debate] for at least one round, field by field. *)
Lemma run_debate_ok (d : DebateOrchestrator) (topic_ pos : string) :
  (1 <= num_rounds d)%Z ->
  fst (run_debate d topic_ pos) =
  Ok {| topic := "Debate topic";
        total_rounds := num_rounds d;
        avg_consensus_score :=
          (py_sum (map (fun r => consensus_score (make_round (scoring_strategy d) pos r))
                       (seqZ 1 (num_rounds d))) /
           inject_Z (num_rounds d))%Q;
        proposer_final_confidence := proposer_confidence (num_rounds d);
        critic_final_confidence := critic_confidence (num_rounds d);
        consensus_reached :=
          Qltb (75 # 100)
            (py_sum (map (fun r => consensus_score (make_round (scoring_strategy d) pos r))
                         (seqZ 1 (num_rounds d))) /
             inject_Z (num_rounds d));
        round_list :=
          map (fun r => (r, consensus_score (make_round (scoring_strategy d) pos r)))
              (seqZ 1 (num_rounds d)) |}.
Proof.
  intros HR.
  pose proof (run_debate_rounds d topic_ pos) as Hrounds.
  rewrite py_range_from_one in Hrounds.
  unfold run_debate in *. simpl in Hrounds. simpl fst. unfold _generate_consensus.
  simpl rounds. rewrite Hrounds.
  assert (last (map (make_round (scoring_strategy d) pos) (seqZ 1 (num_rounds d))) =
          Some (make_round (scoring_strategy d) pos (num_rounds d))) as Hlast.
  { rewrite (seqZ_last _ HR), map_app. apply last_snoc. }
  rewrite Hlast, !length_map, length_seqZ, !map_map.
  replace (Z.of_nat (Z.to_nat (num_rounds d))) with (num_rounds d) by lia.
  rewrite truediv_ok.
  2:{ intros Hz.
      assert (inject_Z 1 <= inject_Z (num_rounds d))%Q as H1
        by (rewrite <- Zle_Qle; exact HR).
      change (inject_Z 1) with 1%Q in H1. rewrite Hz in H1. lra. }
  reflexivity.
Qed.

Lemma critic_below_proposer (r : Z) :
  (1 <= r)%Z -> (critic_confidence r < proposer_confidence r)%Q.
Proof.
  intros Hr.
  assert (inject_Z 1 <= inject_Z r)%Q as H1 by (rewrite <- Zle_Qle; exact Hr).
  change (inject_Z 1) with 1%Q in H1.
  unfold critic_confidence, proposer_confidence. lra.
Qed.

Lemma score_entropy (pos : string) (r : Z) :
  (1 <= r)%Z ->
  consensus_score (make_round "entropy_reduction" pos r) = critic_confidence r.
Proof.
  intros Hr.
  change (consensus_score (make_round "entropy_reduction" pos r))
    with (fmin (proposer_confidence r) (critic_confidence r)).
  unfold fmin.
  rewrite (proj2 (Qltb_true _ _) (critic_below_proposer r Hr)). reflexivity.
Qed.

Lemma score_other (strat pos : string) (r : Z) :
  strat <> "entropy_reduction" -> strat <> "agreement_measure" ->
  consensus_score (make_round strat pos r) = (1 # 2)%Q.
Proof.
  intros H1 H2. simpl. unfold _calculate_consensus.
  apply String.eqb_neq in H1, H2. rewrite H1, H2. reflexivity.
Qed.

(** The score of round [r >= 1] under each strategy: the critic's
    confidence (the smaller of the two) under [entropy_reduction], the mean
    of the two confidences under [agreement_measure], and 0.5 under any
    other strategy name. *)
Theorem round_score_by_strategy (strat pos : string) (r : Z) :
  (1 <= r)%Z ->
  (strat = "entropy_reduction" ->
   consensus_score (make_round strat pos r) = critic_confidence r) /\
  (strat = "agreement_measure" ->
   consensus_score (make_round strat pos r) =
     ((proposer_confidence r + critic_confidence r) / 2)%Q) /\
  (strat <> "entropy_reduction" -> strat <> "agreement_measure" ->
   consensus_score (make_round strat pos r) = (1 # 2)%Q) /\
  (critic_confidence r < proposer_confidence r)%Q.
Proof.
  intros Hr. repeat split.
  - intros ->. apply score_entropy. exact Hr.
  - intros ->. reflexivity.
  - apply score_other.
  - apply critic_below_proposer. exact Hr.
Qed.

Lemma round_score_by_strategy_witness :
  consensus_score (make_round "entropy_reduction" "p" 3) = critic_confidence 3 /\
  consensus_score (make_round "agreement_measure" "p" 3) =
    ((proposer_confidence 3 + critic_confidence 3) / 2)%Q /\
  consensus_score (make_round "majority" "p" 3) = (1 # 2)%Q.
Proof.
  split; [ | split].
  - apply (proj1 (round_score_by_strategy "entropy_reduction" "p" 3 ltac:(lia))).
    reflexivity.
  - apply (proj1 (proj2 (round_score_by_strategy "agreement_measure" "p" 3 ltac:(lia)))).
    reflexivity.
  - apply (proj1 (proj2 (proj2 (round_score_by_strategy "majority" "p" 3 ltac:(lia)))));
      discriminate.
Defined.

(** Mean over rounds 1..R of a score that is affine in the round number. *)
Lemma mean_affine (a b : Q) (f : Z -> Q) (R : Z) :
  (1 <= R)%Z ->
  (forall r, In r (seqZ 1 R) -> (f r == a + inject_Z r * b)%Q) ->
  (py_sum (map f (seqZ 1 R)) / inject_Z R == a + b * (inject_Z R + 1) / 2)%Q.
Proof.
  intros HR Hf. rewrite (py_sum_map_ext f (fun r => a + inject_Z r * b)%Q) by exact Hf.
  replace R with (Z.of_nat (Z.to_nat R)) by lia. rewrite py_sum_affine.
  assert (inject_Z 1 <= inject_Z (Z.of_nat (Z.to_nat R)))%Q as H1
    by (rewrite <- Zle_Qle; lia).
  change (inject_Z 1) with 1%Q in H1. field. lra.
Qed.

(** For at least one round the verdict depends on the strategy and the
    number of rounds only.  Under [entropy_reduction] the mean score is
    0.72 + 0.02 R and consensus is reached exactly when R >= 2; under
    [agreement_measure] the mean is 0.7725 + 0.0225 R and consensus is
    always reached; under any other strategy name the mean is 0.5 and
    consensus is never reached. *)
Theorem debate_verdict_by_strategy (d : DebateOrchestrator) (topic_ pos : string) :
  (1 <= num_rounds d)%Z ->
  exists res,
    fst (run_debate d topic_ pos) = Ok res /\
    (scoring_strategy d = "entropy_reduction" ->
     (avg_consensus_score res == (72 # 100) + (2 # 100) * inject_Z (num_rounds d))%Q /\
     (consensus_reached res = true <-> (2 <= num_rounds d)%Z)) /\
    (scoring_strategy d = "agreement_measure" ->
     (avg_consensus_score res ==
      (7725 # 10000) + (225 # 10000) * inject_Z (num_rounds d))%Q /\
     consensus_reached res = true) /\
    (scoring_strategy d <> "entropy_reduction" ->
     scoring_strategy d <> "agreement_measure" ->
     (avg_consensus_score res == 1 # 2)%Q /\ consensus_reached res = false).
Proof.
  intros HR. rewrite (run_debate_ok d topic_ pos HR). eexists. split; [reflexivity | ].
  cbn [avg_consensus_score consensus_reached].
  set (R := num_rounds d) in *.
  assert (inject_Z 1 <= inject_Z R)%Q as H1 by (rewrite <- Zle_Qle; exact HR).
  change (inject_Z 1) with 1%Q in H1.
  assert (forall r, In r (seqZ 1 R) -> (1 <= r)%Z) as Hrange.
  { intros r Hr. apply list_elem_of_In, elem_of_seqZ in Hr. lia. }
  split; [ | split].
  - intros Hs. rewrite Hs.
    assert (py_sum (map (fun r => consensus_score (make_round "entropy_reduction" pos r))
                        (seqZ 1 R)) / inject_Z R ==
            (72 # 100) + (2 # 100) * inject_Z R)%Q as Havg.
    { rewrite (mean_affine (7 # 10) (4 # 100)); [field | exact HR | ].
      intros r Hr. rewrite score_entropy by (apply Hrange; exact Hr).
      unfold critic_confidence. reflexivity. }
    split; [exact Havg | ].
    rewrite (Qltb_proper _ _ _ Havg), Qltb_true. split.
    + intros Hlt. destruct (Z_le_gt_dec 2 R) as [Hge | Hgt]; [exact Hge | ].
      assert (inject_Z R <= inject_Z 1)%Q as H2 by (rewrite <- Zle_Qle; lia).
      change (inject_Z 1) with 1%Q in H2. lra.
    + intros Hge.
      assert (inject_Z 2 <= inject_Z R)%Q as H2 by (rewrite <- Zle_Qle; exact Hge).
      change (inject_Z 2) with 2%Q in H2. lra.
  - intros Hs. rewrite Hs.
    assert (py_sum (map (fun r => consensus_score (make_round "agreement_measure" pos r))
                        (seqZ 1 R)) / inject_Z R ==
            (7725 # 10000) + (225 # 10000) * inject_Z R)%Q as Havg.
    { rewrite (mean_affine (75 # 100) (45 # 1000)); [field | exact HR | ].
      intros r Hr.
      change (consensus_score (make_round "agreement_measure" pos r))
        with ((proposer_confidence r + critic_confidence r) / 2)%Q.
      unfold proposer_confidence, critic_confidence. field. }
    split; [exact Havg | ].
    rewrite (Qltb_proper _ _ _ Havg). apply Qltb_true. lra.
  - intros Hs1 Hs2.
    assert (py_sum (map (fun r => consensus_score (make_round (scoring_strategy d) pos r))
                        (seqZ 1 R)) / inject_Z R == 1 # 2)%Q as Havg.
    { rewrite (mean_affine (1 # 2) 0); [field | exact HR | ].
      intros r Hr. rewrite score_other by assumption. field. }
    split; [exact Havg | ].
    rewrite (Qltb_proper _ _ _ Havg). apply Qltb_false. lra.
Qed.

Lemma debate_verdict_by_strategy_witness :
  exists res,
    fst (run_debate (new_debate 1 "entropy_reduction") "t" "p") = Ok res /\
    (avg_consensus_score res == (72 # 100) + (2 # 100) * inject_Z 1)%Q /\
    (consensus_reached res = true <-> (2 <= 1)%Z).
Proof.
  destruct (debate_verdict_by_strategy (new_debate 1 "entropy_reduction") "t" "p")
    as (res & Hres & Hentropy & _).
  - simpl. lia.
  - exists res. split; [exact Hres | ]. apply Hentropy. reflexivity.
Defined.

(** For at least one round the reported final confidences are those of
    round R, 0.8 + 0.05 R for the proposer and 0.7 + 0.04 R for the critic,
    [total_rounds] is R, and the proposer's final confidence is at most 1
    exactly when R <= 4. *)
Theorem debate_final_confidences (d : DebateOrchestrator) (topic_ pos : string) :
  (1 <= num_rounds d)%Z ->
  exists res,
    fst (run_debate d topic_ pos) = Ok res /\
    total_rounds res = num_rounds d /\
    proposer_final_confidence res =
      ((8 # 10) + inject_Z (num_rounds d) * (5 # 100))%Q /\
    critic_final_confidence res =
      ((7 # 10) + inject_Z (num_rounds d) * (4 # 100))%Q /\
    ((proposer_final_confidence res <= 1)%Q <-> (num_rounds d <= 4)%Z) /\
    length (rounds (snd (run_debate d topic_ pos))) = Z.to_nat (num_rounds d).
Proof.
  intros HR. rewrite (run_debate_ok d topic_ pos HR). eexists. split; [reflexivity | ].
  cbn [total_rounds proposer_final_confidence critic_final_confidence].
  repeat split.
  - unfold proposer_confidence. intros Hle.
    destruct (Z_le_gt_dec (num_rounds d) 4) as [H4 | H5]; [exact H4 | ].
    assert (inject_Z 5 <= inject_Z (num_rounds d))%Q as H by (rewrite <- Zle_Qle; lia).
    change (inject_Z 5) with 5%Q in H. lra.
  - unfold proposer_confidence. intros H4.
    assert (inject_Z (num_rounds d) <= inject_Z 4)%Q as H by (rewrite <- Zle_Qle; lia).
    change (inject_Z 4) with 4%Q in H. lra.
  - rewrite run_debate_rounds, py_range_from_one, length_map, length_seqZ. reflexivity.
Qed.

Lemma debate_final_confidences_witness :
  exists res,
    fst (run_debate (new_debate 5 "agreement_measure") "t" "p") = Ok res /\
    total_rounds res = 5%Z /\
    proposer_final_confidence res = ((8 # 10) + inject_Z 5 * (5 # 100))%Q /\
    critic_final_confidence res = ((7 # 10) + inject_Z 5 * (4 # 100))%Q /\
    ((proposer_final_confidence res <= 1)%Q <-> (5 <= 4)%Z) /\
    length (rounds (snd (run_debate (new_debate 5 "agreement_measure") "t" "p"))) =
      Z.to_nat 5.
Proof.
  apply (debate_final_confidences (new_debate 5 "agreement_measure") "t" "p").
  simpl. lia.
Defined.

(** With [num_rounds <= 0] no round is generated and averaging the empty
    round list raises [ZeroDivisionError]; the stale rounds of an earlier
    debate are discarded all the same. *)
Theorem run_debate_without_rounds (d : DebateOrchestrator) (topic_ pos : string) :
  (num_rounds d <= 0)%Z ->
  fst (run_debate d topic_ pos) = Raise ZeroDivisionError /\
  rounds (snd (run_debate d topic_ pos)) = [].
Proof.
  intros HR.
  assert (rounds (snd (run_debate d topic_ pos)) = []) as Hempty.
  { rewrite run_debate_rounds, py_range_from_one, seqZ_nil by lia. reflexivity. }
  split; [ | exact Hempty].
  unfold run_debate in *. simpl in *. unfold _generate_consensus. simpl rounds.
  rewrite Hempty. reflexivity.
Qed.

Lemma run_debate_without_rounds_witness :
  fst (run_debate (new_debate (-2) "entropy_reduction") "t" "p") =
    Raise ZeroDivisionError /\
  rounds (snd (run_debate (new_debate (-2) "entropy_reduction") "t" "p")) = [].
Proof.
  apply (run_debate_without_rounds (new_debate (-2) "entropy_reduction") "t" "p").
  simpl. lia.
Defined.
End DebateMore.

(** ** Pipeline: every run, stage by stage *)

Section PipelineMore.
Import Pipeline PipelineSpec.
Context {Value : Type}.
Implicit Types (p : PipelineOrchestrator Value) (stage : PipelineStage Value).
Implicit Types (data : gmap string Value) (skip : list string).

Lemma validate_spec (s : SchemaValidation) data :
  validate s data = true <->
  Forall (fun field => is_Some (data !! field)) (required_fields s).
Proof.
  unfold validate. rewrite forallb_forall, Forall_forall. split; intros H f Hf.
  - apply list_elem_of_In, H, bool_decide_eq_true in Hf. exact Hf.
  - apply bool_decide_eq_true, H, list_elem_of_In. exact Hf.
Qed.

(** [validate] accepts exactly the dictionaries that bind every required
    field; the optional fields play no part, and a dictionary that extends
    an accepted one is accepted too. *)
Theorem validate_required_fields (s : SchemaValidation) data data' :
  (validate s data = true <->
   Forall (fun field => is_Some (data !! field)) (required_fields s)) /\
  (validate s data = true -> data ⊆ data' -> validate s data' = true) /\
  (required_fields s = [] -> validate s data = true).
Proof.
  split; [apply validate_spec | split].
  - rewrite !validate_spec. intros H Hsub.
    eapply Forall_impl; [exact H | ]. intros f [v Hv].
    exists v. eapply lookup_weaken; eassumption.
  - intros H. unfold validate. rewrite H. reflexivity.
Qed.

Lemma passes_length skip pre data out entries :
  passes skip pre data out entries ->
  length entries = length (List.filter (fun s => negb (skipped skip s)) pre).
Proof.
  intros H. apply passes_names in H. apply (f_equal (@length string)) in H.
  rewrite !length_map in H. exact H.
Qed.

Lemma passes_last skip pre data out entries :
  passes skip pre data out entries ->
  match last entries with
  | Some entry => snd entry = out
  | None => out = data
  end.
Proof.
  induction 1 as [data | stage pre data out entries Hskip _ IH
                 | stage pre data mid out entries Hskip _ _ IH]; simpl.
  - reflexivity.
  - exact IH.
  - destruct entries as [ | e es]; [symmetry; exact IH | ].
    change (last ((name stage, mid) :: e :: es)) with (last (e :: es)).
    destruct (last (e :: es)) eqn:El; [exact IH | ].
    apply last_None in El. discriminate El.
Qed.

(** Where the entries of a passing prefix come from. *)
Lemma passes_provenance skip pre data out entries :
  passes skip pre data out entries ->
  Forall (fun entry =>
            exists stage, In stage pre /\ name stage = fst entry /\
                          skipped skip stage = false /\
                          validate (output_schema stage) (snd entry) = true)
         entries.
Proof.
  induction 1 as [data | stage pre data out entries Hskip _ IH
                 | stage pre data mid out entries Hskip (_ & _ & Hout) _ IH].
  - constructor.
  - eapply Forall_impl; [exact IH | ].
    intros e (st & Hin & Hrest). exists st. split; [right; exact Hin | exact Hrest].
  - constructor.
    + exists stage. simpl. auto.
    + eapply Forall_impl; [exact IH | ].
      intros e (st & Hin & Hrest). exists st. split; [right; exact Hin | exact Hrest].
Qed.

Lemma run_stages_decompose skip (todo : list (PipelineStage Value)) :
  forall data history,
  exists pre mid entries,
    passes skip pre data mid entries /\
    snd (run_stages todo skip data history) = history ++ entries /\
    ((fst (run_stages todo skip data history) = Some mid /\ pre = todo) \/
     (fst (run_stages todo skip data history) = None /\
      exists stage post,
        todo = pre ++ stage :: post /\ skipped skip stage = false /\
        stage_aborts stage mid)).
Proof.
  induction todo as [ | st todo IH]; intros data history.
  - exists [], data, []. simpl. rewrite app_nil_r.
    split; [constructor | ]. split; [reflexivity | left; auto].
  - simpl. destruct (skipped skip st) eqn:Hskip.
    + destruct (IH data history) as (pre & mid & entries & Hp & Hh & Hr).
      exists (st :: pre), mid, entries.
      split; [apply passes_skip; assumption | ]. split; [exact Hh | ].
      destruct Hr as [[Hf ->] | (Hf & stage & post & -> & Hs & Ha)].
      * left. auto.
      * right. split; [exact Hf | ]. exists stage, post. auto.
    + destruct (validate (input_schema st) data) eqn:Hin; simpl.
      2:{ exists [], data, []. rewrite app_nil_r.
          split; [constructor | ]. split; [reflexivity | ]. right.
          split; [reflexivity | ]. exists st, todo.
          split; [reflexivity | ]. split; [exact Hskip | ]. left. exact Hin. }
      destruct (stage_execute st data) as [out | ] eqn:Hex.
      2:{ exists [], data, []. rewrite app_nil_r.
          split; [constructor | ]. split; [reflexivity | ]. right.
          split; [reflexivity | ]. exists st, todo.
          split; [reflexivity | ]. split; [exact Hskip | ]. right. left. auto. }
      destruct (validate (output_schema st) out) eqn:Hout; simpl.
      2:{ exists [], data, []. rewrite app_nil_r.
          split; [constructor | ]. split; [reflexivity | ]. right.
          split; [reflexivity | ]. exists st, todo.
          split; [reflexivity | ]. split; [exact Hskip | ]. right. right.
          exists out. auto. }
      destruct (IH out (history ++ [(name st, out)]))
        as (pre & mid & entries & Hp & Hh & Hr).
      exists (st :: pre), mid, ((name st, out) :: entries).
      split.
      { apply passes_run; [exact Hskip | | exact Hp]. repeat split; assumption. }
      split; [rewrite Hh, <- app_assoc; reflexivity | ].
      destruct Hr as [[Hf ->] | (Hf & stage & post & -> & Hs & Ha)].
      * left. auto.
      * right. split; [exact Hf | ]. exists stage, post. auto.
Qed.

Lemma execute_unfold p data (skip_stages : option (list string)) :
  execute p data skip_stages =
  (fst (run_stages (stages p) (default [] skip_stages) data (execution_history p)),
   {| pipeline_name := pipeline_name p; stages := stages p;
      execution_history :=
        snd (run_stages (stages p) (default [] skip_stages) data
                        (execution_history p)) |}).
Proof.
  unfold execute.
  destruct (run_stages (stages p) (default [] skip_stages) data (execution_history p)).
  reflexivity.
Qed.

(** Every run of [execute] has one of two shapes.  A prefix of the stage
    list passes (its skipped stages left out), taking the input to [mid] and
    appending one trace entry per executed stage; then either the prefix is
    the whole list and [mid] is returned, or the next non-skipped stage
    aborts on [mid] (input schema, [None] from its execution, or output
    schema) and [None] is returned.  The stage list and the name are left
    as they were. *)
Theorem execute_run_shape p data (skip_stages : option (list string)) :
  exists pre mid entries,
    passes (default [] skip_stages) pre data mid entries /\
    get_execution_trace (snd (execute p data skip_stages)) =
      execution_history p ++ entries /\
    stages (snd (execute p data skip_stages)) = stages p /\
    pipeline_name (snd (execute p data skip_stages)) = pipeline_name p /\
    ((fst (execute p data skip_stages) = Some mid /\ pre = stages p) \/
     (fst (execute p data skip_stages) = None /\
      exists stage post,
        stages p = pre ++ stage :: post /\
        skipped (default [] skip_stages) stage = false /\
        stage_aborts stage mid)).
Proof.
  rewrite execute_unfold. simpl. unfold get_execution_trace. simpl.
  destruct (run_stages_decompose (default [] skip_stages) (stages p) data
              (execution_history p)) as (pre & mid & entries & Hp & Hh & Hr).
  exists pre, mid, entries. auto.
Qed.

(** [execute] only ever appends to the trace: the earlier entries stay in
    place, at most one entry per stage is added, and each added entry names
    a stage of the pipeline that was not skipped and carries data that
    satisfies that stage's output schema. *)
Theorem execute_trace_grows p data (skip_stages : option (list string)) :
  exists added,
    get_execution_trace (snd (execute p data skip_stages)) =
      execution_history p ++ added /\
    length added <= length (stages p) /\
    Forall (fun entry =>
              exists stage, In stage (stages p) /\ name stage = fst entry /\
                            skipped (default [] skip_stages) stage = false /\
                            validate (output_schema stage) (snd entry) = true)
           added.
Proof.
  rewrite execute_unfold. unfold get_execution_trace. simpl.
  destruct (run_stages_decompose (default [] skip_stages) (stages p) data
              (execution_history p)) as (pre & mid & entries & Hp & Hh & Hr).
  exists entries. split; [exact Hh | ].
  assert (exists post, stages p = pre ++ post) as (post & Hsplit).
  { destruct Hr as [[_ ->] | (_ & stage & post & -> & _)].
    - exists []. rewrite app_nil_r. reflexivity.
    - exists (stage :: post). reflexivity. }
  split.
  - rewrite (passes_length _ _ _ _ _ Hp), Hsplit, length_app.
    pose proof (List.filter_length_le
                  (fun s => negb (skipped (default [] skip_stages) s)) pre). lia.
  - eapply Forall_impl; [exact (passes_provenance _ _ _ _ _ Hp) | ].
    intros e (st & Hin & Hrest). exists st. split; [ | exact Hrest].
    rewrite Hsplit. apply in_or_app. left. exact Hin.
Qed.

(** When every non-skipped stage passes, [execute] returns the output of
    the last executed stage (the input itself when none was executed) and
    appends one trace entry per executed stage, the last of which carries
    the returned data. *)
Theorem execute_all_pass p data (skip_stages : option (list string)) out entries :
  passes (default [] skip_stages) (stages p) data out entries ->
  execute p data skip_stages =
    (Some out,
     {| pipeline_name := pipeline_name p; stages := stages p;
        execution_history := execution_history p ++ entries |}) /\
  length entries =
    length (List.filter (fun s => negb (skipped (default [] skip_stages) s))
                        (stages p)) /\
  match last entries with
  | Some entry => snd entry = out
  | None => out = data
  end.
Proof.
  intros Hp. split; [ | split].
  - rewrite execute_unfold.
    pose proof (run_stages_passes _ _ _ _ _ Hp [] (execution_history p)) as Hrun.
    rewrite app_nil_r in Hrun. rewrite Hrun. reflexivity.
  - exact (passes_length _ _ _ _ _ Hp).
  - exact (passes_last _ _ _ _ _ Hp).
Qed.

(** When the stages before [stage] pass and [stage], not skipped, aborts
    (its input schema rejects the current data, or its execution yields
    [None], or its output schema rejects the output), [execute] returns
    [None] and the trace keeps its earlier entries followed by those of the
    stages that passed. *)
Theorem execute_abort p data (skip_stages : option (list string))
    pre stage post mid entries :
  stages p = pre ++ stage :: post ->
  passes (default [] skip_stages) pre data mid entries ->
  skipped (default [] skip_stages) stage = false ->
  stage_aborts stage mid ->
  execute p data skip_stages =
    (None,
     {| pipeline_name := pipeline_name p; stages := stages p;
        execution_history := execution_history p ++ entries |}).
Proof.
  intros Hst Hp Hskip Habort. rewrite execute_unfold.
  assert (run_stages (stages p) (default [] skip_stages) data (execution_history p) =
          (None, execution_history p ++ entries)) as ->; [ | reflexivity].
  rewrite Hst, (run_stages_passes _ _ _ _ _ Hp). simpl. rewrite Hskip.
  destruct Habort as [Hin | [[Hin Hex] | (out & Hin & Hex & Hout)]].
  - rewrite Hin. reflexivity.
  - rewrite Hin, Hex. reflexivity.
  - rewrite Hin, Hex, Hout. reflexivity.
Qed.

(** A run in which every stage is named in [skip_stages] returns the input
    and leaves the orchestrator, trace included, as it was. *)
Theorem execute_all_skipped p data (skip : list string) :
  Forall (fun stage => In (name stage) skip) (stages p) ->
  execute p data (Some skip) = (Some data, p).
Proof.
  intros Hall.
  assert (passes skip (stages p) data data []) as Hp.
  { induction Hall as [ | st sts Hst _ IH]; [constructor | ].
    apply passes_skip; [ | exact IH].
    unfold skipped. apply existsb_exists. exists (name st).
    split; [exact Hst | apply String.eqb_refl]. }
  rewrite execute_unfold.
  pose proof (run_stages_passes _ _ _ _ _ Hp [] (execution_history p)) as Hrun.
  rewrite !app_nil_r in Hrun. simpl default. rewrite Hrun. simpl.
  destruct p. reflexivity.
Qed.

Lemma run_stages_app skip (first second : list (PipelineStage Value)) :
  forall data history,
    run_stages (first ++ second) skip data history =
    match run_stages first skip data history with
    | (Some mid, history') => run_stages second skip mid history'
    | (None, history') => (None, history')
    end.
Proof.
  induction first as [ | st first IH]; intros data history; simpl; [reflexivity | ].
  destruct (skipped skip st); [apply IH | ].
  destruct (validate (input_schema st) data); simpl; [ | reflexivity].
  destruct (stage_execute st data) as [out | ]; [ | reflexivity].
  destruct (validate (output_schema st) out); simpl; [apply IH | reflexivity].
Qed.

(** A stage added with [add_stage] runs last: the earlier stages behave as
    in the pipeline without it; if they fail the run fails with the same
    trace, and otherwise the new stage alone is run on their result. *)
Theorem execute_add_stage p stage data (skip_stages : option (list string)) :
  execute (add_stage p stage) data skip_stages =
  match execute p data skip_stages with
  | (None, p') => (None, add_stage p' stage)
  | (Some mid, p') =>
      (fst (run_stages [stage] (default [] skip_stages) mid (execution_history p')),
       {| pipeline_name := pipeline_name p; stages := stages p ++ [stage];
          execution_history :=
            snd (run_stages [stage] (default [] skip_stages) mid
                            (execution_history p')) |})
  end.
Proof.
  rewrite !execute_unfold. unfold add_stage at 1 2 3 4. simpl.
  rewrite run_stages_app.
  destruct (run_stages (stages p) (default [] skip_stages) data (execution_history p))
    as [[mid | ] history']; reflexivity.
Qed.
End PipelineMore.

Section PipelineMoreWitnesses.
Import Pipeline PipelineSpec PipelineExamples.

Lemma validate_required_fields_witness :
  validate (needs ["x"]) example_payload = true /\
  validate (needs ["x"]) (<["y" := 1%Z]> example_payload) = true.
Proof.
  split; [reflexivity | ].
  apply (proj1 (proj2 (validate_required_fields (needs ["x"]) example_payload
                         (<["y" := 1%Z]> example_payload)))).
  - reflexivity.
  - apply insert_subseteq. reflexivity.
Defined.

Lemma execute_all_pass_witness :
  execute example_pipeline example_payload (Some ["check"; "store"]) =
    (Some (<["y" := 1%Z]> example_payload),
     {| pipeline_name := "Pipeline"; stages := stages example_pipeline;
        execution_history := [("load", <["y" := 1%Z]> example_payload)] |}).
Proof.
  apply (execute_all_pass example_pipeline example_payload (Some ["check"; "store"])
           (<["y" := 1%Z]> example_payload)
           [("load", <["y" := 1%Z]> example_payload)]).
  apply (passes_run _ load_stage _ example_payload
           (<["y" := 1%Z]> example_payload) (<["y" := 1%Z]> example_payload) []).
  - reflexivity.
  - repeat split; vm_compute; reflexivity.
  - apply passes_skip; [reflexivity | ].
    apply passes_skip; [reflexivity | ]. apply passes_nil.
Defined.

Lemma execute_abort_witness :
  execute example_pipeline example_payload (Some ["check"]) =
    (None,
     {| pipeline_name := "Pipeline"; stages := stages example_pipeline;
        execution_history := [("load", <["y" := 1%Z]> example_payload)] |}).
Proof.
  apply (execute_abort example_pipeline example_payload (Some ["check"])
           [load_stage; check_stage] store_stage []
           (<["y" := 1%Z]> example_payload)
           [("load", <["y" := 1%Z]> example_payload)]).
  - reflexivity.
  - apply (passes_run _ load_stage _ example_payload
             (<["y" := 1%Z]> example_payload) (<["y" := 1%Z]> example_payload) []).
    + reflexivity.
    + repeat split; vm_compute; reflexivity.
    + apply passes_skip; [reflexivity | ]. apply passes_nil.
  - reflexivity.
  - left. vm_compute. reflexivity.
Defined.

Lemma execute_all_skipped_witness :
  execute example_pipeline example_payload (Some ["store"; "load"; "check"]) =
    (Some example_payload, example_pipeline).
Proof.
  apply (execute_all_skipped example_pipeline example_payload
           ["store"; "load"; "check"]).
  constructor; [right; left; reflexivity | ].
  constructor; [right; right; left; reflexivity | ].
  constructor; [left; reflexivity | constructor].
Defined.
End PipelineMoreWitnesses.

(** ** Supervisor: registry, load and the outcomes of a delegation *)

Section SupervisorMore.
Import Supervisor SupervisorSpec.
Context {Value : Type}.
Implicit Types (s : SupervisorAgent Value) (behaviour : Z -> Outcome Value).
Implicit Types (w : WorkerAgent) (e : option string).

Lemma dict_set_length (d : odict WorkerAgent) k w :
  length (dict_set k w d) = if dict_mem k d then length d else S (length d).
Proof.
  unfold dict_mem. induction d as [ | [k0 w0] d IH]; simpl; [reflexivity | ].
  destruct (String.eqb k k0); simpl; [reflexivity | ].
  rewrite IH. destruct (dict_get k d); reflexivity.
Qed.

(** [register_worker] binds the worker under its name: looking the name up
    gives the worker back, every other name is bound as before, a name
    already present is overwritten in place (the registry does not grow),
    a new name makes the registry one longer, and no key is ever
    duplicated. *)
Theorem register_worker_lookup s w :
  dict_get (name w) (workers (register_worker s w)) = Some w /\
  (forall k, k <> name w ->
     dict_get k (workers (register_worker s w)) = dict_get k (workers s)) /\
  length (workers (register_worker s w)) =
    (if dict_mem (name w) (workers s) then length (workers s)
     else S (length (workers s))) /\
  (registry_wf s -> registry_wf (register_worker s w)) /\
  tasks (register_worker s w) = tasks s.
Proof.
  split; [apply dict_get_set_eq | ]. split.
  - intros k Hk. simpl. rewrite dict_get_set_other.
    apply String.eqb_neq in Hk. rewrite Hk. reflexivity.
  - split; [apply dict_set_length | ]. split; [apply register_worker_wf | reflexivity].
Qed.

(** With counters that are not negative the load lies in [0,1]; it is 0
    exactly when the worker never failed, and it is the fraction of failures
    among the finished attempts once there is one. *)
Theorem get_load_range w :
  (0 <= completed_tasks w)%Z -> (0 <= failed_tasks w)%Z ->
  (0 <= get_load w <= 1)%Q /\
  ((get_load w == 0)%Q <-> failed_tasks w = 0%Z) /\
  ((1 <= completed_tasks w + failed_tasks w)%Z ->
   (get_load w * inject_Z (completed_tasks w + failed_tasks w) ==
    inject_Z (failed_tasks w))%Q).
Proof.
  intros Hc Hf. unfold get_load.
  set (n := Z.max 1 (completed_tasks w + failed_tasks w)).
  assert (1 <= n)%Z as Hn by (unfold n; lia).
  assert (failed_tasks w <= n)%Z as Hfn by (unfold n; lia).
  assert (inject_Z 1 <= inject_Z n)%Q as Hn' by (rewrite <- Zle_Qle; exact Hn).
  assert (inject_Z 0 <= inject_Z (failed_tasks w))%Q as Hf'
    by (rewrite <- Zle_Qle; exact Hf).
  assert (inject_Z (failed_tasks w) <= inject_Z n)%Q as Hfn'
    by (rewrite <- Zle_Qle; exact Hfn).
  change (inject_Z 1) with 1%Q in Hn'. change (inject_Z 0) with 0%Q in Hf'.
  split; [ | split].
  - split; [apply Qle_shift_div_l; lra | apply Qle_shift_div_r; lra].
  - split.
    + intros H0.
      assert (inject_Z (failed_tasks w) == 0)%Q as Hz.
      { rewrite <- (Qmult_div_r (inject_Z (failed_tasks w)) (inject_Z n)) by lra.
        rewrite H0. ring. }
      exact (proj1 (inject_Z_injective (failed_tasks w) 0) Hz).
    + intros ->. unfold Qdiv. apply Qmult_0_l.
  - intros H1. replace n with (completed_tasks w + failed_tasks w)%Z in *
      by (unfold n; lia).
    field. lra.
Qed.

Lemma get_load_range_witness :
  (0 <= get_load (mkWorker "w1" None 1 1) <= 1)%Q /\
  ((get_load (mkWorker "w1" None 1 1) == 0)%Q <-> 1%Z = 0%Z) /\
  ((1 <= 1 + 1)%Z -> (get_load (mkWorker "w1" None 1 1) * inject_Z (1 + 1) ==
                      inject_Z 1)%Q).
Proof.
  apply (get_load_range (mkWorker "w1" None 1 1)); simpl; lia.
Defined.

(** Without an eligible worker [delegate_task] returns [None] at once: no
    task is recorded, no worker is touched, nothing is awaited. *)
Theorem delegate_task_no_worker s (task_description : string) e behaviour :
  eligible s e = [] ->
  delegate_task s task_description e behaviour = (Ok None, s, []).
Proof.
  intros H. unfold delegate_task. rewrite select_entry_none; [reflexivity | ].
  rewrite <- candidates_eligible in H.
  destruct (candidates s e); [reflexivity | discriminate].
Qed.



End SupervisorMore.

Section SupervisorMoreWitnesses.
Import Supervisor SupervisorSpec.

Lemma register_worker_lookup_witness :
  dict_get "w2" (workers (register_worker example_supervisor (new_worker "w2" None))) =
    Some (new_worker "w2" None) /\
  dict_get "w1" (workers (register_worker example_supervisor (new_worker "w2" None))) =
    dict_get "w1" (workers example_supervisor) /\
  registry_wf (register_worker example_supervisor (new_worker "w2" None)).
Proof.
  destruct (register_worker_lookup example_supervisor (new_worker "w2" None))
    as (Hget & Hother & _ & Hwf & _).
  split; [exact Hget | ]. split.
  - apply Hother. discriminate.
  - apply Hwf. repeat constructor. simpl. intros [].
Defined.

Lemma delegate_task_no_worker_witness :
  delegate_task example_supervisor "Optimize deployment" (Some "rust") flaky =
    (Ok None, example_supervisor, []).
Proof.
  apply (delegate_task_no_worker example_supervisor "Optimize deployment"
           (Some "rust") flaky).
  reflexivity.
Defined.


End SupervisorMoreWitnesses.

(** ** Supervisor: the task registry and the status report *)

Section SupervisorTasks.
Import Supervisor SupervisorSpec.
Context {Value : Type}.
Implicit Types (s : SupervisorAgent Value) (behaviour : Z -> Outcome Value).

(** What the retry loop can change, whatever the worker does: the task
    under [tid] (its status and result only) and the counters of the worker
    under [key]. *)
Lemma attempts_frame (fuel : nat) :
  forall (attempt : Z) behaviour (key tid : string) s (slept : list Z),
    let s' := snd (fst (attempts fuel attempt behaviour key tid s slept)) in
    dom (tasks s') = dom (tasks s) /\
    (forall k, k <> tid -> tasks s' !! k = tasks s !! k) /\
    (forall t, tasks s !! tid = Some t ->
       exists t', tasks s' !! tid = Some t' /\ task_id t' = task_id t /\
                  description t' = description t /\ assigned_to t' = assigned_to t) /\
    dict_keys (workers s') = dict_keys (workers s) /\
    (forall k, k <> key -> dict_get k (workers s') = dict_get k (workers s)) /\
    max_retries s' = max_retries s.
Proof.
  induction fuel as [ | fuel IH]; intros attempt behaviour key tid s slept.
  - simpl. repeat split; eauto.
  - simpl attempts. destruct (behaviour attempt) as [r | | x].
    + simpl. rewrite !dom_alter_L, !dict_keys_alter. repeat split.
      * intros k Hk. rewrite !lookup_alter_ne by congruence. reflexivity.
      * intros t Ht. rewrite !lookup_alter_eq, Ht. simpl. eauto.
      * intros k Hk. apply dict_get_alter_ne. congruence.
    + match goal with
      | |- context [attempts fuel ?a behaviour key tid ?s1 ?sl] =>
          destruct (IH a behaviour key tid s1 sl)
            as (Hdom & Hother & Htid & Hkeys & Hws & Hmax)
      end.
      cbv zeta. rewrite Hdom, Hkeys, Hmax. simpl.
      rewrite !dom_alter_L, !dict_keys_alter. repeat split.
      * intros k Hk. rewrite Hother by exact Hk. simpl.
        rewrite !lookup_alter_ne by congruence. reflexivity.
      * intros t Ht.
        destruct (Htid (set_status failed (set_status running t)))
          as (t' & Ht' & Hrest).
        { simpl. rewrite !lookup_alter_eq, Ht. reflexivity. }
        exists t'. split; [exact Ht' | exact Hrest].
      * intros k Hk. rewrite Hws by exact Hk. simpl.
        apply dict_get_alter_ne. congruence.
    + simpl. rewrite !dom_alter_L. repeat split.
      * intros k Hk. rewrite !lookup_alter_ne by congruence. reflexivity.
      * intros t Ht. rewrite !lookup_alter_eq, Ht. simpl. eauto.
Qed.

Lemma task_id_fresh s :
  tasks_wf s -> tasks s !! ("task_" +:+ pretty (Z.of_nat (size (tasks s)))) = None.
Proof.
  intros Hwf.
  destruct (tasks s !! ("task_" +:+ pretty (Z.of_nat (size (tasks s))))) eqn:E;
    [ | reflexivity].
  exfalso. assert (is_Some (tasks s !! ("task_" +:+ pretty (Z.of_nat (size (tasks s))))))
    as Hsome by (rewrite E; eauto).
  apply Hwf in Hsome as (i & Hi & Heq).
  apply (inj (String.app "task_")) in Heq. apply (inj pretty) in Heq. lia.
Qed.


Lemma filter_length_Permutation {A : Type} (f : A -> bool) (l l' : list A) :
  l ≡ₚ l' -> length (List.filter f l) = length (List.filter f l').
Proof.
  induction 1 as [ | x l l' _ IH | x y l | l l' l'' _ IH1 _ IH2]; simpl.
  - reflexivity.
  - destruct (f x); simpl; rewrite IH; reflexivity.
  - destruct (f x), (f y); reflexivity.
  - rewrite IH1. exact IH2.
Qed.

Lemma count_status_insert (st : Status) (m : gmap string (Task Value))
    (k : string) (t : Task Value) :
  m !! k = None ->
  count_status st (<[k := t]> m) =
  (count_status st m + (if bool_decide (status t = st) then 1 else 0))%Z.
Proof.
  intros Hk. unfold count_status.
  rewrite (filter_length_Permutation _ _ _ (map_to_list_insert m k t Hk)). simpl.
  destruct (bool_decide (status t = st)); simpl length; lia.
Qed.

Lemma count_status_bounds (m : gmap string (Task Value)) :
  (0 <= count_status completed m)%Z /\ (0 <= count_status failed m)%Z /\
  (count_status completed m + count_status failed m <= Z.of_nat (size m))%Z.
Proof.
  unfold count_status. rewrite <- (length_map_to_list m).
  induction (map_to_list m) as [ | [k t] l IH]; simpl; [lia | ].
  destruct (status t); simpl; lia.
Qed.

(** The report of [get_status] is consistent: the completed and failed
    counts are not negative and together at most the number of tasks, the
    success rate lies in [0,1], times the number of tasks it gives the
    completed count, and it is 0 while no task is recorded. *)
Theorem get_status_consistent s :
  let report := fst (get_status s) in
  (0 <= completed_count report)%Z /\
  (0 <= failed_count report)%Z /\
  (completed_count report + failed_count report <= total_tasks report)%Z /\
  total_tasks report = Z.of_nat (size (tasks s)) /\
  total_workers report = Z.of_nat (length (workers s)) /\
  (0 <= success_rate report <= 1)%Q /\
  ((1 <= total_tasks report)%Z ->
   (success_rate report * inject_Z (total_tasks report) ==
    inject_Z (completed_count report))%Q) /\
  (tasks s = ∅ -> (success_rate report == 0)%Q).
Proof.
  simpl. destruct (count_status_bounds (tasks s)) as (Hc & Hf & Hsum).
  set (c := count_status completed (tasks s)) in *.
  set (n := Z.of_nat (size (tasks s))) in *.
  assert (inject_Z 0 <= inject_Z c)%Q as Hc' by (rewrite <- Zle_Qle; exact Hc).
  assert (inject_Z c <= inject_Z (Z.max 1 n))%Q as Hcn by (rewrite <- Zle_Qle; lia).
  assert (inject_Z 1 <= inject_Z (Z.max 1 n))%Q as H1 by (rewrite <- Zle_Qle; lia).
  change (inject_Z 0) with 0%Q in Hc'. change (inject_Z 1) with 1%Q in H1.
  repeat split; try assumption.
  - apply Qle_shift_div_l; lra.
  - apply Qle_shift_div_r; lra.
  - intros Hn. replace (Z.max 1 n) with n in * by lia. field. lra.
  - intros Hempty. subst c. rewrite Hempty. unfold count_status.
    rewrite map_to_list_empty. simpl. unfold Qdiv. apply Qmult_0_l.
Qed.

(** [get_status] after a delegation that selected a worker, whatever the
    worker then does: one task more in total, and the new task counted
    under the status the delegation left it in ([completed], [failed], or
    neither when a fault left it [running] or no attempt was made). *)
Theorem get_status_after_delegation s (task_description : string)
    (e : option string) behaviour (key : string) (w : WorkerAgent) :
  tasks_wf s ->
  select_entry s e = Ok (Some (key, w)) ->
  exists t,
    tasks (after_delegation s task_description e behaviour)
      !! ("task_" +:+ pretty (Z.of_nat (size (tasks s)))) = Some t /\
    total_tasks (fst (get_status (after_delegation s task_description e behaviour))) =
      (total_tasks (fst (get_status s)) + 1)%Z /\
    completed_count (fst (get_status (after_delegation s task_description e behaviour))) =
      (completed_count (fst (get_status s)) +
       (if bool_decide (status t = completed) then 1 else 0))%Z /\
    failed_count (fst (get_status (after_delegation s task_description e behaviour))) =
      (failed_count (fst (get_status s)) +
       (if bool_decide (status t = failed) then 1 else 0))%Z.
Proof.
  intros Hwf Hsel. pose proof (task_id_fresh s Hwf) as Hfresh.
  unfold after_delegation, delegate_task. rewrite Hsel.
  set (tid := "task_" +:+ pretty (Z.of_nat (size (tasks s)))) in *.
  set (task := {| task_id := tid; description := task_description;
                  assigned_to := Some (name w); status := pending;
                  task_result := None |}).
  simpl task_id.
  set (s0 := set_tasks s (<[tid := task]> (tasks s))).
  destruct (attempts_frame (Z.to_nat (max_retries s0)) 0 behaviour key tid s0 [])
    as (Hdom & Hother & Htid & _).
  set (s' := snd (fst (attempts (Z.to_nat (max_retries s0)) 0 behaviour key tid s0 [])))
    in *.
  destruct (Htid task) as (t' & Ht' & _).
  { subst s0. simpl. apply lookup_insert_eq. }
  assert (tasks s' = <[tid := t']> (tasks s)) as Htasks.
  { apply map_eq. intros k. destruct (decide (k = tid)) as [-> | Hne].
    - rewrite lookup_insert_eq. exact Ht'.
    - rewrite lookup_insert_ne by congruence. rewrite Hother by exact Hne.
      subst s0. simpl. apply lookup_insert_ne. congruence. }
  exists t'. split; [exact Ht' | ]. simpl. rewrite Htasks.
  rewrite !count_status_insert by exact Hfresh.
  rewrite map_size_insert_None by exact Hfresh.
  split; [lia | split; reflexivity].
Qed.
End SupervisorTasks.

Section SupervisorTasksWitnesses.
Import Supervisor SupervisorSpec.

Lemma example_supervisor_tasks_wf : tasks_wf example_supervisor.
Proof.
  intros key. simpl. rewrite lookup_empty. split.
  - intros [t Ht]. discriminate Ht.
  - intros (i & Hi & _). change (size (∅ : gmap string (Task Z))) with 0%nat in Hi. lia.
Qed.


Lemma get_status_after_delegation_witness :
  exists t,
    tasks (after_delegation example_supervisor "Optimize" (Some "python") flaky)
      !! ("task_" +:+ pretty (Z.of_nat (size (tasks example_supervisor)))) = Some t /\
    total_tasks (fst (get_status
                        (after_delegation example_supervisor "Optimize"
                                          (Some "python") flaky))) =
      (total_tasks (fst (get_status example_supervisor)) + 1)%Z /\
    completed_count (fst (get_status
                            (after_delegation example_supervisor "Optimize"
                                              (Some "python") flaky))) =
      (completed_count (fst (get_status example_supervisor)) +
       (if bool_decide (status t = completed) then 1 else 0))%Z /\
    failed_count (fst (get_status
                         (after_delegation example_supervisor "Optimize"
                                           (Some "python") flaky))) =
      (failed_count (fst (get_status example_supervisor)) +
       (if bool_decide (status t = failed) then 1 else 0))%Z.
Proof.
  apply (get_status_after_delegation example_supervisor "Optimize" (Some "python")
           flaky "w1" (new_worker "w1" (Some "python"))).
  - exact example_supervisor_tasks_wf.
  - reflexivity.
Defined.

Lemma get_status_consistent_witness :
  (success_rate (fst (get_status
                        (after_delegation example_supervisor "Optimize"
                                          (Some "python") flaky))) *
   inject_Z (total_tasks (fst (get_status
                                 (after_delegation example_supervisor "Optimize"
                                                   (Some "python") flaky)))) ==
   inject_Z (completed_count (fst (get_status
                                     (after_delegation example_supervisor "Optimize"
                                                       (Some "python") flaky)))))%Q /\
  (success_rate (fst (get_status example_supervisor)) == 0)%Q.
Proof.
  split.
  - apply (get_status_consistent
             (after_delegation example_supervisor "Optimize" (Some "python") flaky)).
    vm_compute. discriminate.
  - apply (get_status_consistent example_supervisor). reflexivity.
Defined.
End SupervisorTasksWitnesses.

(** ** Swarm: deposits, evaporation and the movement of the agents *)

Section SwarmMore.
Import Swarm SwarmSpec.

Lemma fmin_one_cases (a : Q) :
  ((a < 1)%Q /\ fmin 1 a = a) \/ ((1 <= a)%Q /\ fmin 1 a = 1%Q).
Proof.
  unfold fmin. destruct (Qltb a 1) eqn:E.
  - apply Qltb_true in E. left. auto.
  - apply Qltb_false in E. right. auto.
Qed.

Lemma deposit_other env loc loc' v :
  loc' <> loc -> dict_get loc' (deposit env loc v) = dict_get loc' env.
Proof.
  intros Hne. unfold deposit. destruct (dict_mem loc env).
  - apply dict_get_alter_ne. congruence.
  - rewrite dict_get_set_other. apply String.eqb_neq in Hne. rewrite Hne. reflexivity.
Qed.

(** Deposits without evaporation accumulate up to the ceiling.  After
    [k >= 1] deposits of an amount [v] in [0,1] at a location that had no
    pheromone, the stored value is [min(1, k * v)]: it never decreases from
    one deposit to the next and stays at 1 once [k * v >= 1]; the entry's
    age stays 0 and the other locations are not touched. *)
Theorem deposit_saturates (env : odict Pheromone) (loc : string) (v : Q) (k : nat) :
  in_unit v ->
  dict_get loc env = None ->
  (1 <= k)%nat ->
  exists p,
    dict_get loc (deposit_times k env loc v) = Some p /\
    (value p == fmin 1 (inject_Z (Z.of_nat k) * v))%Q /\
    age p = 0%Z /\
    (exists q, dict_get loc (deposit_times (S k) env loc v) = Some q /\
               (value p <= value q <= 1)%Q) /\
    (forall loc', loc' <> loc ->
       dict_get loc' (deposit_times k env loc v) = dict_get loc' env).
Proof.
  intros [Hv0 Hv1] Hfresh Hk.
  assert (forall j : nat,
            exists p, dict_get loc (deposit_times (S j) env loc v) = Some p /\
                      (value p == fmin 1 (inject_Z (Z.of_nat (S j)) * v))%Q /\
                      age p = 0%Z) as Hstep.
  { induction j as [ | j (p & Hp & Hval & Hage)].
    - change (deposit_times 1 env loc v) with (deposit env loc v).
      rewrite deposit_fresh by exact Hfresh. eexists. split; [reflexivity | ].
      cbn [value age]. split; [ | reflexivity].
      change (inject_Z (Z.of_nat 1)) with 1%Q.
      destruct (fmin_one_cases (1 * v)) as [[_ ->] | [H1 ->]]; lra.
    - change (deposit_times (S (S j)) env loc v)
        with (deposit (deposit_times (S j) env loc v) loc v).
      rewrite (deposit_existing _ _ _ _ Hp). eexists. split; [reflexivity | ].
      cbn [value age set_value]. split; [ | exact Hage].
      rewrite (Nat2Z.inj_succ (S j)). unfold Z.succ. rewrite inject_Z_plus.
      change (inject_Z 1) with 1%Q.
      set (n := inject_Z (Z.of_nat (S j))) in *.
      destruct (fmin_one_cases (n * v)) as [[Ha Ea] | [Ha Ea]];
        rewrite Ea in Hval;
        destruct (fmin_one_cases (value p + v)) as [[Hb ->] | [Hb ->]];
        destruct (fmin_one_cases ((n + 1) * v)) as [[Hc ->] | [Hc ->]]; lra. }
  assert (forall loc' j, loc' <> loc ->
            dict_get loc' (deposit_times j env loc v) = dict_get loc' env) as Hother.
  { intros loc' j Hne. induction j as [ | j IH]; [reflexivity | ].
    simpl. rewrite deposit_other by exact Hne. exact IH. }
  destruct k as [ | j]; [lia | ].
  destruct (Hstep j) as (p & Hp & Hval & Hage).
  exists p. split; [exact Hp | ]. split; [exact Hval | ]. split; [exact Hage | ].
  split; [ | intros loc' Hne; apply Hother; exact Hne].
  change (deposit_times (S (S j)) env loc v)
    with (deposit (deposit_times (S j) env loc v) loc v).
  rewrite (deposit_existing _ _ _ _ Hp). eexists. split; [reflexivity | ].
  cbn [value set_value].
  assert (value p <= 1)%Q as Hp1.
  { rewrite Hval. apply fmin_le_l. }
  destruct (fmin_one_cases (value p + v)) as [[Hb ->] | [Hb ->]]; lra.
Qed.

Lemma deposit_saturates_witness :
  exists p,
    dict_get "origin" (deposit_times 12 [] "origin" (1 # 10)) = Some p /\
    (value p == fmin 1 (inject_Z (Z.of_nat 12) * (1 # 10)))%Q /\
    age p = 0%Z /\
    (exists q, dict_get "origin" (deposit_times 13 [] "origin" (1 # 10)) = Some q /\
               (value p <= value q <= 1)%Q) /\
    (forall loc', loc' <> "origin" ->
       dict_get loc' (deposit_times 12 [] "origin" (1 # 10)) = dict_get loc' []).
Proof.
  apply (deposit_saturates [] "origin" (1 # 10) 12).
  - unfold in_unit. lra.
  - reflexivity.
  - lia.
Defined.

Lemma dict_get_map_values {A B : Type} (f : A -> B) (d : odict A) (k : string) :
  dict_get k (map (fun kv => (fst kv, f (snd kv))) d) = f <$> dict_get k d.
Proof.
  induction d as [ | [k' v'] d IH]; simpl; [reflexivity | ].
  destruct (String.eqb k k'); [reflexivity | exact IH].
Qed.

(** Evaporation never removes an entry: the locations and their order are
    kept, every value is multiplied by [1 - decay_rate] and every age grows
    by one.  With a decay rate in [0,1] and values that are not negative no
    value increases or becomes negative. *)
Theorem evaporate_keeps_entries (s : SwarmIntelligence) :
  dict_keys (environment_pheromones (evaporate_pheromones s)) =
    dict_keys (environment_pheromones s) /\
  (forall loc p,
     dict_get loc (environment_pheromones s) = Some p ->
     dict_get loc (environment_pheromones (evaporate_pheromones s)) =
       Some {| location := location p;
               value := (value p * (1 - decay_rate s))%Q;
               age := (age p + 1)%Z |}) /\
  (in_unit (decay_rate s) ->
   forall loc,
     (0 <= pheromone_at (environment_pheromones s) loc)%Q ->
     (0 <= pheromone_at (environment_pheromones (evaporate_pheromones s)) loc <=
      pheromone_at (environment_pheromones s) loc)%Q) /\
  agents (evaporate_pheromones s) = agents s /\
  timestep (evaporate_pheromones s) = timestep s.
Proof.
  split; [ | split; [ | split; [ | split; reflexivity]]].
  - simpl. unfold evaporate, dict_keys. rewrite map_map. reflexivity.
  - intros loc p Hp. simpl. unfold evaporate.
    rewrite (dict_get_map_values
               (fun q => {| location := location q;
                            value := (value q * (1 - decay_rate s))%Q;
                            age := (age q + 1)%Z |})), Hp.
    reflexivity.
  - intros [Hd0 Hd1] loc. unfold pheromone_at. simpl. unfold evaporate.
    rewrite (dict_get_map_values
               (fun q => {| location := location q;
                            value := (value q * (1 - decay_rate s))%Q;
                            age := (age q + 1)%Z |})).
    destruct (dict_get loc (environment_pheromones s)) as [p | ]; simpl; [ | lra].
    intros Hp. nra.
Qed.

Lemma evaporate_keeps_entries_witness :
  dict_get "x" (environment_pheromones
                  (evaporate_pheromones (deposit_pheromone (new_swarm 2 1) "x" (1 # 2)))) =
    Some {| location := "x"; value := ((1 # 2) * (1 - 1))%Q; age := (0 + 1)%Z |} /\
  (0 <= pheromone_at (environment_pheromones
                        (evaporate_pheromones
                           (deposit_pheromone (new_swarm 2 1) "x" (1 # 2)))) "x" <=
   pheromone_at (environment_pheromones
                   (deposit_pheromone (new_swarm 2 1) "x" (1 # 2))) "x")%Q.
Proof.
  destruct (evaporate_keeps_entries (deposit_pheromone (new_swarm 2 1) "x" (1 # 2)))
    as (_ & Hget & Hrange & _).
  split.
  - apply (Hget "x" {| location := "x"; value := 1 # 2; age := 0 |}). reflexivity.
  - apply Hrange.
    + unfold in_unit. simpl. lra.
    + vm_compute. discriminate.
Defined.

(** *** One iteration *)

Lemma max_from_ext {A : Type} (key key' : A -> Q) (xs : list A) :
  (forall x, key x = key' x) ->
  forall best, max_from key best xs = max_from key' best xs.
Proof.
  intros Hext. induction xs as [ | x xs IH]; intros best; simpl; [reflexivity | ].
  rewrite !Hext. apply IH.
Qed.

Lemma max_from_In {A : Type} (key : A -> Q) (xs : list A) :
  forall best, In (max_from key best xs) (best :: xs).
Proof.
  induction xs as [ | x xs IH]; intros best; simpl; [left; reflexivity | ].
  destruct (IH (if Qltb (key best) (key x) then x else best)) as [H | H].
  - destruct (Qltb (key best) (key x)); [right; left | left]; exact H.
  - right. right. exact H.
Qed.

(** The snapshot [update_agent_positions] takes of the pheromone map. *)
Lemma snapshot_lookup (env : odict Pheromone) (loc : string) :
  default 0%Q (dict_get loc (map (fun kp => (fst kp, value (snd kp))) env)) =
  pheromone_at env loc.
Proof.
  unfold pheromone_at. rewrite (dict_get_map_values value). reflexivity.
Qed.

Lemma decide_target (env : odict Pheromone) (a : SwarmAgent) :
  decide_next_location
    (sense_pheromones a (map (fun kp => (fst kp, value (snd kp))) env)) =
  Ok (target env a).
Proof.
  unfold decide_next_location, target. simpl.
  destruct env as [ | [k p] env]; [reflexivity | ].
  simpl. f_equal. unfold dict_keys. rewrite map_map. simpl.
  apply max_from_ext. intros loc.
  exact (snapshot_lookup ((k, p) :: env) loc).
Qed.

Lemma update_agents_shape (env : odict Pheromone) (todo : list SwarmAgent) :
  forall current : odict Pheromone,
    update_agents (map (fun kp => (fst kp, value (snd kp))) env) todo current =
    Ok (map (fun a =>
               move (sense_pheromones a (map (fun kp => (fst kp, value (snd kp))) env))
                    (target env a))
            todo,
        fold_left (fun e a => deposit e (target env a) (1 # 10)%Q) todo current).
Proof.
  induction todo as [ | a todo IH]; intros current; [reflexivity | ].
  cbn [update_agents]. rewrite decide_target. cbn [rbind].
  rewrite IH. reflexivity.
Qed.

Lemma update_agent_positions_shape (s : SwarmIntelligence) :
  update_agent_positions s =
  Ok {| agents :=
          map (fun a =>
                 move (sense_pheromones a
                         (map (fun kp => (fst kp, value (snd kp)))
                              (environment_pheromones s)))
                      (target (environment_pheromones s) a))
              (agents s);
        environment_pheromones :=
          fold_left (fun e a => deposit e (target (environment_pheromones s) a) (1 # 10)%Q)
                    (agents s) (environment_pheromones s);
        decay_rate := decay_rate s;
        timestep := timestep s |}.
Proof.
  unfold update_agent_positions. rewrite update_agents_shape. reflexivity.
Qed.

Lemma size_list_to_set_le (l : list string) :
  (size (list_to_set l : gset string) <= length l)%nat.
Proof.
  induction l as [ | x l IH].
  - rewrite list_to_set_nil, size_empty. simpl. lia.
  - rewrite list_to_set_cons, size_union_alt, size_singleton. simpl length.
    pose proof (subseteq_size (list_to_set l ∖ {[x]}) (list_to_set l : gset string)
                  ltac:(apply subseteq_difference_l; reflexivity)).
    lia.
Qed.

Lemma size_list_to_set_pos (l : list string) :
  l <> [] -> (1 <= size (list_to_set l : gset string))%nat.
Proof.
  destruct l as [ | x l]; [contradiction | ]. intros _. rewrite list_to_set_cons.
  rewrite <- (size_singleton (C := gset string) x).
  apply subseteq_size, union_subseteq_l.
Qed.

Lemma positions_after_move (env : odict Pheromone) (ags : list SwarmAgent) :
  map position
      (map (fun a =>
              move (sense_pheromones a (map (fun kp => (fst kp, value (snd kp))) env))
                   (target env a))
           ags) =
  map (target env) ags.
Proof. rewrite map_map. reflexivity. Qed.

Lemma converged_when_gathered (s : SwarmIntelligence) (loc : string) :
  agents s <> [] ->
  Forall (fun a => position a = loc) (agents s) ->
  unique_positions s = 1%Z /\ is_converged s (8 # 10) = true.
Proof.
  intros Hne Hall.
  assert (unique_positions s = 1%Z) as Hu.
  { unfold unique_positions. rewrite (list_to_set_same loc).
    - rewrite size_singleton. reflexivity.
    - destruct (agents s); [contradiction | discriminate].
    - apply Forall_map. exact Hall. }
  split; [exact Hu | ].
  unfold is_converged. apply Qle_bool_iff. rewrite Hu. simpl inject_Z.
  unfold Qdiv. rewrite Qmult_0_l. lra.
Qed.

Lemma run_iteration_shape (s : SwarmIntelligence) :
  agents s <> [] ->
  exists stats s',
    run_iteration s = Ok (stats, s') /\
    agents s' =
      map (fun a =>
             move (sense_pheromones a
                     (map (fun kp => (fst kp, value (snd kp)))
                          (environment_pheromones s)))
                  (target (environment_pheromones s) a))
          (agents s) /\
    environment_pheromones s' =
      evaporate (decay_rate s)
        (fold_left (fun e a => deposit e (target (environment_pheromones s) a) (1 # 10)%Q)
                   (agents s) (environment_pheromones s)) /\
    decay_rate s' = decay_rate s /\
    timestep s' = (timestep s + 1)%Z /\
    stat_timestep stats = (timestep s + 1)%Z /\
    unique_locations stats = unique_positions s' /\
    convergence_ratio stats =
      (1 - inject_Z (unique_positions s') / inject_Z (Z.of_nat (length (agents s))))%Q.
Proof.
  intros Hne. unfold run_iteration. rewrite update_agent_positions_shape.
  cbn [rbind evaporate_pheromones agents environment_pheromones decay_rate timestep].
  rewrite truediv_ok.
  - cbn [rbind]. eexists _, _. split; [reflexivity | ].
    cbn [agents environment_pheromones decay_rate timestep stat_timestep
         unique_locations convergence_ratio].
    rewrite length_map. repeat split; reflexivity.
  - rewrite length_map. destruct (agents s) as [ | a l]; [contradiction | ].
    simpl length. intros H.
    assert (inject_Z 0 < inject_Z (Z.of_nat (S (length l))))%Q as Hpos
      by (rewrite <- Zlt_Qlt; lia).
    change (inject_Z 0) with 0%Q in Hpos. rewrite H in Hpos. lra.
Qed.

(** Without agents [run_iteration] divides by the agent count and raises
    [ZeroDivisionError]. *)
Theorem run_iteration_no_agents (s : SwarmIntelligence) :
  agents s = [] -> run_iteration s = Raise ZeroDivisionError.
Proof.
  intros H. unfold run_iteration. rewrite update_agent_positions_shape, H.
  reflexivity.
Qed.

Lemma run_iteration_no_agents_witness :
  run_iteration (new_swarm 0 (1 # 10)) = Raise ZeroDivisionError.
Proof. apply (run_iteration_no_agents (new_swarm 0 (1 # 10))). reflexivity. Defined.

(** The statistics of an iteration on a swarm with at least one agent: the
    timestep counter grows by one and is reported; the number of distinct
    locations is at least 1 and at most the number of agents, which does not
    change; the convergence ratio lies in [0,1). *)
Theorem run_iteration_statistics (s : SwarmIntelligence) :
  agents s <> [] ->
  exists stats s',
    run_iteration s = Ok (stats, s') /\
    timestep s' = (timestep s + 1)%Z /\
    stat_timestep stats = (timestep s + 1)%Z /\
    length (agents s') = length (agents s) /\
    map agent_id (agents s') = map agent_id (agents s) /\
    (1 <= unique_locations stats <= Z.of_nat (length (agents s)))%Z /\
    (0 <= convergence_ratio stats < 1)%Q /\
    decay_rate s' = decay_rate s.
Proof.
  intros Hne.
  destruct (run_iteration_shape s Hne)
    as (stats & s' & Hrun & Hags & _ & Hdecay & Hts & Hst & Hu & Hratio).
  exists stats, s'. split; [exact Hrun | ]. split; [exact Hts | ].
  split; [exact Hst | ].
  assert (length (agents s') = length (agents s)) as Hlen
    by (rewrite Hags, length_map; reflexivity).
  split; [exact Hlen | ]. split.
  { rewrite Hags, map_map. reflexivity. }
  assert (1 <= unique_positions s' <= Z.of_nat (length (agents s)))%Z as Hbounds.
  { unfold unique_positions. rewrite <- Hlen. split.
    - apply (inj_le 1). apply size_list_to_set_pos.
      intros H. apply map_eq_nil in H. rewrite H in Hlen.
      destruct (agents s); [contradiction | discriminate].
    - apply inj_le. rewrite <- (length_map position). apply size_list_to_set_le. }
  split; [rewrite Hu; exact Hbounds | ]. split; [ | exact Hdecay].
  rewrite Hratio.
  set (u := unique_positions s') in *. set (n := Z.of_nat (length (agents s))) in *.
  assert (inject_Z 1 <= inject_Z u)%Q as H1 by (rewrite <- Zle_Qle; lia).
  assert (inject_Z u <= inject_Z n)%Q as H2 by (rewrite <- Zle_Qle; lia).
  change (inject_Z 1) with 1%Q in H1.
  assert (0 < inject_Z u / inject_Z n <= 1)%Q as [H3 H4].
  { split; [apply Qlt_shift_div_l; lra | apply Qle_shift_div_r; lra]. }
  lra.
Qed.

Lemma run_iteration_statistics_witness :
  exists stats s',
    run_iteration (new_swarm 10 (1 # 10)) = Ok (stats, s') /\
    timestep s' = (0 + 1)%Z /\
    stat_timestep stats = (0 + 1)%Z /\
    length (agents s') = length (agents (new_swarm 10 (1 # 10))) /\
    map agent_id (agents s') = map agent_id (agents (new_swarm 10 (1 # 10))) /\
    (1 <= unique_locations stats <=
     Z.of_nat (length (agents (new_swarm 10 (1 # 10)))))%Z /\
    (0 <= convergence_ratio stats < 1)%Q /\
    decay_rate s' = (1 # 10)%Q.
Proof.
  apply (run_iteration_statistics (new_swarm 10 (1 # 10))). discriminate.
Defined.

(** In an iteration that starts with a non-empty pheromone map every agent
    moves to one and the same location, the first location of maximal
    pheromone value in the map, wherever it stood: one distinct location is
    reported and the swarm is converged afterwards. *)
Theorem run_iteration_gathers (s : SwarmIntelligence) :
  agents s <> [] ->
  environment_pheromones s <> [] ->
  exists stats s' best pre post,
    run_iteration s = Ok (stats, s') /\
    dict_keys (environment_pheromones s) = pre ++ best :: post /\
    Forall (fun loc => (pheromone_at (environment_pheromones s) loc <
                        pheromone_at (environment_pheromones s) best)%Q) pre /\
    Forall (fun loc => (pheromone_at (environment_pheromones s) loc <=
                        pheromone_at (environment_pheromones s) best)%Q) post /\
    Forall (fun a => position a = best) (agents s') /\
    unique_locations stats = 1%Z /\
    is_converged s' (8 # 10) = true.
Proof.
  intros Hne Henv.
  destruct (run_iteration_shape s Hne)
    as (stats & s' & Hrun & Hags & _ & _ & _ & _ & Hu & _).
  destruct (dict_keys (environment_pheromones s)) as [ | loc locs] eqn:Ekeys.
  { destruct (environment_pheromones s); [contradiction | discriminate]. }
  set (best := max_from (pheromone_at (environment_pheromones s)) loc locs).
  assert (max_by (pheromone_at (environment_pheromones s)) (loc :: locs) = Ok best)
    as Hmax by reflexivity.
  apply max_by_first in Hmax as (pre & post & Hsplit & Hpre & Hpost).
  assert (Forall (fun a => position a = best) (agents s')) as Hall.
  { rewrite Hags. apply Forall_map, Forall_forall. intros a _. simpl.
    unfold target. rewrite Ekeys. reflexivity. }
  assert (agents s' <> []) as Hne'.
  { rewrite Hags. intros H. apply map_eq_nil in H. contradiction. }
  destruct (converged_when_gathered s' best Hne' Hall) as [Hone Hconv].
  exists stats, s', best, pre, post.
  split; [exact Hrun | ]. split; [exact Hsplit | ]. split; [exact Hpre | ].
  split; [exact Hpost | ]. split; [exact Hall | ]. split; [ | exact Hconv].
  rewrite Hu. exact Hone.
Qed.

Lemma run_iteration_gathers_witness :
  exists stats s' best pre post,
    run_iteration (deposit_pheromone (new_swarm 3 (1 # 10)) "north" (1 # 2)) =
      Ok (stats, s') /\
    dict_keys (environment_pheromones
                 (deposit_pheromone (new_swarm 3 (1 # 10)) "north" (1 # 2))) =
      pre ++ best :: post /\
    Forall (fun loc =>
              (pheromone_at (environment_pheromones
                               (deposit_pheromone (new_swarm 3 (1 # 10)) "north" (1 # 2)))
                            loc <
               pheromone_at (environment_pheromones
                               (deposit_pheromone (new_swarm 3 (1 # 10)) "north" (1 # 2)))
                            best)%Q) pre /\
    Forall (fun loc =>
              (pheromone_at (environment_pheromones
                               (deposit_pheromone (new_swarm 3 (1 # 10)) "north" (1 # 2)))
                            loc <=
               pheromone_at (environment_pheromones
                               (deposit_pheromone (new_swarm 3 (1 # 10)) "north" (1 # 2)))
                            best)%Q) post /\
    Forall (fun a => position a = best) (agents s') /\
    unique_locations stats = 1%Z /\
    is_converged s' (8 # 10) = true.
Proof.
  apply (run_iteration_gathers (deposit_pheromone (new_swarm 3 (1 # 10)) "north" (1 # 2)));
    discriminate.
Defined.

(** An agent's record of visited locations only grows: after an iteration
    each agent, in the same place of the agent list and under the same id,
    has visited what it had visited before and the location it now stands
    on. *)
Theorem run_iteration_visited (s : SwarmIntelligence) :
  agents s <> [] ->
  exists stats s',
    run_iteration s = Ok (stats, s') /\
    Forall2 (fun a a' =>
               agent_id a' = agent_id a /\
               visited_locations a' = visited_locations a ∪ {[position a']} /\
               visited_locations a ⊆ visited_locations a' /\
               position a' ∈ visited_locations a')
            (agents s) (agents s').
Proof.
  intros Hne.
  destruct (run_iteration_shape s Hne) as (stats & s' & Hrun & Hags & _).
  exists stats, s'. split; [exact Hrun | ]. rewrite Hags. clear.
  generalize (agents s) as l. intros l.
  induction l as [ | a l IH]; [constructor | ].
  simpl map. constructor; [ | exact IH].
  simpl. split; [reflexivity | ]. split; [reflexivity | ]. split.
  - apply union_subseteq_l.
  - apply elem_of_union_r, elem_of_singleton. reflexivity.
Qed.

Lemma run_iteration_visited_witness :
  exists stats s',
    run_iteration (new_swarm 2 (1 # 10)) = Ok (stats, s') /\
    Forall2 (fun a a' =>
               agent_id a' = agent_id a /\
               visited_locations a' = visited_locations a ∪ {[position a']} /\
               visited_locations a ⊆ visited_locations a' /\
               position a' ∈ visited_locations a')
            (agents (new_swarm 2 (1 # 10))) (agents s').
Proof.
  apply (run_iteration_visited (new_swarm 2 (1 # 10))). discriminate.
Defined.

(** *** Convergence of the driver *)

Lemma gathered_after_iteration (s s' : SwarmIntelligence) :
  environment_pheromones s <> [] ->
  agents s' =
    map (fun a =>
           move (sense_pheromones a
                   (map (fun kp => (fst kp, value (snd kp)))
                        (environment_pheromones s)))
                (target (environment_pheromones s) a))
        (agents s) ->
  exists best, Forall (fun a => position a = best) (agents s').
Proof.
  intros Henv ->.
  destruct (dict_keys (environment_pheromones s)) as [ | loc locs] eqn:Ekeys.
  { destruct (environment_pheromones s); [contradiction | discriminate]. }
  exists (max_from (pheromone_at (environment_pheromones s)) loc locs).
  apply Forall_map, Forall_forall. intros a _. simpl.
  unfold target. rewrite Ekeys. reflexivity.
Qed.

Section SwarmDriver.
Variable R : Rounding.

Lemma deposit_rounded_keys_nonempty (env : odict Pheromone) (loc : string) (v : Q) :
  dict_keys (SwarmR.deposit R env loc v) <> [].
Proof.
  unfold SwarmR.deposit. destruct (dict_mem loc env) eqn:E.
  - rewrite dict_keys_alter. rewrite dict_mem_keys in E.
    destruct (dict_keys env); [discriminate E | discriminate].
  - destruct env as [ | [k p] env]; simpl; [discriminate | ].
    destruct (String.eqb loc k); discriminate.
Qed.

Lemma fold_deposit_rounded_nonempty (f : SwarmAgent -> string) (v : Q)
    (l : list SwarmAgent) :
  forall env : odict Pheromone,
    (l <> [] \/ env <> []) ->
    fold_left (fun e a => SwarmR.deposit R e (f a) v) l env <> [].
Proof.
  induction l as [ | a l IH]; intros env H; simpl.
  - destruct H as [H | H]; [contradiction | exact H].
  - apply IH. right. intros Hnil.
    apply (deposit_rounded_keys_nonempty env (f a) v). rewrite Hnil. reflexivity.
Qed.

Lemma update_agents_rounded_shape (env : odict Pheromone) (todo : list SwarmAgent) :
  forall current : odict Pheromone,
    SwarmR.update_agents R (map (fun kp => (fst kp, value (snd kp))) env) todo current =
    Ok (map (fun a =>
               move (sense_pheromones a (map (fun kp => (fst kp, value (snd kp))) env))
                    (target env a))
            todo,
        fold_left (fun e a => SwarmR.deposit R e (target env a) (rnd R (1 # 10)))
                  todo current).
Proof.
  induction todo as [ | a todo IH]; intros current; [reflexivity | ].
  cbn [SwarmR.update_agents]. rewrite decide_target. cbn [rbind].
  rewrite IH. reflexivity.
Qed.

(** One iteration over rounded arithmetic: the agents move as in the exact
    model, since they compare stored values only; the pheromone map keeps at
    least one entry; the timestep grows by one. *)
Lemma run_iteration_rounded_shape (s : SwarmIntelligence) :
  agents s <> [] ->
  exists stats s',
    SwarmR.run_iteration R s = Ok (stats, s') /\
    agents s' =
      map (fun a =>
             move (sense_pheromones a
                     (map (fun kp => (fst kp, value (snd kp)))
                          (environment_pheromones s)))
                  (target (environment_pheromones s) a))
          (agents s) /\
    environment_pheromones s' <> [] /\
    decay_rate s' = decay_rate s /\
    timestep s' = (timestep s + 1)%Z /\
    stat_timestep stats = (timestep s + 1)%Z /\
    unique_locations stats = unique_positions s'.
Proof.
  intros Hne. unfold SwarmR.run_iteration, SwarmR.update_agent_positions.
  rewrite update_agents_rounded_shape.
  cbn [rbind SwarmR.evaporate_pheromones agents environment_pheromones decay_rate
       timestep fst snd].
  rewrite fl_div_ok.
  - cbn [rbind]. eexists _, _. split; [reflexivity | ].
    cbn [agents environment_pheromones decay_rate timestep stat_timestep
         unique_locations].
    split; [reflexivity | ]. split; [ | repeat split; reflexivity].
    unfold SwarmR.evaporate. intros H. apply map_eq_nil in H.
    revert H. apply fold_deposit_rounded_nonempty. left. exact Hne.
  - rewrite length_map. destruct (agents s) as [ | a l]; [contradiction | ].
    simpl length. intros H.
    assert (inject_Z 0 < inject_Z (Z.of_nat (S (length l))))%Q as Hpos
      by (rewrite <- Zlt_Qlt; lia).
    change (inject_Z 0) with 0%Q in Hpos. rewrite H in Hpos. lra.
Qed.

(** With all agents on one location the measure is [0 / max(1, n - 1)],
    which is 0 in any arithmetic, and the bound [1 - 0.8] is not negative
    in any arithmetic. *)
Lemma converged_rounded_when_gathered (s : SwarmIntelligence) (loc : string) :
  agents s <> [] ->
  Forall (fun a => position a = loc) (agents s) ->
  unique_positions s = 1%Z /\ SwarmR.is_converged R s (rnd R (8 # 10)) = true.
Proof.
  intros Hne Hall.
  assert (unique_positions s = 1%Z) as Hu.
  { unfold unique_positions. rewrite (list_to_set_same loc).
    - rewrite size_singleton. reflexivity.
    - destruct (agents s); [contradiction | discriminate].
    - apply Forall_map. exact Hall. }
  split; [exact Hu | ].
  unfold SwarmR.is_converged. apply Qle_bool_iff. rewrite Hu. simpl inject_Z.
  apply Qle_trans with 0%Q.
  - apply Qle_trans with (rnd R 0); [ | rewrite (rnd_zero R); apply Qle_refl].
    apply rnd_mono. unfold Qdiv. rewrite Qmult_0_l. apply Qle_refl.
  - apply rnd_nonneg.
    assert (rnd R (8 # 10) <= 1)%Q as H by (apply rnd_le_one; lra).
    lra.
Qed.

Lemma optimize_loop_rounded_converged (fuel : nat) (s : SwarmIntelligence) :
  SwarmR.is_converged R s (rnd R (8 # 10)) = true ->
  SwarmR.optimize_loop R fuel s = Ok s.
Proof. intros H. destruct fuel; simpl; [ | rewrite H]; reflexivity. Qed.

Lemma is_converged_rounded_positions (s s' : SwarmIntelligence) (t : Q) :
  map position (agents s') = map position (agents s) ->
  SwarmR.is_converged R s' t = SwarmR.is_converged R s t.
Proof.
  intros H. unfold SwarmR.is_converged, unique_positions. rewrite H.
  rewrite <- (length_map position (agents s')), H, length_map. reflexivity.
Qed.

(** [swarm_optimization] on a swarm with at least one agent and an
    iteration cap of at least 2 returns with the swarm converged, wherever
    the agents stood.  A swarm that is converged at the start is returned
    as it is.  Otherwise every agent ends on the returned location, after
    one iteration when the pheromone map had an entry at the start and
    after two when it was empty: the first iteration then leaves the agents
    in place and pheromone behind, and the second gathers them.  The answer
    is the position of the first agent.  This holds whatever the rounding
    of the measure and of the bound. *)
Theorem swarm_optimization_converges (s : SwarmIntelligence) (max_iterations : Z) :
  agents s <> [] ->
  (2 <= max_iterations)%Z ->
  exists loc s' a rest,
    SwarmR.swarm_optimization R s max_iterations = Ok (loc, s') /\
    SwarmR.is_converged R s' (rnd R (8 # 10)) = true /\
    (timestep s <= timestep s' <= timestep s + 2)%Z /\
    agents s' = a :: rest /\ loc = position a /\
    length (agents s') = length (agents s) /\
    (if SwarmR.is_converged R s (rnd R (8 # 10)) then s' = s
     else
       Forall (fun b => position b = loc) (agents s') /\
       timestep s' =
         (timestep s + match environment_pheromones s with [] => 2 | _ => 1 end)%Z).
Proof.
  intros Hne Hmax.
  assert (exists s',
             SwarmR.optimize_loop R (Z.to_nat max_iterations) s = Ok s' /\
             SwarmR.is_converged R s' (rnd R (8 # 10)) = true /\
             (timestep s <= timestep s' <= timestep s + 2)%Z /\
             length (agents s') = length (agents s) /\
             (if SwarmR.is_converged R s (rnd R (8 # 10)) then s' = s
              else
                (exists best, Forall (fun b => position b = best) (agents s')) /\
                timestep s' =
                  (timestep s +
                   match environment_pheromones s with [] => 2 | _ => 1 end)%Z))
    as (s' & Hloop & Hconv & Hts & Hlen & Hcase).
  { destruct (Z.to_nat max_iterations) as [ | [ | fuel]] eqn:E; [lia | lia | ].
    destruct (SwarmR.is_converged R s (rnd R (8 # 10))) eqn:Hc0.
    { exists s. rewrite optimize_loop_rounded_converged by exact Hc0.
      repeat split; try assumption; lia. }
    cbn [SwarmR.optimize_loop]. rewrite Hc0.
    destruct (run_iteration_rounded_shape s Hne)
      as (st1 & s1 & Hrun1 & Hags1 & Henv1 & _ & Hts1 & _).
    rewrite Hrun1. cbn [rbind snd].
    assert (length (agents s1) = length (agents s)) as Hlen1
      by (rewrite Hags1, length_map; reflexivity).
    assert (agents s1 <> []) as Hne1.
    { intros H. rewrite H in Hlen1. destruct (agents s); [contradiction | discriminate]. }
    destruct (environment_pheromones s) as [ | kp env] eqn:Eenv.
    - assert (map position (agents s1) = map position (agents s)) as Hpos.
      { rewrite Hags1, positions_after_move. reflexivity. }
      rewrite (is_converged_rounded_positions s s1 _ Hpos), Hc0.
      destruct (run_iteration_rounded_shape s1 Hne1)
        as (st2 & s2 & Hrun2 & Hags2 & _ & _ & Hts2 & _).
      rewrite Hrun2. cbn [rbind snd].
      assert (length (agents s2) = length (agents s1)) as Hlen2
        by (rewrite Hags2, length_map; reflexivity).
      assert (agents s2 <> []) as Hne2.
      { intros H. rewrite H in Hlen2.
        destruct (agents s1); [contradiction | discriminate]. }
      destruct (gathered_after_iteration s1 s2 Henv1 Hags2) as (best & Hall).
      destruct (converged_rounded_when_gathered s2 best Hne2 Hall) as [_ Hc2].
      exists s2. rewrite optimize_loop_rounded_converged by exact Hc2.
      split; [reflexivity | ]. split; [exact Hc2 | ]. split; [lia | ].
      split; [congruence | ]. split; [exists best; exact Hall | lia].
    - assert (environment_pheromones s <> []) as Henv0 by (rewrite Eenv; discriminate).
      rewrite <- Eenv in Hags1.
      destruct (gathered_after_iteration s s1 Henv0 Hags1) as (best & Hall).
      destruct (converged_rounded_when_gathered s1 best Hne1 Hall) as [_ Hc1].
      rewrite Hc1. exists s1.
      split; [reflexivity | ]. split; [exact Hc1 | ]. split; [lia | ].
      split; [exact Hlen1 | ]. split; [exists best; exact Hall | lia]. }
  unfold SwarmR.swarm_optimization. rewrite Hloop. cbn [rbind].
  destruct (agents s') as [ | a rest] eqn:Eags.
  { simpl in Hlen. destruct (agents s); [contradiction | discriminate]. }
  rewrite <- Eags in Hlen.
  exists (position a), s', a, rest.
  split; [reflexivity | ]. split; [exact Hconv | ]. split; [exact Hts | ].
  split; [exact Eags | ]. split; [reflexivity | ]. split; [exact Hlen | ].
  destruct (SwarmR.is_converged R s (rnd R (8 # 10))); [exact Hcase | ].
  destruct Hcase as [(best & Hall) Hstep]. split; [ | exact Hstep].
  pose proof (Forall_inv Hall) as Ha. simpl in Ha.
  rewrite Eags, Ha. exact Hall.
Qed.
End SwarmDriver.

Lemma swarm_optimization_converges_witness :
  SwarmR.is_converged exact scattered_swarm (rnd exact (8 # 10)) = false /\
  (exists loc s' a rest,
     SwarmR.swarm_optimization exact scattered_swarm 100 = Ok (loc, s') /\
     SwarmR.is_converged exact s' (rnd exact (8 # 10)) = true /\
     (0 <= timestep s' <= 0 + 2)%Z /\
     agents s' = a :: rest /\ loc = position a /\
     length (agents s') = 2%nat /\
     Forall (fun b => position b = loc) (agents s') /\
     timestep s' = (0 + 2)%Z) /\
  SwarmR.is_converged sixteenths six_on_two (rnd sixteenths (8 # 10)) = false /\
  (exists loc s' a rest,
     SwarmR.swarm_optimization sixteenths six_on_two 100 = Ok (loc, s') /\
     SwarmR.is_converged sixteenths s' (rnd sixteenths (8 # 10)) = true /\
     (0 <= timestep s' <= 0 + 2)%Z /\
     agents s' = a :: rest /\ loc = position a /\
     length (agents s') = 6%nat /\
     Forall (fun b => position b = loc) (agents s') /\
     timestep s' = (0 + 2)%Z).
Proof.
  split; [reflexivity | ]. split; [ | split; [reflexivity | ]].
  - destruct (swarm_optimization_converges exact scattered_swarm 100)
      as (loc & s' & a & rest & H1 & H2 & H3 & H4 & H5 & H6 & H7).
    + discriminate.
    + lia.
    + exists loc, s', a, rest.
      change (SwarmR.is_converged exact scattered_swarm (rnd exact (8 # 10)))
        with false in H7.
      destruct H7 as [H7 H8].
      repeat split; try assumption; apply H3.
  - destruct (swarm_optimization_converges sixteenths six_on_two 100)
      as (loc & s' & a & rest & H1 & H2 & H3 & H4 & H5 & H6 & H7).
    + discriminate.
    + lia.
    + exists loc, s', a, rest.
      change (SwarmR.is_converged sixteenths six_on_two (rnd sixteenths (8 # 10)))
        with false in H7.
      destruct H7 as [H7 H8].
      repeat split; try assumption; apply H3.
Defined.

(** *** A fresh swarm never leaves the origin *)

Lemma deposit_origin_keys (env : odict Pheromone) (v : Q) :
  dict_keys env = [] \/ dict_keys env = ["origin"] ->
  dict_keys (deposit env "origin" v) = ["origin"].
Proof.
  intros H. unfold deposit. rewrite dict_mem_keys.
  destruct H as [H | H]; rewrite H; simpl.
  - destruct env; [reflexivity | discriminate H].
  - rewrite dict_keys_alter. exact H.
Qed.

Lemma fold_deposit_origin (f : SwarmAgent -> string) (l : list SwarmAgent) :
  Forall (fun a => f a = "origin") l ->
  forall env : odict Pheromone,
    dict_keys env = [] \/ dict_keys env = ["origin"] ->
    (dict_keys (fold_left (fun e a => deposit e (f a) (1 # 10)%Q) l env) = dict_keys env /\
     l = []) \/
    dict_keys (fold_left (fun e a => deposit e (f a) (1 # 10)%Q) l env) = ["origin"].
Proof.
  induction 1 as [ | a l Ha _ IH]; intros env Henv; simpl; [left; auto | ].
  right. rewrite Ha.
  destruct (IH (deposit env "origin" (1 # 10)%Q)) as [[Hsame _] | Hone].
  - right. apply deposit_origin_keys. exact Henv.
  - rewrite Hsame. apply deposit_origin_keys. exact Henv.
  - exact Hone.
Qed.

(** The state kept by iterations of a fresh swarm. *)
Lemma origin_step (s : SwarmIntelligence) :
  agents s <> [] ->
  Forall (fun a => position a = "origin" /\ visited_locations a = {["origin"]})
         (agents s) ->
  dict_keys (environment_pheromones s) = [] \/
  dict_keys (environment_pheromones s) = ["origin"] ->
  exists stats s',
    run_iteration s = Ok (stats, s') /\
    Forall (fun a => position a = "origin" /\ visited_locations a = {["origin"]})
           (agents s') /\
    dict_keys (environment_pheromones s') = ["origin"] /\
    timestep s' = (timestep s + 1)%Z /\
    length (agents s') = length (agents s) /\
    unique_locations stats = 1%Z.
Proof.
  intros Hne Hall Hkeys.
  destruct (run_iteration_shape s Hne)
    as (stats & s' & Hrun & Hags & Henv & _ & Hts & _ & Hu & _).
  assert (Forall (fun a => target (environment_pheromones s) a = "origin") (agents s))
    as Htarget.
  { eapply Forall_impl; [exact Hall | ]. intros a [Hpos _]. unfold target.
    destruct Hkeys as [-> | ->]; [exact Hpos | reflexivity]. }
  assert (Forall (fun a => position a = "origin" /\ visited_locations a = {["origin"]})
                 (agents s')) as Hall'.
  { rewrite Hags. apply Forall_map.
    rewrite Forall_forall in Hall, Htarget. apply Forall_forall. intros a Ha.
    destruct (Hall a Ha) as [_ Hvis]. specialize (Htarget a Ha).
    simpl. rewrite Htarget, Hvis. split; [reflexivity | ].
    apply (idemp_L (∪)). }
  exists stats, s'. split; [exact Hrun | ]. split; [exact Hall' | ].
  assert (length (agents s') = length (agents s)) as Hlen
    by (rewrite Hags, length_map; reflexivity).
  split; [ | split; [exact Hts | split; [exact Hlen | ]]].
  - rewrite Henv. unfold evaporate, dict_keys. rewrite map_map. simpl.
    destruct (fold_deposit_origin _ _ Htarget _ Hkeys) as [[_ Hnil] | Hone];
      [contradiction | exact Hone].
  - rewrite Hu.
    apply (converged_when_gathered s' "origin").
    + intros H. rewrite H in Hlen. destruct (agents s); [contradiction | discriminate].
    + eapply Forall_impl; [exact Hall' | ]. intros a [Hpos _]. exact Hpos.
Qed.

(** Iterating a fresh swarm of [n >= 1] agents never moves an agent: after
    any number [k] of iterations every agent is at "origin" and has visited
    nothing else, the timestep is [k], the swarm has its [n] agents and is
    converged, and from the first iteration on "origin" is the only location
    that carries pheromone. *)
Theorem fresh_swarm_stays_at_origin (n : Z) (decay : Q) (k : nat) :
  (1 <= n)%Z ->
  exists s',
    iterate k (new_swarm n decay) = Ok s' /\
    Forall (fun a => position a = "origin" /\ visited_locations a = {["origin"]})
           (agents s') /\
    timestep s' = Z.of_nat k /\
    length (agents s') = Z.to_nat n /\
    is_converged s' (8 # 10) = true /\
    ((1 <= k)%nat -> dict_keys (environment_pheromones s') = ["origin"]).
Proof.
  intros Hn.
  assert (forall (j : nat) (s : SwarmIntelligence),
            agents s <> [] ->
            Forall (fun a => position a = "origin" /\ visited_locations a = {["origin"]})
                   (agents s) ->
            (dict_keys (environment_pheromones s) = [] \/
             dict_keys (environment_pheromones s) = ["origin"]) ->
            exists s',
              iterate j s = Ok s' /\
              Forall (fun a => position a = "origin" /\
                               visited_locations a = {["origin"]}) (agents s') /\
              timestep s' = (timestep s + Z.of_nat j)%Z /\
              length (agents s') = length (agents s) /\
              ((1 <= j)%nat -> dict_keys (environment_pheromones s') = ["origin"]))
    as Hiter.
  { induction j as [ | j IH]; intros s Hne Hall Hkeys.
    - exists s. simpl. repeat split; auto; lia.
    - destruct (origin_step s Hne Hall Hkeys)
        as (stats & s1 & Hrun & Hall1 & Hkeys1 & Hts1 & Hlen1 & _).
      assert (agents s1 <> []) as Hne1.
      { intros H. rewrite H in Hlen1. destruct (agents s); [contradiction | discriminate]. }
      destruct (IH s1 Hne1 Hall1 (or_intror Hkeys1))
        as (s' & Hit & Hall' & Hts' & Hlen' & Hkeys').
      exists s'. cbn [iterate]. rewrite Hrun. cbn [rbind snd].
      split; [exact Hit | ]. split; [exact Hall' | ].
      split; [lia | ]. split; [lia | ].
      intros _. destruct j as [ | j]; [ | apply Hkeys'; lia].
      simpl in Hit. injection Hit as <-. exact Hkeys1. }
  assert (agents (new_swarm n decay) <> []) as Hne.
  { unfold new_swarm, py_range. simpl. intros H. apply (f_equal length) in H.
    rewrite length_map, length_seqZ in H. simpl in H. lia. }
  destruct (Hiter k (new_swarm n decay) Hne) as (s' & Hit & Hall & Hts & Hlen & Hkeys).
  - unfold new_swarm. simpl. apply Forall_map, Forall_forall. intros i _. simpl. auto.
  - left. reflexivity.
  - exists s'. split; [exact Hit | ]. split; [exact Hall | ].
    split; [simpl in Hts; lia | ]. split.
    + rewrite Hlen. unfold new_swarm, py_range. simpl.
      rewrite length_map, length_seqZ. f_equal. lia.
    + split; [ | exact Hkeys].
      apply (converged_when_gathered s' "origin").
      * intros H. rewrite H in Hlen. destruct (agents (new_swarm n decay));
          [contradiction | discriminate].
      * eapply Forall_impl; [exact Hall | ]. intros a [Hpos _]. exact Hpos.
Qed.

Lemma fresh_swarm_stays_at_origin_witness :
  exists s',
    iterate 10 (new_swarm 10 (1 # 10)) = Ok s' /\
    Forall (fun a => position a = "origin" /\ visited_locations a = {["origin"]})
           (agents s') /\
    timestep s' = Z.of_nat 10 /\
    length (agents s') = Z.to_nat 10 /\
    is_converged s' (8 # 10) = true /\
    ((1 <= 10)%nat -> dict_keys (environment_pheromones s') = ["origin"]).
Proof.
  apply (fresh_swarm_stays_at_origin 10 (1 # 10) 10). lia.
Defined.
End SwarmMore.
